(** * The run endpoint of [backend/app/server.py]

    A shallow embedding of [create_run_endpoint] and of the two coroutines
    it defines on its streaming path: the background task
    [consume_astream], which feeds the handler's stream, and the async
    generator [_stream], which turns what arrives on that stream into
    server-sent events.

    Python values that the endpoint subscripts (the request body, the
    storage records, the configuration) are [pyval]s, with dictionaries as
    finite maps.  The two coroutines run on one event loop; their
    interleaving is a list of turns, and every property of a streaming run
    is proved for all such lists. *)

From stdpp Require Import base option list strings gmap.
From Stdlib Require Import ZArith Lia.

Set Warnings "-register-all".

(** ** Python values *)

(** What [json.loads] builds, and the objects the endpoint only passes
    around ([PObject], known by name).  Numbers are integers. *)
Inductive pyval : Type :=
| PNone
| PBool (b : bool)
| PInt (z : Z)
| PStr (s : string)
| PList (l : list pyval)
| PDict (d : gmap string pyval)
| PObject (name : string).

(** An exception object as the streaming code sees it: [consume_astream]
    catches it only when it is an instance of [Exception]; [_stream] asks
    [isinstance(chunk, BaseException)], which holds of every exception,
    wherever it comes from. *)
Record py_exception : Type := PyExc {
  exc_class : string;
  exc_text : string;
  exc_is_Exception : bool
}.

(** The dictionaries yielded by [_stream]: the key ["event"] is always
    there, the key ["data"] is absent from the end event. *)
Record sse_event : Type := SSE {
  event : string;
  data : option string
}.

(** ** The streaming run *)

Section Streaming.

(** What the agent produces and what its callbacks record are opaque. *)
Context {chunk callback_event : Type}.

(** [serializer.dumps(chunk).decode("utf-8")], where it returns. *)
Variable serializer_dumps : chunk -> string.
(** [_get_base_run_id_as_str(event_aggregator)], a function of the
    callback events the aggregator holds. *)
Variable _get_base_run_id_as_str : list callback_event -> string.
(** [orjson.dumps(d).decode()] *)
Variable orjson_dumps : pyval -> string.
(** What [serializer.dumps(chunk)] raises on a chunk it does not take. *)
Variable serializer_error : chunk -> option py_exception.
(** The agent may yield anything, an exception object too:
    [chunk_exception c] is the chunk [c] as an exception when
    [isinstance(c, BaseException)]. *)
Variable chunk_exception : chunk -> option py_exception.

(** One iteration of [agent.astream(input_, config)] as the event loop
    sees it: the agent records a callback event in [event_aggregator]
    (registered in [config["callbacks"]]), or it yields a chunk.  After a
    finite number of these it is exhausted or it raises. *)
Inductive agent_action : Type :=
| Callback (ev : callback_event)
| Yield (c : chunk).

Inductive agent_ending : Type :=
| Completes
| Raises (e : py_exception).

Record agent_run : Type := AgentRun {
  actions : list agent_action;
  ending : agent_ending
}.

(** What [consume_astream] puts on the handler's stream: a chunk of the
    agent, or the exception it caught. *)
Inductive item : Type :=
| Chunk (c : chunk)
| Failure (e : py_exception).

(** [isinstance(chunk, BaseException)] in [_stream]: what was sent from
    the [except] clause is an exception, and so is a chunk that is
    one. *)
Definition exception_of (it : item) : py_exception + chunk :=
  match it with
  | Failure e => inl e
  | Chunk c =>
      match chunk_exception c with
      | Some e => inl e
      | None => inr c
      end
  end.

(** A chunk that goes out as a data event: it is no exception and the
    serializer takes it. *)
Definition plain (c : chunk) : bool :=
  match chunk_exception c, serializer_error c with
  | None, None => true
  | _, _ => false
  end.

Inductive chan_op : Type :=
| Send (it : item)
| Close.

(** Modelled from the spec: the handler's stream ([app.stream] is not
    part of the sources).  The Handoff Channel is an
    ordering-preserving queue with one writer, one reader and an
    explicit close signal; a send never fails and never waits.
    [sent] is the log of what was done on [send_stream]. *)
Record channel : Type := Channel {
  sent : list chan_op;
  buffer : list item;
  closed : bool
}.

Definition chan_send (it : item) (ch : channel) : channel :=
  {| sent := sent ch ++ [Send it];
     buffer := buffer ch ++ [it];
     closed := closed ch |}.

Definition chan_aclose (ch : channel) : channel :=
  {| sent := sent ch ++ [Close];
     buffer := buffer ch;
     closed := true |}.

(** Modelled from the spec: [StreamMessagesHandler] ([app.stream] is
    not part of the sources).  It is built from the run's message
    history and owns the stream; of its methods the endpoint uses none,
    it only reaches [send_stream] and [receive_stream]. *)
Record StreamMessagesHandler : Type := Handler {
  messages : pyval;
  stream : channel
}.

Definition new_handler (init_messages : pyval) : StreamMessagesHandler :=
  {| messages := init_messages;
     stream := {| sent := []; buffer := []; closed := false |} |}.

Definition on_stream (f : channel -> channel) (h : StreamMessagesHandler)
    : StreamMessagesHandler :=
  {| messages := messages h; stream := f (stream h) |}.

(** Where [consume_astream] stands. [pending] and [result] hold the
    exception the task is propagating, if any. *)
Inductive task_pc : Type :=
| TaskTry (todo : list agent_action)
| TaskFinally (pending : option py_exception)
| TaskDone (result : option py_exception).

(** Where [_stream] stands: at the head of its [async for] (before the
    first item, after a data event, or waiting for the next item),
    suspended at one of its other three [yield]s, in [await task], or
    over.  [GenAtMetadata c] still has to yield the data event of [c]. *)
Inductive gen_pc : Type :=
| GenLoop
| GenAtMetadata (c : chunk)
| GenAtError (e : py_exception)
| GenAtEnd
| GenAwaitTask
| GenReturned
| GenRaised (e : py_exception)
| GenClosed.

Record generator : Type := Generator {
  pc : gen_pc;
  has_sent_metadata : bool;
  yielded : list sse_event;
  awaits : nat
}.

(** What the two coroutines share: the task handle, the handler
    [streamer], the aggregator's [callback_events], and the generator
    itself. *)
Record run_state : Type := RunState {
  task : task_pc;
  streamer : StreamMessagesHandler;
  callback_events : list callback_event;
  gen : generator
}.

Definition chan (s : run_state) : channel := stream (streamer s).

(** *** The four events *)

Definition error_event : sse_event :=
  {| event := "error";
     data := Some (orjson_dumps (PDict
               {[ "status_code" := PInt 500;
                  "message" := PStr "Internal Server Error" ]})) |}.

Definition metadata_event (evs : list callback_event) : sse_event :=
  {| event := "metadata";
     data := Some (orjson_dumps (PDict
               {[ "run_id" := PStr (_get_base_run_id_as_str evs) ]})) |}.

Definition data_event (c : chunk) : sse_event :=
  {| event := "data"; data := Some (serializer_dumps c) |}.

Definition end_event : sse_event :=
  {| event := "end"; data := None |}.

(** *** [consume_astream] *)

(** One turn of the background task.  In the [try], the next agent
    action is performed: a callback event is appended to the
    aggregator, a chunk is sent.  When the agent raises, [except
    Exception] sends the exception itself; anything else keeps
    propagating.  The [finally] closes the stream in both cases. *)
Definition consume_astream (r : agent_run) (s : run_state) : run_state :=
  match task s with
  | TaskTry (Callback ev :: todo) =>
      {| task := TaskTry todo;
         streamer := streamer s;
         callback_events := callback_events s ++ [ev];
         gen := gen s |}
  | TaskTry (Yield c :: todo) =>
      {| task := TaskTry todo;
         streamer := on_stream (chan_send (Chunk c)) (streamer s);
         callback_events := callback_events s;
         gen := gen s |}
  | TaskTry [] =>
      match ending r with
      | Completes =>
          {| task := TaskFinally None;
             streamer := streamer s;
             callback_events := callback_events s;
             gen := gen s |}
      | Raises e =>
          if exc_is_Exception e then
            {| task := TaskFinally None;
               streamer := on_stream (chan_send (Failure e)) (streamer s);
               callback_events := callback_events s;
               gen := gen s |}
          else
            {| task := TaskFinally (Some e);
               streamer := streamer s;
               callback_events := callback_events s;
               gen := gen s |}
      end
  | TaskFinally pending =>
      {| task := TaskDone pending;
         streamer := on_stream chan_aclose (streamer s);
         callback_events := callback_events s;
         gen := gen s |}
  | TaskDone _ => s
  end.

(** *** [_stream] *)

Definition emit (e : sse_event) (next : gen_pc) (g : generator) : generator :=
  {| pc := next;
     has_sent_metadata := has_sent_metadata g;
     yielded := yielded g ++ [e];
     awaits := awaits g |}.

Definition goto (next : gen_pc) (g : generator) : generator :=
  {| pc := next;
     has_sent_metadata := has_sent_metadata g;
     yielded := yielded g;
     awaits := awaits g |}.

Definition with_gen (g : generator) (s : run_state) : run_state :=
  {| task := task s;
     streamer := streamer s;
     callback_events := callback_events s;
     gen := g |}.

Definition receive (rest : list item) (g : generator) (s : run_state) : run_state :=
  {| task := task s;
     streamer :=
       on_stream (fun ch => {| sent := sent ch; buffer := rest;
                               closed := closed ch |}) (streamer s);
     callback_events := callback_events s;
     gen := g |}.

(** [await task] once the task is over: its exception, if it kept one,
    is raised in the generator. *)
Definition join (result : option py_exception) (g : generator) : generator :=
  match result with
  | None => goto GenReturned g
  | Some e => goto (GenRaised e) g
  end.

(** The [yield] of a data event: the dictionary is built first, and
    [serializer.dumps] may raise, which ends the generator. *)
Definition yield_data (c : chunk) (g : generator) : generator :=
  match serializer_error c with
  | Some e => goto (GenRaised e) g
  | None => emit (data_event c) GenLoop g
  end.

(** The head of the [async for]: take the next item and run to the next
    [yield].  With nothing buffered the generator waits, unless the
    stream is closed, which ends the loop. *)
Definition stream_loop (s : run_state) : run_state :=
  let g := gen s in
  match buffer (chan s) with
  | it :: rest =>
      match exception_of it with
      | inl e =>
          receive rest (emit error_event (GenAtError e) g) s
      | inr c =>
          match has_sent_metadata g, callback_events s with
          | false, _ :: _ =>
              receive rest
                (emit (metadata_event (callback_events s)) (GenAtMetadata c) g) s
          | _, _ =>
              receive rest (yield_data c g) s
          end
      end
  | [] =>
      if closed (chan s) then with_gen (emit end_event GenAtEnd g) s else s
  end.

(** One [__anext__] of the generator: it resumes where it was suspended
    and runs until it yields, waits, returns or raises. *)
Definition _stream (s : run_state) : run_state :=
  let g := gen s in
  match pc g with
  | GenLoop => stream_loop s
  | GenAtMetadata c =>
      with_gen
        (yield_data c
           {| pc := GenLoop;
              has_sent_metadata := true;
              yielded := yielded g;
              awaits := awaits g |}) s
  | GenAtError e => with_gen (goto (GenRaised e) g) s
  | GenAtEnd =>
      let g' := {| pc := GenAwaitTask;
                   has_sent_metadata := has_sent_metadata g;
                   yielded := yielded g;
                   awaits := S (awaits g) |} in
      match task s with
      | TaskDone result => with_gen (join result g') s
      | _ => with_gen g' s
      end
  | GenAwaitTask =>
      match task s with
      | TaskDone result => with_gen (join result g) s
      | _ => s
      end
  | GenReturned | GenRaised _ | GenClosed => s
  end.

(** The consumer of the response goes away: the generator is closed
    where it is suspended; it has no [finally] to run. *)
Definition aclose (s : run_state) : run_state :=
  match pc (gen s) with
  | GenReturned | GenRaised _ | GenClosed => s
  | _ => with_gen (goto GenClosed (gen s)) s
  end.

(** *** The event loop *)

Inductive turn : Type :=
| RunTask
| PullEvent
| Disconnect.

Definition step (r : agent_run) (t : turn) (s : run_state) : run_state :=
  match t with
  | RunTask => consume_astream r s
  | PullEvent => _stream s
  | Disconnect => aclose s
  end.

Definition exec (r : agent_run) (sched : list turn) (s : run_state) : run_state :=
  fold_left (fun s t => step r t s) sched s.

(** The state in which [create_run_endpoint] returns its
    [EventSourceResponse]: the task is created around the agent's
    [astream], the handler is new, the aggregator has seen nothing and
    the generator has not been started. *)
Definition start (h : StreamMessagesHandler) (r : agent_run) : run_state :=
  {| task := TaskTry (actions r);
     streamer := h;
     callback_events := [];
     gen := {| pc := GenLoop; has_sent_metadata := false;
               yielded := []; awaits := 0 |} |}.

Definition run (msgs : pyval) (r : agent_run) (sched : list turn) : run_state :=
  exec r sched (start (new_handler msgs) r).

(** *** What a run is measured against *)

Fixpoint chunks_of (acts : list agent_action) : list chunk :=
  match acts with
  | [] => []
  | Callback _ :: k => chunks_of k
  | Yield c :: k => c :: chunks_of k
  end.

Fixpoint callbacks_of (acts : list agent_action) : list callback_event :=
  match acts with
  | [] => []
  | Callback ev :: k => ev :: callbacks_of k
  | Yield _ :: k => callbacks_of k
  end.

(** The agent records a callback event before it yields anything. *)
Definition callback_first (acts : list agent_action) : bool :=
  match acts with
  | Callback _ :: _ => true
  | _ => false
  end.

(** What [except Exception as e] puts on the stream, and what it lets
    through. *)
Definition marker (e : agent_ending) : list item :=
  match e with
  | Completes => []
  | Raises e => if exc_is_Exception e then [Failure e] else []
  end.

Definition uncaught (e : agent_ending) : option py_exception :=
  match e with
  | Completes => None
  | Raises e => if exc_is_Exception e then None else Some e
  end.

Fixpoint sent_items (log : list chan_op) : list item :=
  match log with
  | [] => []
  | Send it :: k => it :: sent_items k
  | Close :: k => sent_items k
  end.

Definition is_failure (op : chan_op) : bool :=
  match op with
  | Send (Failure _) => true
  | _ => false
  end.

Definition is_close (op : chan_op) : bool :=
  match op with
  | Close => true
  | _ => false
  end.

Definition count {A : Type} (f : A -> bool) (l : list A) : nat :=
  length (List.filter f l).

Definition is_turn (t u : turn) : bool :=
  match t, u with
  | RunTask, RunTask | PullEvent, PullEvent | Disconnect, Disconnect => true
  | _, _ => false
  end.

Definition is_done (t : task_pc) : bool :=
  match t with
  | TaskDone _ => true
  | _ => false
  end.

(** The generator is over by itself: it returned or it raised. *)
Definition finished (p : gen_pc) : bool :=
  match p with
  | GenReturned | GenRaised _ => true
  | _ => false
  end.

Definition named (name : string) (e : sse_event) : bool :=
  String.eqb (event e) name.

(** Everything [consume_astream] does on [send_stream] in a whole run. *)
Definition task_log (r : agent_run) : list chan_op :=
  map (fun c => Send (Chunk c)) (chunks_of (actions r))
    ++ map Send (marker (ending r)) ++ [Close].

(** *** Invariants of the run *)

(** The task has performed a prefix [done] of the agent's actions. *)
Definition task_inv (r : agent_run) (s : run_state) : Prop :=
  exists done,
    callback_events s = callbacks_of done /\
    match task s with
    | TaskTry todo =>
        actions r = done ++ todo /\
        sent (chan s) = map (fun c => Send (Chunk c)) (chunks_of done) /\
        closed (chan s) = false
    | TaskFinally p =>
        actions r = done /\ p = uncaught (ending r) /\
        sent (chan s) =
          map (fun c => Send (Chunk c)) (chunks_of done)
            ++ map Send (marker (ending r)) /\
        closed (chan s) = false
    | TaskDone p =>
        actions r = done /\ p = uncaught (ending r) /\
        sent (chan s) = task_log r /\
        closed (chan s) = true
    end.

(** The events yielded for the chunks [cs], all handled: with the flag
    down no metadata event is among them; with the flag up exactly one
    is, right before the data event of some chunk.  In a run whose agent
    records a callback first ([early]), the flag goes up with the first
    chunk. *)
Definition body (early flag : bool) (cs : list chunk)
    (out : list sse_event) : Prop :=
  if flag then
    exists pre post evs,
      cs = pre ++ post /\ post <> [] /\ evs <> [] /\
      (early = true -> pre = []) /\
      out = map data_event pre ++ metadata_event evs :: map data_event post
  else
    out = map data_event cs /\ (early = true -> cs = []).

(** The generator met an exception [e] on the stream, after the chunks
    [cs]. *)
Definition failed (r : agent_run) (e : py_exception) (g : generator)
    (got : list item) : Prop :=
  exists cs it b,
    got = map Chunk cs ++ [it] /\
    exception_of it = inl e /\
    forallb plain cs = true /\
    body (callback_first (actions r)) (has_sent_metadata g) cs b /\
    yielded g = b ++ [error_event] /\
    awaits g = 0.

(** The generator saw the end of the stream. *)
Definition ended (r : agent_run) (n : nat) (g : generator)
    (got : list item) : Prop :=
  exists b,
    got = map Chunk (chunks_of (actions r)) /\
    marker (ending r) = [] /\
    forallb plain (chunks_of (actions r)) = true /\
    body (callback_first (actions r)) (has_sent_metadata g)
      (chunks_of (actions r)) b /\
    yielded g = b ++ [end_event] /\
    awaits g = n.

(** The serializer raised [e] on the chunk [c], after the chunks [cs]:
    at the head of the loop, or right after the metadata event. *)
Definition crashed (r : agent_run) (e : py_exception) (g : generator)
    (got : list item) : Prop :=
  exists cs c,
    got = map Chunk (cs ++ [c]) /\
    forallb plain cs = true /\
    chunk_exception c = None /\
    serializer_error c = Some e /\
    awaits g = 0 /\
    (body (callback_first (actions r)) (has_sent_metadata g) cs (yielded g) \/
     exists evs,
       evs <> [] /\
       (callback_first (actions r) = true -> cs = []) /\
       yielded g = map data_event cs ++ [metadata_event evs]).

(** What holds of the generator at [p], having received [got]. *)
Definition gen_shape (r : agent_run) (p : gen_pc) (g : generator)
    (got : list item) : Prop :=
  match p with
  | GenLoop =>
      exists cs,
        got = map Chunk cs /\
        forallb plain cs = true /\
        body (callback_first (actions r)) (has_sent_metadata g) cs (yielded g) /\
        awaits g = 0
  | GenAtMetadata c =>
      exists cs evs,
        got = map Chunk (cs ++ [c]) /\
        forallb plain cs = true /\
        chunk_exception c = None /\
        has_sent_metadata g = false /\
        evs <> [] /\
        (callback_first (actions r) = true -> cs = []) /\
        yielded g = map data_event cs ++ [metadata_event evs] /\
        awaits g = 0
  | GenAtError e => failed r e g got
  | GenAtEnd => ended r 0 g got
  | GenAwaitTask => ended r 1 g got
  | GenReturned => ended r 1 g got /\ uncaught (ending r) = None
  | GenRaised e =>
      failed r e g got \/
      (ended r 1 g got /\ uncaught (ending r) = Some e) \/
      crashed r e g got
  | GenClosed => False
  end.

(** [p] is where the generator is, or was when it was closed. *)
Definition gen_inv (r : agent_run) (s : run_state) : Prop :=
  exists got p,
    got ++ buffer (chan s) = sent_items (sent (chan s)) /\
    (pc (gen s) = p \/ pc (gen s) = GenClosed) /\
    gen_shape r p (gen s) got.

Definition run_inv (r : agent_run) (s : run_state) : Prop :=
  task_inv r s /\ gen_inv r s.

(** The events of any moment of any run, flattened: data events, at most
    one metadata event among them, and at most one closing event. *)
Definition well_sequenced (early : bool) (out : list sse_event) : Prop :=
  exists pre md post tail,
    out = map data_event pre ++ md ++ map data_event post ++ tail /\
    (md = [] \/ exists evs, evs <> [] /\ md = [metadata_event evs]) /\
    (tail = [] \/ tail = [error_event] \/ tail = [end_event]) /\
    (early = true -> pre = []).

(** *** The place of the metadata event *)

(** What the generator takes in one turn into the chunk branch of its
    loop: the chunk, with what the aggregator holds at that moment,
    when the guard [not has_sent_metadata and
    event_aggregator.callback_events] is evaluated. *)
Definition taken (t : turn) (s : run_state) : list (chunk * list callback_event) :=
  match t, pc (gen s), buffer (chan s) with
  | PullEvent, GenLoop, it :: _ =>
      match exception_of it with
      | inr c => [(c, callback_events s)]
      | inl _ => []
      end
  | _, _, _ => []
  end.

Fixpoint observed_from (r : agent_run) (sched : list turn) (s : run_state)
    : list (chunk * list callback_event) :=
  match sched with
  | [] => []
  | t :: k => taken t s ++ observed_from r k (step r t s)
  end.

(** The chunks taken in the run so far, each with what the aggregator
    held when it was taken. *)
Definition observed (msgs : pyval) (r : agent_run) (sched : list turn)
    : list (chunk * list callback_event) :=
  observed_from r sched (start (new_handler msgs) r).

(** The chunk was taken with an empty aggregator. *)
Definition quiet (o : chunk * list callback_event) : bool :=
  match snd o with
  | [] => true
  | _ :: _ => false
  end.

(** The placement rule: a data event for every chunk taken, and one
    metadata event right before the data event of the first chunk taken
    while the aggregator held something. [sent] says that the metadata
    event went out already. *)
Fixpoint sequenced (sent : bool) (obs : list (chunk * list callback_event))
    : list sse_event :=
  match obs with
  | [] => []
  | (c, evs) :: k =>
      match sent, evs with
      | false, _ :: _ => metadata_event evs :: data_event c :: sequenced true k
      | _, _ => data_event c :: sequenced sent k
      end
  end.

Definition flag_after (sent : bool) (obs : list (chunk * list callback_event))
    : bool :=
  sent || negb (forallb quiet obs).

(** How the events yielded stand to the chunks taken [h], with the
    generator at [p]; [fl] is the exception taken from the stream, if
    one was. *)
Definition observed_shape (p : gen_pc) (g : generator)
    (h : list (chunk * list callback_event)) (fl : list item) : Prop :=
  match p with
  | GenLoop =>
      fl = [] /\ yielded g = sequenced false h /\
      has_sent_metadata g = flag_after false h
  | GenAtMetadata c =>
      fl = [] /\
      exists h' evs,
        h = h' ++ [(c, evs)] /\ evs <> [] /\ forallb quiet h' = true /\
        has_sent_metadata g = false /\
        yielded g = sequenced false h' ++ [metadata_event evs]
  | GenAtError _ =>
      yielded g = sequenced false h ++ [error_event]
  | GenAtEnd | GenAwaitTask | GenReturned =>
      fl = [] /\ yielded g = sequenced false h ++ [end_event]
  | GenRaised _ =>
      yielded g = sequenced false h ++ [error_event] \/
      (fl = [] /\ yielded g = sequenced false h ++ [end_event]) \/
      (exists c, yielded g ++ [data_event c] = sequenced false h)
  | GenClosed => False
  end.

Definition observed_inv (r : agent_run)
    (h : list (chunk * list callback_event)) (s : run_state) : Prop :=
  exists p fl,
    (pc (gen s) = p \/ pc (gen s) = GenClosed) /\
    (map Chunk (map fst h) ++ fl) ++ buffer (chan s) =
      sent_items (sent (chan s)) /\
    Forall (fun o =>
              (exists rest, callbacks_of (actions r) = snd o ++ rest) /\
              (callback_first (actions r) = true -> quiet o = false)) h /\
    observed_shape p (gen s) h fl.

(** *** The events of a run that is over, the metadata event aside *)

(** The data events of the chunks up to the first that is an exception,
    which gives the error event, or that the serializer refuses, which
    gives nothing more; after all the chunks, [closing]. *)
Fixpoint outcome (cs : list chunk) (closing : list sse_event) : list sse_event :=
  match cs with
  | [] => closing
  | c :: k =>
      match chunk_exception c, serializer_error c with
      | Some _, _ => [error_event]
      | None, Some _ => []
      | None, None => data_event c :: outcome k closing
      end
  end.

(** *** Exceptions without their class and text *)

Definition strip (e : py_exception) : py_exception :=
  {| exc_class := ""; exc_text := ""; exc_is_Exception := exc_is_Exception e |}.

Definition strip_item (it : item) : item :=
  match it with
  | Chunk c => Chunk c
  | Failure e => Failure (strip e)
  end.

Definition strip_op (op : chan_op) : chan_op :=
  match op with
  | Send it => Send (strip_item it)
  | Close => Close
  end.

Definition strip_run (r : agent_run) : agent_run :=
  {| actions := actions r;
     ending := match ending r with
               | Completes => Completes
               | Raises e => Raises (strip e)
               end |}.

Definition strip_task (t : task_pc) : task_pc :=
  match t with
  | TaskTry todo => TaskTry todo
  | TaskFinally p => TaskFinally (option_map strip p)
  | TaskDone p => TaskDone (option_map strip p)
  end.

Definition strip_pc (p : gen_pc) : gen_pc :=
  match p with
  | GenAtError e => GenAtError (strip e)
  | GenRaised e => GenRaised (strip e)
  | _ => p
  end.

Definition strip_state (s : run_state) : run_state :=
  {| task := strip_task (task s);
     streamer :=
       {| messages := messages (streamer s);
          stream := {| sent := map strip_op (sent (chan s));
                       buffer := map strip_item (buffer (chan s));
                       closed := closed (chan s) |} |};
     callback_events := callback_events s;
     gen := {| pc := strip_pc (pc (gen s));
               has_sent_metadata := has_sent_metadata (gen s);
               yielded := yielded (gen s);
               awaits := awaits (gen s) |} |}.

(** *** The sequences the specification announces *)

(** An optional single metadata event first, then the data events of
    [cs] in order, then one end event. *)
Definition metadata_then_data_then_end (cs : list chunk)
    (out : list sse_event) : Prop :=
  exists md,
    (md = [] \/ exists evs, md = [metadata_event evs]) /\
    out = md ++ map data_event cs ++ [end_event].

(** No data event comes before a metadata event. *)
Definition metadata_precedes_data (out : list sse_event) : Prop :=
  forall before e after,
    out = before ++ e :: after ->
    named "metadata" e = true ->
    Forall (fun x => named "data" x = false) before.

(** How many turns the task still needs, and a bound on how many pulls
    the generator needs once the task is over. *)
Definition task_measure (t : task_pc) : nat :=
  match t with
  | TaskTry todo => length todo + 2
  | TaskFinally _ => 1
  | TaskDone _ => 0
  end.

Definition gen_measure (s : run_state) : nat :=
  2 * length (buffer (chan s)) +
  match pc (gen s) with
  | GenLoop => 2
  | GenAtMetadata _ => 3
  | GenAtError _ | GenAtEnd | GenAwaitTask => 1
  | GenReturned | GenRaised _ | GenClosed => 0
  end.

End Streaming.

Arguments agent_run : clear implicits.
Arguments StreamMessagesHandler : clear implicits.
Arguments run_state : clear implicits.

(** ** [create_run_endpoint] *)

(** The exceptions the endpoint can meet. *)
Inductive py_error : Type :=
| JSONDecodeError
| KeyError (key : string)
| TypeError
| ValidationError (errors : list pyval)
| RequestValidationError (errors : list pyval) (body : option pyval)
| OtherError (name : string).

(** What the endpoint sets going before it returns or raises. *)
Inductive effect : Type :=
| RunInExecutor (fn : string) (args : list pyval)
| CreateTask (input_ config : pyval)
| AddTask (input_ config : pyval).

Definition starts_task (e : effect) : bool :=
  match e with
  | RunInExecutor _ _ => false
  | CreateTask _ _ | AddTask _ _ => true
  end.

(** A computation that raises or returns, and logs its effects. *)
Definition io (A : Type) : Type := list effect -> (py_error + A) * list effect.

Definition ret {A : Type} (a : A) : io A := fun log => (inr a, log).

Definition raise {A : Type} (e : py_error) : io A := fun log => (inl e, log).

Definition bind {A B : Type} (m : io A) (k : A -> io B) : io B :=
  fun log =>
    match m log with
    | (inl e, log') => (inl e, log')
    | (inr a, log') => k a log'
    end.

Definition lift {A : Type} (r : py_error + A) : io A := fun log => (r, log).

Definition perform (e : effect) : io unit := fun log => (inr tt, log ++ [e]).

(** [try: m except ...: h]: the handler [h] says which exceptions it
    takes. *)
Definition try_except {A : Type} (m : io A) (h : py_error -> option (io A)) : io A :=
  fun log =>
    match m log with
    | (inl e, log') =>
        match h e with
        | Some k => k log'
        | None => (inl e, log')
        end
    | ok => ok
    end.

Notation "'let!' x ':=' m 'in' k" := (bind m (fun x => k))
  (at level 10, x name, m at level 100, k at level 200).

(** [v[k]] for a string key. *)
Definition subscript (v : pyval) (k : string) : py_error + pyval :=
  match v with
  | PDict d =>
      match d !! k with
      | Some x => inr x
      | None => inl (KeyError k)
      end
  | _ => inl TypeError
  end.

(** [**v] in a dictionary display. *)
Definition unpack (v : pyval) : py_error + gmap string pyval :=
  match v with
  | PDict d => inr d
  | _ => inl TypeError
  end.

(** [v[k] = x] *)
Definition setitem (v : pyval) (k : string) (x : pyval) : py_error + pyval :=
  match v with
  | PDict d => inr (PDict (<[ k := x ]> d))
  | _ => inl TypeError
  end.

(** The truth value tested by [if]. *)
Definition truthy (v : pyval) : bool :=
  match v with
  | PNone => false
  | PBool b => b
  | PInt z => negb (z =? 0)%Z
  | PStr s => negb (String.eqb s "")
  | PList l => match l with [] => false | _ => true end
  | PDict d => negb (bool_decide (d = ∅))
  | PObject _ => true
  end.

Definition as_int (v : pyval) : option Z :=
  match v with
  | PBool b => Some (if b then 1 else 0)%Z
  | PInt z => Some z
  | _ => None
  end.

(** [a + b] *)
Definition py_add (a b : pyval) : py_error + pyval :=
  match a, b with
  | PList x, PList y => inr (PList (x ++ y))
  | PStr x, PStr y => inr (PStr (x +:+ y))
  | _, _ =>
      match as_int a, as_int b with
      | Some x, Some y => inr (PInt (x + y))
      | _, _ => inl TypeError
      end
  end.

Record Request : Type := {
  raw_body : string;
  cookies : gmap string string
}.

(** The value returned by the endpoint: the event stream of the generator
    [_stream()], which holds the handler and the task around the agent's
    [astream], or a JSON body. *)
Inductive response {chunk callback_event : Type} : Type :=
| EventSourceResponse (streamer : StreamMessagesHandler chunk)
    (astream : agent_run chunk callback_event)
| JsonResponse (v : pyval).

Arguments response : clear implicits.

(** What a client of a non-streaming run gets to see, and what happens
    next. *)
Inductive served {chunk callback_event : Type} : Type :=
| Responded (r : response chunk callback_event)
| Rejected (e : py_error)
| Invoked (outcome : option py_exception).

Arguments served : clear implicits.

Section Endpoint.

Context {chunk callback_event schema : Type}.

(** The collaborators of the endpoint, none of them in the sources:
    [json.loads] on the request body, the two storage lookups,
    [agent.get_input_schema], the schema's [validate],
    [_unpack_input], and the agent's [astream] and [ainvoke]. *)
Variable json_loads : string -> py_error + pyval.
Variable get_assistant : string -> pyval -> py_error + pyval.
Variable get_thread_messages : string -> pyval -> py_error + pyval.
Variable get_input_schema : pyval -> py_error + schema.
Variable validate : schema -> pyval -> py_error + pyval.
Variable _unpack_input : pyval -> pyval.
Variable agent_astream : pyval -> pyval -> agent_run chunk callback_event.
Variable agent_ainvoke : pyval -> pyval -> option py_exception.
(** When both lookups raise, [asyncio.gather] raises what was raised
    first. *)
Variable assistant_fails_first : bool.

Definition attach_user_id_to_config (config : pyval) (request : Request)
    : py_error + pyval :=
  match cookies request !! "opengpts_user_id" with
  | None => inl (KeyError "opengpts_user_id")
  | Some user_id =>
      match subscript config "configurable" with
      | inl e => inl e
      | inr configurable =>
          match setitem configurable "user_id" (PStr user_id) with
          | inl e => inl e
          | inr configurable' => setitem config "configurable" configurable'
          end
      end
  end.

Definition gather (a b : py_error + pyval) : py_error + (pyval * pyval) :=
  match a, b with
  | inr x, inr y => inr (x, y)
  | inl e, inr _ => inl e
  | inr _, inl e => inl e
  | inl e1, inl e2 => inl (if assistant_fails_first then e1 else e2)
  end.

(** The dictionary display handed to [attach_user_id_to_config]. *)
Definition config_display (assistant body : pyval) : py_error + pyval :=
  match subscript assistant "config" with
  | inl e => inl e
  | inr c1 =>
  match unpack c1 with
  | inl e => inl e
  | inr d =>
  match subscript assistant "config" with
  | inl e => inl e
  | inr c2 =>
  match subscript c2 "configurable" with
  | inl e => inl e
  | inr cc =>
  match unpack cc with
  | inl e => inl e
  | inr c =>
  match subscript body "thread_id" with
  | inl e => inl e
  | inr thread_id =>
  match subscript body "assistant_id" with
  | inl e => inl e
  | inr assistant_id =>
      inr (PDict (<[ "configurable" :=
                     PDict (<[ "assistant_id" := assistant_id ]>
                             (<[ "thread_id" := thread_id ]> c)) ]> d))
  end end end end end end end.

Definition create_run_endpoint (request : Request) (opengpts_user_id : string)
    : io (response chunk callback_event) :=
  let! body :=
    try_except (lift (json_loads (raw_body request)))
      (fun e => match e with
                | JSONDecodeError =>
                    Some (raise (RequestValidationError
                                   [PStr "Invalid JSON body"] None))
                | _ => None
                end) in
  let! assistant_id := lift (subscript body "assistant_id") in
  let! _ := perform (RunInExecutor "get_assistant"
                       [PStr opengpts_user_id; assistant_id]) in
  let! thread_id := lift (subscript body "thread_id") in
  let! _ := perform (RunInExecutor "get_thread_messages"
                       [PStr opengpts_user_id; thread_id]) in
  let! both := lift (gather (get_assistant opengpts_user_id assistant_id)
                            (get_thread_messages opengpts_user_id thread_id)) in
  let assistant := fst both in
  let state := snd both in
  let! display := lift (config_display assistant body) in
  let! config := lift (attach_user_id_to_config display request) in
  let! input_ :=
    try_except
      (let! input_schema := lift (get_input_schema config) in
       let! raw_input := lift (subscript body "input") in
       let! valid := lift (validate input_schema raw_input) in
       ret (_unpack_input valid))
      (fun e => match e with
                | ValidationError errors =>
                    Some (raise (RequestValidationError errors (Some body)))
                | _ => None
                end) in
  let! stream_flag := lift (subscript body "stream") in
  if truthy stream_flag then
    let! prior := lift (subscript state "messages") in
    let! new := lift (subscript input_ "messages") in
    let! history := lift (py_add prior new) in
    let streamer := new_handler history in
    let! config' := lift (setitem config "callbacks"
                            (PList [PObject "streamer";
                                    PObject "event_aggregator"])) in
    let! _ := perform (CreateTask input_ config') in
    ret (EventSourceResponse streamer (agent_astream input_ config'))
  else
    let! _ := perform (AddTask input_ config) in
    ret (JsonResponse (PDict {[ "status" := PStr "ok" ]})).

(** The endpoint got as far as the validation of the input: the body was
    parsed to [body], both lookups were started with [assistant_id] and
    [thread_id] and returned, the thread as [state], and the
    configuration [config] was put together. *)
Definition resolved (request : Request) (opengpts_user_id : string)
    (body assistant_id thread_id state config : pyval) : Prop :=
  json_loads (raw_body request) = inr body /\
  subscript body "assistant_id" = inr assistant_id /\
  subscript body "thread_id" = inr thread_id /\
  exists assistant display,
    get_assistant opengpts_user_id assistant_id = inr assistant /\
    get_thread_messages opengpts_user_id thread_id = inr state /\
    config_display assistant body = inr display /\
    attach_user_id_to_config display request = inr config.

(** The input of [body] went through the validation and was unpacked to
    [input_]. *)
Definition validated (config body input_ : pyval) : Prop :=
  exists input_schema raw_input valid,
    get_input_schema config = inr input_schema /\
    subscript body "input" = inr raw_input /\
    validate input_schema raw_input = inr valid /\
    input_ = _unpack_input valid.

(** Modelled from the spec: what becomes of the endpoint's outcome
    (the framework is not part of the sources).  The response goes out
    first; the invocations queued with [add_task] run after it, and
    what they raise reaches no client. *)
Definition run_queued (e : effect) : list (served chunk callback_event) :=
  match e with
  | AddTask input_ config => [Invoked (agent_ainvoke input_ config)]
  | _ => []
  end.

Definition serve (request : Request) (opengpts_user_id : string)
    : list (served chunk callback_event) :=
  match create_run_endpoint request opengpts_user_id [] with
  | (inl e, _) => [Rejected e]
  | (inr r, log) => Responded r :: concat (map run_queued log)
  end.

End Endpoint.

(** ** [list_public_assistants_endpoint] *)

Definition FEATURED_PUBLIC_ASSISTANTS : list string :=
  ["ba721964-b7e4-474c-b817-fb089d94dc5f";
   "dc3ec482-aafc-4d90-8a1a-afb9b2876cde"].

(** The identifiers the endpoint asks the storage for: [shared_id] is
    [None] when the query has no such parameter, and counts only when
    it is true, that is, not the empty string. *)
Definition public_assistant_ids (shared_id : option string) : list string :=
  FEATURED_PUBLIC_ASSISTANTS ++
  match shared_id with
  | Some id => if String.eqb id "" then [] else [id]
  | None => []
  end.

Section PublicAssistants.

Context {assistants : Type}.
Variable list_public_assistants : list string -> assistants.

Definition list_public_assistants_endpoint (shared_id : option string)
    : assistants :=
  list_public_assistants (public_assistant_ids shared_id).

End PublicAssistants.

(** * Concrete runs and requests *)

Module Example.

(** Chunks and callback events are strings here; a chunk is its own
    serialization, the run identifier is the first callback event, and
    [orjson_dumps] only tells the two dictionaries of [_stream] apart. *)
Definition dumps (c : string) : string := c.

Definition run_id (evs : list string) : string :=
  match evs with
  | [] => ""
  | ev :: _ => ev
  end.

Definition orjson (v : pyval) : string :=
  match subscript v "run_id" with
  | inr (PStr id) => "run_id=" +:+ id
  | _ => "status_code=500,message=Internal Server Error"
  end.

(** The serializer takes every chunk, and no chunk is an exception. *)
Definition accepted (c : string) : option py_exception := None.

Definition no_exception (c : string) : option py_exception := None.

Definition stream_run (r : agent_run string string) (sched : list turn)
    : run_state string string :=
  run dumps run_id orjson accepted no_exception PNone r sched.

Definition observed_run (r : agent_run string string) (sched : list turn)
    : list (string * list string) :=
  observed dumps run_id orjson accepted no_exception PNone r sched.

(** Three prior messages and one new one; the agent yields A and B. *)
Definition two_chunks : agent_run string string :=
  {| actions := [Yield "A"; Yield "B"]; ending := Completes |}.

Definition callback_then_chunks : agent_run string string :=
  {| actions := [Callback "run-1"; Yield "A"; Yield "B"];
     ending := Completes |}.

(** The first callback event comes after the first chunk. *)
Definition late_callback : agent_run string string :=
  {| actions := [Yield "A"; Callback "run-1"; Yield "B"];
     ending := Completes |}.

Definition callbacks_only : agent_run string string :=
  {| actions := [Callback "run-1"; Callback "run-2"]; ending := Completes |}.

Definition timeout_error : py_exception :=
  {| exc_class := "TimeoutError"; exc_text := "x"; exc_is_Exception := true |}.

Definition timeout_after_A : agent_run string string :=
  {| actions := [Yield "A"]; ending := Raises timeout_error |}.

(** The task runs to its end, then the response is consumed. *)
Definition task_then_pulls (n m : nat) : list turn :=
  repeat RunTask n ++ repeat PullEvent m.

(** Every chunk is consumed as soon as it is sent. *)
Definition alternating (n : nat) : list turn :=
  concat (repeat [RunTask; PullEvent; PullEvent] n).

(** The requests.  The body is named by its text: [json_loads] knows
    four texts and takes anything else for malformed. *)
Definition messages_of (l : list string) : pyval :=
  PDict {[ "messages" := PList (map PStr l) ]}.

Definition full_body (stream_flag : bool) (input : pyval) : gmap string pyval :=
  {[ "assistant_id" := PStr "a1"; "thread_id" := PStr "t1";
     "stream" := PBool stream_flag; "input" := input ]}.

Definition json_loads (text : string) : py_error + pyval :=
  if String.eqb text "streaming" then
    inr (PDict (full_body true (messages_of ["new"])))
  else if String.eqb text "plain" then
    inr (PDict (full_body false (messages_of ["new"])))
  else if String.eqb text "bad input" then
    inr (PDict (full_body true (PDict ∅)))
  else if String.eqb text "bad input, no stream" then
    inr (PDict (delete "stream" (full_body true (PDict ∅))))
  else if String.eqb text "no stream" then
    inr (PDict (delete "stream" (full_body true (messages_of ["new"]))))
  else inl JSONDecodeError.

Definition get_assistant (user_id : string) (assistant_id : pyval)
    : py_error + pyval :=
  inr (PDict {[ "config" :=
                PDict {[ "configurable" := PDict {[ "model" := PStr "m" ]} ]} ]}).

Definition get_thread_messages (user_id : string) (thread_id : pyval)
    : py_error + pyval :=
  inr (messages_of ["one"; "two"; "three"]).

Definition get_input_schema (config : pyval) : py_error + unit := inr tt.

Definition validate (schema : unit) (raw_input : pyval) : py_error + pyval :=
  match subscript raw_input "messages" with
  | inr (PList _) => inr raw_input
  | _ => inl (ValidationError [PStr "messages: field required"])
  end.

Definition _unpack_input (valid : pyval) : pyval := valid.

Definition astream (input_ config : pyval) : agent_run string string :=
  callback_then_chunks.

(** The invocation queued by a non-streaming run fails. *)
Definition ainvoke (input_ config : pyval) : option py_exception :=
  Some timeout_error.

Definition request (text : string) : Request :=
  {| raw_body := text; cookies := {[ "opengpts_user_id" := "u1" ]} |}.

Definition endpoint (text : string)
    : (py_error + response string string) * list effect :=
  create_run_endpoint json_loads get_assistant get_thread_messages
    get_input_schema validate _unpack_input astream true
    (request text) "u1" [].

Definition the_config : pyval :=
  PDict {[ "configurable" :=
           PDict {[ "model" := PStr "m"; "thread_id" := PStr "t1";
                    "assistant_id" := PStr "a1"; "user_id" := PStr "u1" ]} ]}.

Definition lookups : list effect :=
  [RunInExecutor "get_assistant" [PStr "u1"; PStr "a1"];
   RunInExecutor "get_thread_messages" [PStr "u1"; PStr "t1"]].

End Example.

(** Further runs and collaborators. *)
Module Sample.

Import Example.

(** The task is cancelled while the agent runs: what is raised in it is
    no instance of [Exception]. *)
Definition cancelled : py_exception :=
  {| exc_class := "CancelledError"; exc_text := ""; exc_is_Exception := false |}.

Definition cancelled_after_A : agent_run string string :=
  {| actions := [Yield "A"]; ending := Raises cancelled |}.

(** A serializer that does not take the chunk B. *)
Definition not_serializable : py_exception :=
  {| exc_class := "TypeError"; exc_text := "Type is not JSON serializable";
     exc_is_Exception := true |}.

Definition refuses_B (c : string) : option py_exception :=
  if String.eqb c "B" then Some not_serializable else None.

Definition timeout_after_A_B : agent_run string string :=
  {| actions := [Yield "A"; Yield "B"]; ending := Raises timeout_error |}.

Definition callback_then_B : agent_run string string :=
  {| actions := [Callback "run-1"; Yield "B"]; ending := Completes |}.

(** An agent that yields an exception object between two chunks. *)
Definition boom : py_exception :=
  {| exc_class := "ValueError"; exc_text := "boom"; exc_is_Exception := true |}.

Definition is_boom (c : string) : option py_exception :=
  if String.eqb c "boom" then Some boom else None.

Definition yields_exception : agent_run string string :=
  {| actions := [Yield "A"; Yield "boom"; Yield "B"]; ending := Completes |}.

(** A body with everything but [assistant_id], and an input that the
    schema rejects. *)
Definition anonymous_body : pyval :=
  PDict (delete "assistant_id" (full_body true (PDict ∅))).

Definition loads_anonymous (text : string) : py_error + pyval :=
  inr anonymous_body.

(** A stored assistant that has, under [configurable], identifiers of
    its own. *)
Definition stored_assistant : pyval :=
  PDict {[ "config" :=
           PDict {[ "recursion_limit" := PInt 5;
                    "configurable" :=
                      PDict {[ "model" := PStr "m";
                               "user_id" := PStr "someone else";
                               "thread_id" := PStr "old" ]} ]} ]}.

Definition no_cookie : Request :=
  {| raw_body := "plain"; cookies := ∅ |}.

Definition no_assistant (user_id : string) (assistant_id : pyval)
    : py_error + pyval :=
  inl (OtherError "NotFound").

Definition undecodable (text : string) : py_error + pyval :=
  inl (OtherError "UnicodeDecodeError").

Definition empty_thread (user_id : string) (thread_id : pyval)
    : py_error + pyval :=
  inr (PDict ∅).

End Sample.

(** * Facts about the streaming run *)

Section StreamingFacts.

Context {chunk callback_event : Type}.
Variable serializer_dumps : chunk -> string.
Variable _get_base_run_id_as_str : list callback_event -> string.
Variable orjson_dumps : pyval -> string.
Variable serializer_error : chunk -> option py_exception.
Variable chunk_exception : chunk -> option py_exception.

Local Abbreviation agent_run := (agent_run chunk callback_event).
Local Abbreviation run_state := (run_state chunk callback_event).
Local Abbreviation step := (step serializer_dumps _get_base_run_id_as_str orjson_dumps serializer_error chunk_exception).
Local Abbreviation exec := (exec serializer_dumps _get_base_run_id_as_str orjson_dumps serializer_error chunk_exception).
Local Abbreviation run := (run serializer_dumps _get_base_run_id_as_str orjson_dumps serializer_error chunk_exception).
Local Abbreviation _stream := (_stream serializer_dumps _get_base_run_id_as_str orjson_dumps serializer_error chunk_exception).
Local Abbreviation stream_loop := (stream_loop serializer_dumps _get_base_run_id_as_str orjson_dumps serializer_error chunk_exception).
Local Abbreviation yield_data := (yield_data serializer_dumps serializer_error).
Local Abbreviation exception_of := (exception_of chunk_exception).
Local Abbreviation plain := (plain serializer_error chunk_exception).
Local Abbreviation data_event := (data_event serializer_dumps).
Local Abbreviation metadata_event := (metadata_event _get_base_run_id_as_str orjson_dumps).
Local Abbreviation error_event := (error_event orjson_dumps).
Local Abbreviation body := (body serializer_dumps _get_base_run_id_as_str orjson_dumps).
Local Abbreviation failed := (failed serializer_dumps _get_base_run_id_as_str orjson_dumps serializer_error chunk_exception).
Local Abbreviation ended := (ended serializer_dumps _get_base_run_id_as_str orjson_dumps serializer_error chunk_exception).
Local Abbreviation crashed := (crashed serializer_dumps _get_base_run_id_as_str orjson_dumps serializer_error chunk_exception).
Local Abbreviation gen_shape := (gen_shape serializer_dumps _get_base_run_id_as_str orjson_dumps serializer_error chunk_exception).
Local Abbreviation gen_inv := (gen_inv serializer_dumps _get_base_run_id_as_str orjson_dumps serializer_error chunk_exception).
Local Abbreviation run_inv := (run_inv serializer_dumps _get_base_run_id_as_str orjson_dumps serializer_error chunk_exception).
Local Abbreviation taken := (taken chunk_exception).
Local Abbreviation observed_from := (observed_from serializer_dumps _get_base_run_id_as_str orjson_dumps serializer_error chunk_exception).
Local Abbreviation observed := (observed serializer_dumps _get_base_run_id_as_str orjson_dumps serializer_error chunk_exception).
Local Abbreviation sequenced := (sequenced serializer_dumps _get_base_run_id_as_str orjson_dumps).
Local Abbreviation observed_shape := (observed_shape serializer_dumps _get_base_run_id_as_str orjson_dumps).
Local Abbreviation observed_inv := (observed_inv serializer_dumps _get_base_run_id_as_str orjson_dumps).
Local Abbreviation outcome := (outcome serializer_dumps orjson_dumps serializer_error chunk_exception).

Implicit Types (r : agent_run) (s : run_state) (sched : list turn).

(** ** Lists of actions and logs *)

Lemma chunks_of_app (a b : list (agent_action (chunk:=chunk) (callback_event:=callback_event))) :
  chunks_of (a ++ b) = chunks_of a ++ chunks_of b.
Proof.
  induction a as [|[ev|c] a IH]; simpl; [reflexivity|exact IH|now rewrite IH].
Qed.

Lemma callbacks_of_app (a b : list (agent_action (chunk:=chunk) (callback_event:=callback_event))) :
  callbacks_of (a ++ b) = callbacks_of a ++ callbacks_of b.
Proof.
  induction a as [|[ev|c] a IH]; simpl; [reflexivity|now rewrite IH|exact IH].
Qed.

Lemma sent_items_app (l k : list (chan_op (chunk:=chunk))) :
  sent_items (l ++ k) = sent_items l ++ sent_items k.
Proof.
  induction l as [|[it|] l IH]; simpl; [reflexivity|now rewrite IH|exact IH].
Qed.

Lemma sent_items_chunks (cs : list chunk) :
  sent_items (map (fun c => Send (Chunk c)) cs) = map Chunk cs.
Proof.
  induction cs as [|c cs IH]; simpl; [reflexivity|now rewrite IH].
Qed.

Lemma sent_items_send (l : list (item (chunk:=chunk))) :
  sent_items (map Send l) = l.
Proof.
  induction l as [|it l IH]; simpl; [reflexivity|now rewrite IH].
Qed.

Lemma sent_items_task_log r :
  sent_items (task_log r) = map Chunk (chunks_of (actions r)) ++ marker (ending r).
Proof.
  unfold task_log.
  rewrite !sent_items_app, sent_items_chunks, sent_items_send.
  simpl. now rewrite app_nil_r.
Qed.

(** ** The task performs the agent's actions in order *)

Lemma task_inv_start msgs r : task_inv r (start (new_handler msgs) r).
Proof.
  exists []. simpl. auto.
Qed.

Lemma task_inv_consume_astream r s :
  task_inv r s -> task_inv r (consume_astream r s).
Proof.
  intros [done [Hcb Ht]]. unfold consume_astream, task_inv, chan in *.
  destruct (task s) as [[|[ev|c] todo]|p|p] eqn:Etask.
  - destruct Ht as (Hacts & Hsent & Hcl). rewrite app_nil_r in Hacts.
    destruct (ending r) as [|e] eqn:Eend; [|destruct (exc_is_Exception e) eqn:Ee];
      exists done; simpl; rewrite ?Ee, Hsent; simpl; rewrite ?app_nil_r; auto.
  - destruct Ht as (Hacts & Hsent & Hcl).
    exists (done ++ [Callback ev]). simpl.
    rewrite callbacks_of_app, chunks_of_app, <- app_assoc. simpl.
    rewrite app_nil_r, Hcb. auto.
  - destruct Ht as (Hacts & Hsent & Hcl).
    exists (done ++ [Yield c]). simpl.
    rewrite callbacks_of_app, chunks_of_app, <- app_assoc, map_app. simpl.
    rewrite app_nil_r, Hsent. auto.
  - destruct Ht as (Hacts & Hp & Hsent & Hcl).
    exists done. simpl.
    unfold task_log. rewrite Hsent, Hacts, <- app_assoc. auto.
  - exists done. rewrite Etask. auto.
Qed.

(** ** The generator follows the stream *)

Lemma map_Chunk_inj (cs cs' : list chunk) :
  map (Chunk (chunk:=chunk)) cs = map Chunk cs' -> cs = cs'.
Proof.
  revert cs'. induction cs as [|c cs IH]; intros [|c' cs'] H; simpl in H;
    try discriminate; [reflexivity|].
  injection H as -> H. f_equal. now apply IH.
Qed.

Lemma map_Chunk_no_failure (cs cs' : list chunk) e l :
  map (Chunk (chunk:=chunk)) cs <> map Chunk cs' ++ Failure e :: l.
Proof.
  revert cs'. induction cs as [|c cs IH]; intros [|c' cs'] H; simpl in H;
    try discriminate.
  injection H as _ H. now apply IH in H.
Qed.

Lemma map_Chunk_failure_inj (cs cs' : list chunk) e e' (l l' : list item) :
  map (Chunk (chunk:=chunk)) cs ++ Failure e :: l = map Chunk cs' ++ Failure e' :: l' ->
  cs = cs' /\ e = e' /\ l = l'.
Proof.
  revert cs'. induction cs as [|c cs IH]; intros [|c' cs'] H; simpl in H;
    try discriminate.
  - injection H as -> ->. auto.
  - injection H as -> H. apply IH in H as (-> & -> & ->). auto.
Qed.

Lemma all_received (cs cs' : list chunk) e :
  map (Chunk (chunk:=chunk)) cs = map Chunk cs' ++ marker e ->
  cs = cs' /\ marker (chunk:=chunk) e = [].
Proof.
  unfold marker. destruct e as [|x]; [|destruct (exc_is_Exception x)];
    intros H; try (rewrite app_nil_r in H; apply map_Chunk_inj in H; auto).
  now apply map_Chunk_no_failure in H.
Qed.

(** In a run whose agent starts with a callback, the aggregator is not
    empty once anything went on the stream. *)
Lemma early_seen r s :
  task_inv r s ->
  callback_first (actions r) = true ->
  sent_items (sent (chan s)) <> [] ->
  callback_events s <> [].
Proof.
  intros [done [Hcb Ht]] Hearly Hsent. rewrite Hcb.
  assert (Hdone : done <> [] -> callbacks_of done <> []).
  { intros Hne. destruct (task s); destruct done as [|a done']; try congruence;
      [destruct Ht as (Hacts & _)|destruct Ht as (Hacts & _)|destruct Ht as (Hacts & _)];
      rewrite Hacts in Hearly; destruct a; simpl in *; congruence. }
  apply Hdone. intros ->.
  destruct (task s).
  - destruct Ht as (_ & Hs & _). rewrite Hs in Hsent. now apply Hsent.
  - destruct Ht as (Hacts & _). rewrite Hacts in Hearly. discriminate.
  - destruct Ht as (Hacts & _). rewrite Hacts in Hearly. discriminate.
Qed.

Lemma closed_task_log r s :
  task_inv r s -> closed (chan s) = true -> sent (chan s) = task_log r.
Proof.
  intros [done [_ Ht]] Hcl.
  destruct (task s); [destruct Ht as (_ & _ & Ho)|destruct Ht as (_ & _ & _ & Ho)|];
    try congruence.
  now destruct Ht as (_ & _ & Hs & _).
Qed.

Lemma done_result r s res :
  task_inv r s -> task s = TaskDone res -> res = uncaught (ending r).
Proof.
  intros [done [_ Ht]] E. rewrite E in Ht. now destruct Ht as (_ & H & _).
Qed.

Lemma gen_inv_start msgs r : gen_inv r (start (new_handler msgs) r).
Proof.
  exists [], GenLoop. simpl. repeat split; auto.
  exists []. simpl. repeat split; auto.
Qed.

Lemma gen_inv_consume_astream r s :
  gen_inv r s -> gen_inv r (consume_astream r s).
Proof.
  intros (got & p & Hbuf & Hpc & Hshape).
  assert (Hg : gen (consume_astream r s) = gen s).
  { unfold consume_astream.
    destruct (task s) as [[|[ev|c] todo]|q|q]; try reflexivity.
    destruct (ending r) as [|e]; [|destruct (exc_is_Exception e)]; reflexivity. }
  exists got, p. rewrite Hg. repeat split; auto.
  unfold consume_astream, chan in *.
  destruct (task s) as [[|[ev|c] todo]|q|q]; simpl; auto.
  - destruct (ending r) as [|e]; [|destruct (exc_is_Exception e)]; simpl; auto.
    rewrite sent_items_app, <- Hbuf, app_assoc. reflexivity.
  - rewrite sent_items_app, <- Hbuf, app_assoc. reflexivity.
  - rewrite sent_items_app, <- Hbuf. simpl. now rewrite app_nil_r.
Qed.

Lemma gen_shape_goto r p q g got :
  gen_shape r p g got -> gen_shape r p (goto q g) got.
Proof. destruct p; exact (fun H => H). Qed.

Lemma gen_inv_aclose r s :
  gen_inv r s -> gen_inv r (aclose s).
Proof.
  intros (got & p & Hbuf & Hpc & Hshape). unfold aclose.
  destruct (pc (gen s)) eqn:E;
    try (exists got, p; rewrite E; now auto);
    exists got, p; (split; [exact Hbuf|]); (split; [right; reflexivity|]);
      now apply gen_shape_goto.
Qed.

Lemma body_data early flag cs out c :
  body early flag cs out ->
  (flag = false -> early = false) ->
  body early flag (cs ++ [c]) (out ++ [data_event c]).
Proof.
  unfold body. destruct flag.
  - intros (pre & post & evs & -> & Hpost & Hevs & Hpre & ->) _.
    exists pre, (post ++ [c]), evs. repeat split; auto.
    + now rewrite app_assoc.
    + now destruct post.
    + rewrite <- app_assoc. simpl. now rewrite map_app.
  - intros [-> Hcs] Hearly. split.
    + now rewrite map_app.
    + rewrite Hearly; [discriminate|reflexivity].
Qed.

Lemma body_metadata early cs c evs :
  evs <> [] ->
  (early = true -> cs = []) ->
  body early true (cs ++ [c])
    ((map data_event cs ++ [metadata_event evs]) ++ [data_event c]).
Proof.
  intros Hevs Hcs. exists cs, [c], evs. repeat split; auto.
  now rewrite <- app_assoc.
Qed.

Lemma exception_of_chunk it c :
  exception_of it = inr c -> it = Chunk c /\ chunk_exception c = None.
Proof.
  destruct it as [c'|e]; simpl; [|discriminate].
  destruct (chunk_exception c') eqn:E; [discriminate|].
  intros H. injection H as <-. auto.
Qed.

Lemma plain_snoc (cs : list chunk) c :
  forallb plain cs = true ->
  chunk_exception c = None -> serializer_error c = None ->
  forallb plain (cs ++ [c]) = true.
Proof.
  intros Hcs Hc Hs. rewrite forallb_app, Hcs. simpl.
  unfold plain. now rewrite Hc, Hs.
Qed.

Lemma gen_inv_stream_loop r s got :
  task_inv r s ->
  got ++ buffer (chan s) = sent_items (sent (chan s)) ->
  pc (gen s) = GenLoop ->
  gen_shape r GenLoop (gen s) got ->
  gen_inv r (stream_loop s).
Proof.
  intros Ht Hbuf Hpc (cs & Hgot & Hpl & Hbody & Haw).
  unfold stream_loop.
  destruct (buffer (chan s)) as [|it rest] eqn:Eb.
  - destruct (closed (chan s)) eqn:Ecl.
    + exists got, GenAtEnd. split; [|split; [left; reflexivity|]].
      * unfold chan in *. simpl. rewrite Eb. exact Hbuf.
      * pose proof (closed_task_log _ _ Ht Ecl) as Hlog.
        rewrite Hlog, sent_items_task_log, app_nil_r, Hgot in Hbuf.
        apply all_received in Hbuf as [-> Hm].
        exists (yielded (gen s)). simpl. repeat split; auto.
    + exists got, GenLoop. rewrite Eb. repeat split; auto. exists cs; auto.
  - assert (Hbuf' : (got ++ [it]) ++ rest = sent_items (sent (chan s)))
      by (rewrite <- app_assoc; exact Hbuf).
    destruct (exception_of it) as [e|c] eqn:Eex.
    { exists (got ++ [it]), (GenAtError e). split; [exact Hbuf'|].
      split; [left; reflexivity|].
      exists cs, it, (yielded (gen s)). simpl. rewrite Hgot. repeat split; auto. }
    apply exception_of_chunk in Eex as [-> Hnx].
    assert (Hgot' : got ++ [Chunk c] = map Chunk (cs ++ [c]))
      by (rewrite map_app, Hgot; reflexivity).
    assert (Hseen : callback_first (actions r) = true -> callback_events s <> []).
    { intros Hearly. apply (early_seen r); auto.
      rewrite <- Hbuf. now destruct got. }
    assert (Hdata : (has_sent_metadata (gen s) = false -> callback_events s = []) ->
      gen_inv r (receive rest (yield_data c (gen s)) s)).
    { intros Hflag. unfold yield_data.
      destruct (serializer_error c) as [e|] eqn:Ese.
      - exists (got ++ [Chunk c]), (GenRaised e). split; [exact Hbuf'|].
        split; [left; reflexivity|]. right. right.
        exists cs, c. simpl. repeat split; auto.
      - exists (got ++ [Chunk c]), GenLoop. split; [exact Hbuf'|].
        split; [left; reflexivity|].
        exists (cs ++ [c]). simpl.
        split; [exact Hgot'|]. split; [now apply plain_snoc|]. split; [|exact Haw].
        apply body_data; [exact Hbody|].
        intros Hf. destruct (callback_first (actions r)); [|reflexivity].
        destruct Hseen; auto. }
    destruct (has_sent_metadata (gen s)) eqn:Ef.
    + apply Hdata. discriminate.
    + destruct (callback_events s) as [|ev evs] eqn:Ecb.
      * apply Hdata. reflexivity.
      * exists (got ++ [Chunk c]), (GenAtMetadata c). split; [exact Hbuf'|].
        split; [left; reflexivity|].
        destruct Hbody as [Hout Hcs].
        exists cs, (ev :: evs). simpl. rewrite Hout. repeat split; auto.
Qed.

Lemma ended_join r s got g res :
  task_inv r s ->
  task s = TaskDone res ->
  ended r 1 g got ->
  gen_shape r (pc (join res g)) (join res g) got.
Proof.
  intros Ht Hdone Hend. apply (done_result r s) in Hdone; [|exact Ht].
  destruct res as [e|]; simpl; auto.
Qed.

Lemma gen_inv__stream r s :
  task_inv r s -> gen_inv r s -> gen_inv r (_stream s).
Proof.
  intros Ht (got & p & Hbuf & Hpc & Hshape). unfold _stream.
  destruct Hpc as [Hpc|Hpc]; [|rewrite Hpc; exists got, p; now auto].
  rewrite Hpc. destruct p.
  - now apply (gen_inv_stream_loop r s got).
  - destruct Hshape as (cs & evs & Hgot & Hpl & Hnx & Hf & Hevs & Hcs & Hout & Haw).
    unfold yield_data.
    destruct (serializer_error c) as [e|] eqn:Ese.
    + exists got, (GenRaised e). split; [exact Hbuf|]. split; [left; reflexivity|].
      right. right. exists cs, c. simpl. repeat split; auto. right. eauto.
    + exists got, GenLoop. split; [exact Hbuf|]. split; [left; reflexivity|].
      exists (cs ++ [c]). simpl. rewrite Hout.
      split; [exact Hgot|]. split; [now apply plain_snoc|]. split; [|exact Haw].
      now apply body_metadata.
  - exists got, (GenRaised e). split; [exact Hbuf|]. split; [left; reflexivity|].
    left. exact Hshape.
  - assert (Hend : ended r 1
        {| pc := GenAwaitTask; has_sent_metadata := has_sent_metadata (gen s);
           yielded := yielded (gen s); awaits := S (awaits (gen s)) |} got).
    { destruct Hshape as (b & ? & ? & ? & ? & ? & Haw). exists b. simpl.
      rewrite Haw. auto 7. }
    destruct (task s) as [todo|q|res] eqn:Etask;
      try (exists got, GenAwaitTask; now auto).
    eexists got, _. split; [exact Hbuf|]. split; [left; reflexivity|].
    now apply (ended_join r s).
  - destruct (task s) as [todo|q|res] eqn:Etask;
      try (exists got, GenAwaitTask; now auto).
    eexists got, _. split; [exact Hbuf|]. split; [left; reflexivity|].
    now apply (ended_join r s).
  - exists got, GenReturned. auto.
  - exists got, (GenRaised e). auto.
  - destruct Hshape.
Qed.

(** ** The invariant holds along every run *)

Lemma task_inv_ext r s s' :
  task s' = task s ->
  sent (chan s') = sent (chan s) ->
  closed (chan s') = closed (chan s) ->
  callback_events s' = callback_events s ->
  task_inv r s -> task_inv r s'.
Proof.
  intros E1 E2 E3 E4 [done H]. exists done. now rewrite E1, E2, E3, E4.
Qed.

Lemma _stream_task_side s :
  task (_stream s) = task s /\
  sent (chan (_stream s)) = sent (chan s) /\
  closed (chan (_stream s)) = closed (chan s) /\
  callback_events (_stream s) = callback_events s /\
  messages (streamer (_stream s)) = messages (streamer s).
Proof.
  unfold _stream, stream_loop, yield_data.
  destruct (pc (gen s)) as [|c0|e0| | | |e0|]; try (repeat split; reflexivity).
  - destruct (buffer (chan s)) as [|it rest].
    + destruct (closed (chan s)) eqn:E; repeat split; try reflexivity; exact E.
    + destruct (exception_of it) as [e|c]; [repeat split; reflexivity|].
      destruct (has_sent_metadata (gen s)), (callback_events s) eqn:E,
        (serializer_error c); repeat split; try reflexivity; exact E.
  - destruct (task s) as [| |[|]] eqn:E; repeat split; try reflexivity; exact E.
  - destruct (task s) as [| |[|]] eqn:E; repeat split; try reflexivity; exact E.
Qed.

Lemma aclose_task_side s :
  task (aclose s) = task s /\
  sent (chan (aclose s)) = sent (chan s) /\
  closed (chan (aclose s)) = closed (chan s) /\
  callback_events (aclose s) = callback_events s /\
  messages (streamer (aclose s)) = messages (streamer s).
Proof.
  unfold aclose. destruct (pc (gen s)); repeat split; reflexivity.
Qed.

Lemma run_inv_step r t s : run_inv r s -> run_inv r (step r t s).
Proof.
  intros [Ht Hg]. destruct t; simpl.
  - split; [now apply task_inv_consume_astream|now apply gen_inv_consume_astream].
  - split; [|now apply gen_inv__stream].
    destruct (_stream_task_side s) as (? & ? & ? & ? & _).
    now apply (task_inv_ext r s).
  - split; [|now apply gen_inv_aclose].
    destruct (aclose_task_side s) as (? & ? & ? & ? & _).
    now apply (task_inv_ext r s).
Qed.

Lemma run_inv_exec r sched s : run_inv r s -> run_inv r (exec r sched s).
Proof.
  revert s. induction sched as [|t sched IH]; intros s H; [exact H|].
  simpl. apply IH. now apply run_inv_step.
Qed.

Lemma run_inv_run msgs r sched : run_inv r (run msgs r sched).
Proof.
  apply run_inv_exec. split; [apply task_inv_start|apply gen_inv_start].
Qed.

(** ** Properties kept turn after turn *)

(** A property of the starting state that every turn keeps, where the
    invariant of the run may be used, holds all along. *)
Lemma run_invariant msgs r (P : run_state -> Prop) :
  P (start (new_handler msgs) r) ->
  (forall t s, run_inv r s -> P s -> P (step r t s)) ->
  forall sched, P (run msgs r sched).
Proof.
  intros H0 Hstep sched. unfold run.
  assert (Hinv : run_inv r (start (new_handler msgs) r))
    by (split; [apply task_inv_start|apply gen_inv_start]).
  revert H0 Hinv. generalize (start (new_handler msgs) r).
  induction sched as [|t sched IH]; intros s H Hinv; [exact H|].
  simpl. apply IH; [now apply Hstep|now apply run_inv_step].
Qed.

(** What the aggregator holds is a beginning of what the agent
    records. *)
Lemma aggregator_prefix r s :
  task_inv r s ->
  exists rest, callbacks_of (actions r) = callback_events s ++ rest.
Proof.
  intros [done [Hcb Ht]]. rewrite Hcb.
  destruct (task s) as [todo|q|q].
  - destruct Ht as (-> & _). rewrite callbacks_of_app. eauto.
  - destruct Ht as (-> & _). exists []. now rewrite app_nil_r.
  - destruct Ht as (-> & _). exists []. now rewrite app_nil_r.
Qed.

(** ** The background task *)

Lemma count_app {A : Type} (f : A -> bool) (l k : list A) :
  count f (l ++ k) = count f l + count f k.
Proof.
  unfold count. now rewrite List.filter_app, List.length_app.
Qed.

Lemma count_cons {A : Type} (f : A -> bool) (x : A) (l : list A) :
  count f (x :: l) = (if f x then 1 else 0) + count f l.
Proof.
  unfold count. simpl. now destruct (f x).
Qed.

Lemma task_measure_step r t s :
  task_measure (task (step r t s)) =
  task_measure (task s) - (if is_turn RunTask t then 1 else 0).
Proof.
  destruct t; simpl.
  - unfold consume_astream.
    destruct (task s) as [[|[ev|c] todo]|q|q] eqn:E; simpl; rewrite ?E; simpl;
      try lia.
    destruct (ending r) as [|e]; [|destruct (exc_is_Exception e)]; simpl; lia.
  - destruct (_stream_task_side s) as (-> & _). lia.
  - destruct (aclose_task_side s) as (-> & _). lia.
Qed.

Lemma task_measure_exec r sched s :
  task_measure (task (exec r sched s)) =
  task_measure (task s) - count (is_turn RunTask) sched.
Proof.
  revert s. induction sched as [|t sched IH]; intros s; simpl.
  - unfold count. simpl. lia.
  - rewrite IH, task_measure_step, count_cons.
    destruct (is_turn RunTask t); simpl; lia.
Qed.

Lemma task_measure_done (t : task_pc (chunk:=chunk) (callback_event:=callback_event)) :
  task_measure t = 0 -> is_done t = true.
Proof.
  destruct t; simpl; [lia|lia|reflexivity].
Qed.

(** With enough turns, whatever else happens in between, the task is
    over. *)
Lemma task_completes msgs r sched :
  length (actions r) + 2 <= count (is_turn RunTask) sched ->
  is_done (task (run msgs r sched)) = true.
Proof.
  intros H. apply task_measure_done. unfold run.
  rewrite task_measure_exec. simpl. lia.
Qed.

(** What is on the log is always a beginning of [task_log]. *)
Lemma sent_prefix r s :
  task_inv r s -> exists rest, task_log r = sent (chan s) ++ rest.
Proof.
  intros [done [_ Ht]]. unfold task_log.
  destruct (task s) as [todo|q|q].
  - destruct Ht as (-> & -> & _). rewrite chunks_of_app, map_app, <- app_assoc.
    eauto.
  - destruct Ht as (-> & _ & -> & _). exists [Close]. now rewrite <- app_assoc.
  - destruct Ht as (_ & _ & -> & _). exists []. now rewrite app_nil_r.
Qed.

Lemma count_failure_chunks (cs : list chunk) :
  count is_failure (map (fun c => Send (Chunk c)) cs) = 0.
Proof.
  induction cs as [|c cs IH]; [reflexivity|exact IH].
Qed.

Lemma count_close_chunks (cs : list chunk) :
  count is_close (map (fun c => Send (Chunk (chunk:=chunk) c)) cs) = 0.
Proof.
  induction cs as [|c cs IH]; [reflexivity|exact IH].
Qed.

Lemma count_task_log r :
  count is_failure (task_log r) <= 1 /\ count is_close (task_log r) = 1.
Proof.
  unfold task_log. rewrite !count_app, count_failure_chunks, count_close_chunks.
  unfold marker. destruct (ending r) as [|e]; [|destruct (exc_is_Exception e)];
    split; reflexivity || (unfold count; simpl; lia).
Qed.

Lemma failure_in_task_log r e :
  In (Send (Failure e)) (task_log r) ->
  ending r = Raises e /\ exc_is_Exception e = true.
Proof.
  unfold task_log. rewrite !in_app_iff. intros [H|[H|[H|[]]]].
  - apply in_map_iff in H as (c & Hc & _). discriminate.
  - unfold marker in H. destruct (ending r) as [|x]; [destruct H|].
    destruct (exc_is_Exception x) eqn:Ex; [|destruct H].
    destruct H as [H|[]]. injection H as ->. auto.
  - discriminate.
Qed.

Lemma failure_then_close (cs : list chunk) (m : list item) before e after :
  length m <= 1 ->
  map (fun c => Send (Chunk c)) cs ++ map Send m ++ [Close] =
    before ++ Send (Failure e) :: after ->
  after = [Close].
Proof.
  intros Hm. revert before.
  induction cs as [|c cs IH]; intros [|x before] H; simpl in H.
  - destruct m as [|it [|? ?]]; simpl in *; try lia; try discriminate.
    now injection H.
  - destruct m as [|it [|? ?]]; simpl in *; try lia.
    + injection H as _ H. now destruct before.
    + injection H as _ H. destruct before as [|y before]; [discriminate|].
      injection H as _ H. now destruct before.
  - discriminate.
  - injection H as _ H. now apply IH in H.
Qed.

Lemma marker_length e : length (marker (chunk:=chunk) e) <= 1.
Proof.
  destruct e as [|x]; simpl; [lia|]. destruct (exc_is_Exception x); simpl; lia.
Qed.

(** C5. In every streaming run and at every moment of it, the log of what
    [consume_astream] did on the stream is a beginning of: the chunks in
    order, then the exception if the agent raised one that [except
    Exception] catches, then one close.  So at most one failure marker is
    written, only for the exception the agent raised, with nothing after
    it but the close; the stream is closed at most once; and once the
    task had its turns, as many as the agent has actions plus two, it is
    over and has closed the stream exactly once, however the agent
    ended. *)
Theorem consume_astream_marker_and_close msgs r sched :
  let s := run msgs r sched in
  let log := sent (chan s) in
  (exists rest, task_log r = log ++ rest) /\
  count is_failure log <= 1 /\
  (forall e, In (Send (Failure e)) log ->
     ending r = Raises e /\ exc_is_Exception e = true) /\
  (forall before e after, log = before ++ Send (Failure e) :: after ->
     after = [] \/ after = [Close]) /\
  count is_close log <= 1 /\
  (length (actions r) + 2 <= count (is_turn RunTask) sched ->
     is_done (task s) = true /\ closed (chan s) = true /\
     log = task_log r /\ count is_close log = 1 /\
     last log = Some Close).
Proof.
  intros s log. destruct (run_inv_run msgs r sched) as [Ht _].
  fold s in Ht. destruct (sent_prefix r s Ht) as [rest Hrest]. fold log in Hrest.
  destruct (count_task_log r) as [Hf Hc].
  rewrite Hrest, count_app in Hf, Hc.
  split; [eauto|]. split; [lia|]. split; [|split; [|split; [lia|]]].
  - intros e He. apply failure_in_task_log. rewrite Hrest.
    apply in_app_iff. now left.
  - intros before e after Hlog. unfold task_log in Hrest.
    rewrite Hlog, <- app_assoc in Hrest. simpl in Hrest.
    apply failure_then_close in Hrest; [|apply marker_length].
    destruct after as [|x [|? ?]]; auto; destruct rest; try discriminate.
    injection Hrest as ->. auto.
  - intros Hturns. pose proof (task_completes msgs r sched Hturns) as Hdone.
    fold s in Hdone. destruct Ht as [done [_ Ht]].
    destruct (task s); try discriminate.
    destruct Ht as (_ & _ & Hlog & Hcl). fold log in Hlog.
    rewrite Hlog. repeat split; auto.
    + apply count_task_log.
    + unfold task_log. rewrite !app_assoc. apply last_snoc.
Qed.

(** ** The events *)

Lemma body_flat early flag cs out :
  body early flag cs out ->
  exists pre md post,
    cs = pre ++ post /\
    out = map data_event pre ++ md ++ map data_event post /\
    (md = [] \/ exists evs, evs <> [] /\ md = [metadata_event evs] /\ post <> []) /\
    (early = true -> pre = [] /\ (post <> [] -> md <> [])).
Proof.
  unfold body. destruct flag.
  - intros (pre & post & evs & Hcs & Hpost & Hevs & Hpre & Hout).
    exists pre, [metadata_event evs], post. split; [exact Hcs|].
    split; [exact Hout|]. split; [right; eauto|].
    intros Hearly. split; [auto|discriminate].
  - intros [Hout Hcs]. exists cs, [], []. rewrite !app_nil_r.
    split; [reflexivity|]. split; [exact Hout|]. split; [now left|].
    intros Hearly. split; [auto|congruence].
Qed.

Lemma body_nil early flag out : body early flag [] out -> out = [].
Proof.
  intros H. apply body_flat in H as (pre & md & post & Hcs & -> & Hmd & _).
  symmetry in Hcs. apply app_eq_nil in Hcs as [-> ->].
  destruct Hmd as [->|(evs & _ & _ & Hpost)]; [reflexivity|congruence].
Qed.

Lemma named_data_events name (cs : list chunk) :
  String.eqb "data" name = false ->
  count (named name) (map data_event cs) = 0.
Proof.
  intros Hname. induction cs as [|c cs IH]; [reflexivity|].
  simpl. rewrite count_cons, IH.
  change (named name (data_event c)) with (String.eqb "data" name).
  now rewrite Hname.
Qed.

Lemma count_data_events (cs : list chunk) :
  count (named "data") (map data_event cs) = length cs.
Proof.
  induction cs as [|c cs IH]; [reflexivity|].
  simpl. rewrite count_cons, IH. reflexivity.
Qed.

Lemma filter_data_events (cs : list chunk) :
  List.filter (fun ev => negb (named "metadata" ev)) (map data_event cs) =
  map data_event cs.
Proof.
  induction cs as [|c cs IH]; [reflexivity|]. simpl. now rewrite IH.
Qed.

Lemma count_zero_not_in {A : Type} (f : A -> bool) (l : list A) x :
  count f l = 0 -> In x l -> f x = false.
Proof.
  induction l as [|y l IH]; [intros _ []|].
  rewrite count_cons. intros H [->|Hin].
  - destruct (f x); [discriminate|reflexivity].
  - apply IH; [|exact Hin]. destruct (f y); [discriminate|exact H].
Qed.

(** Whatever the moment, the events yielded so far are data events with
    at most one metadata event among them and at most one closing
    event. *)
Lemma gen_inv_well_sequenced r s :
  gen_inv r s -> well_sequenced serializer_dumps _get_base_run_id_as_str
                   orjson_dumps (callback_first (actions r)) (yielded (gen s)).
Proof.
  intros (got & p & _ & _ & Hshape).
  assert (Hbody : forall flag cs b tail,
    body (callback_first (actions r)) flag cs b ->
    tail = [] \/ tail = [error_event] \/ tail = [end_event] ->
    well_sequenced serializer_dumps _get_base_run_id_as_str orjson_dumps
      (callback_first (actions r)) (b ++ tail)).
  { intros flag cs b tail Hb Htail.
    apply body_flat in Hb as (pre & md & post & _ & -> & Hmd & Hearly).
    exists pre, md, post, tail. rewrite <- !app_assoc.
    split; [reflexivity|]. split; [|split; [exact Htail|apply Hearly]].
    destruct Hmd as [->|(evs & ? & ? & _)]; eauto. }
  destruct p; simpl in Hshape.
  - destruct Hshape as (cs & _ & _ & Hb & _).
    rewrite <- (app_nil_r (yielded (gen s))). eapply Hbody; eauto.
  - destruct Hshape as (cs & evs & _ & _ & _ & _ & Hevs & Hcs & -> & _).
    exists cs, [metadata_event evs], [], []. simpl.
    split; [reflexivity|]. split; [right; eauto|]. split; auto.
  - destruct Hshape as (cs & it & b & _ & _ & _ & Hb & -> & _). eapply Hbody; eauto.
  - destruct Hshape as (b & _ & _ & _ & Hb & -> & _). eapply Hbody; eauto.
  - destruct Hshape as (b & _ & _ & _ & Hb & -> & _). eapply Hbody; eauto.
  - destruct Hshape as [(b & _ & _ & _ & Hb & -> & _) _]. eapply Hbody; eauto.
  - destruct Hshape as [(cs & it & b & _ & _ & _ & Hb & -> & _)
                       |[[(b & _ & _ & _ & Hb & -> & _) _]
                        |(cs & c & _ & _ & _ & _ & _ & [Hb|(evs & Hevs & Hcs & ->)])]];
      try (eapply Hbody; now eauto).
    + rewrite <- (app_nil_r (yielded (gen s))). eapply Hbody; eauto.
    + exists cs, [metadata_event evs], [], []. simpl.
      split; [reflexivity|]. split; [right; eauto|]. split; auto.
  - destruct Hshape.
Qed.

Lemma consume_astream_gen r s : gen (consume_astream r s) = gen s.
Proof.
  unfold consume_astream.
  destruct (task s) as [[|[ev|c] todo]|q|q]; try reflexivity.
  destruct (ending r) as [|e]; [|destruct (exc_is_Exception e)]; reflexivity.
Qed.

(** The generator returns only out of [await task], with the task over
    and nothing raised in it. *)
Lemma returned_step r t s :
  (pc (gen s) = GenReturned -> task s = TaskDone None) ->
  pc (gen (step r t s)) = GenReturned -> task (step r t s) = TaskDone None.
Proof.
  intros H. destruct t; simpl.
  - rewrite consume_astream_gen. intros Hpc. specialize (H Hpc).
    unfold consume_astream. now rewrite H.
  - unfold _stream, stream_loop.
    destruct (pc (gen s)) eqn:Epc; intros Hret;
      try (simpl in Hret; congruence); auto.
    + destruct (buffer (chan s)) as [|it rest].
      * destruct (closed (chan s)); [discriminate|congruence].
      * destruct (exception_of it) as [e|c]; [discriminate|].
        unfold yield_data in Hret.
        destruct (has_sent_metadata (gen s)), (callback_events s),
          (serializer_error c); discriminate.
    + unfold yield_data in Hret. destruct (serializer_error c); discriminate.
    + destruct (task s) as [| |[e|]] eqn:Et; try discriminate. exact Et.
    + destruct (task s) as [| |[e|]] eqn:Et; try discriminate;
        try congruence. exact Et.
  - unfold aclose. destruct (pc (gen s)) eqn:Epc; intros Hret;
      try (simpl in Hret; congruence); auto.
Qed.

Lemma returned_task_done msgs r sched :
  pc (gen (run msgs r sched)) = GenReturned ->
  task (run msgs r sched) = TaskDone None.
Proof.
  unfold run.
  assert (H0 : pc (gen (start (new_handler msgs) r)) = GenReturned ->
               task (start (new_handler msgs) r) = TaskDone None)
    by discriminate.
  revert H0. generalize (start (new_handler msgs) r).
  induction sched as [|t sched IH]; intros s H; [exact H|].
  simpl. apply IH. now apply returned_step.
Qed.

(** What the invariant says where the generator is over or suspended at
    a given place. *)
Lemma shape_at msgs r sched p :
  pc (gen (run msgs r sched)) = p -> p <> GenClosed ->
  exists got,
    got ++ buffer (chan (run msgs r sched)) =
      sent_items (sent (chan (run msgs r sched))) /\
    gen_shape r p (gen (run msgs r sched)) got.
Proof.
  intros Hp Hne. destruct (run_inv_run msgs r sched) as [_ (got & q & Hbuf & Hpc & Hs)].
  exists got. split; [exact Hbuf|].
  destruct Hpc as [Hpc|Hpc]; congruence.
Qed.

(** ** Every run that is not abandoned can be driven to its end *)

Lemma exec_app r a b s : exec r (a ++ b) s = exec r b (exec r a s).
Proof. apply fold_left_app. Qed.

Lemma count_repeat_same (t : turn) n : count (is_turn t) (repeat t n) = n.
Proof.
  induction n as [|n IH]; [reflexivity|].
  simpl. rewrite count_cons, IH. now destruct t.
Qed.

Lemma count_repeat_other (t u : turn) n :
  is_turn t u = false -> count (is_turn t) (repeat u n) = 0.
Proof.
  intros H. induction n as [|n IH]; [reflexivity|].
  simpl. now rewrite count_cons, IH, H.
Qed.

Lemma _stream_not_closed s :
  pc (gen s) <> GenClosed -> pc (gen (_stream s)) <> GenClosed.
Proof.
  unfold _stream, stream_loop.
  destruct (pc (gen s)) eqn:Epc; intros H; try (simpl; congruence).
  - destruct (buffer (chan s)) as [|it rest].
    + destruct (closed (chan s)); [discriminate|congruence].
    + destruct (exception_of it) as [e|c]; [discriminate|].
      unfold yield_data.
      destruct (has_sent_metadata (gen s)), (callback_events s),
        (serializer_error c); discriminate.
  - unfold yield_data. destruct (serializer_error c); discriminate.
  - destruct (task s) as [| |[e|]]; discriminate.
  - destruct (task s) as [| |[e|]]; try discriminate; congruence.
Qed.

Lemma exec_not_closed r sched s :
  count (is_turn Disconnect) sched = 0 ->
  pc (gen s) <> GenClosed -> pc (gen (exec r sched s)) <> GenClosed.
Proof.
  revert s. induction sched as [|t sched IH]; intros s Hc H; [exact H|].
  rewrite count_cons in Hc. simpl. apply IH; [destruct (is_turn Disconnect t); lia|].
  destruct t; simpl.
  - now rewrite consume_astream_gen.
  - now apply _stream_not_closed.
  - discriminate.
Qed.

Lemma pull_progress n s :
  is_done (task s) = true ->
  closed (chan s) = true ->
  pc (gen s) <> GenClosed ->
  finished (pc (gen s)) = true \/ gen_measure s <= S n ->
  finished (pc (gen (_stream s))) = true \/ gen_measure (_stream s) <= n.
Proof.
  intros Hdone Hcl Hnc. unfold _stream, stream_loop, gen_measure.
  destruct (pc (gen s)) eqn:Epc; intros [Hfin|Hm]; try discriminate;
    try (left; rewrite Epc; reflexivity); try congruence.
  - destruct (buffer (chan s)) as [|it rest] eqn:Eb.
    + rewrite Hcl. right. unfold chan in *. simpl. rewrite Eb. simpl in *. lia.
    + destruct (exception_of it) as [e|c];
        [right; unfold chan in *; simpl in *; lia|].
      unfold yield_data.
      destruct (has_sent_metadata (gen s)), (callback_events s),
        (serializer_error c);
        (left; reflexivity) || (right; unfold chan in *; simpl in *; lia).
  - unfold yield_data. destruct (serializer_error c);
      [left; reflexivity|right; unfold chan in *; simpl in *; lia].
  - right. unfold chan in *. simpl in *. lia.
  - destruct (task s) as [| |[e|]]; try discriminate; left; reflexivity.
  - destruct (task s) as [| |[e|]]; try discriminate; left; reflexivity.
Qed.

Lemma pulls_finish r n s :
  is_done (task s) = true ->
  closed (chan s) = true ->
  pc (gen s) <> GenClosed ->
  finished (pc (gen s)) = true \/ gen_measure s <= n ->
  finished (pc (gen (exec r (repeat PullEvent n) s))) = true.
Proof.
  revert s. induction n as [|n IH]; intros s Hdone Hcl Hnc H.
  - destruct H as [H|H]; [exact H|]. simpl. unfold gen_measure in H.
    destruct (pc (gen s)); try reflexivity; try lia. congruence.
  - simpl. destruct (_stream_task_side s) as (Et & _ & Ec & _).
    apply IH.
    + now rewrite Et.
    + now rewrite Ec.
    + now apply _stream_not_closed.
    + now apply pull_progress.
Qed.

(** From wherever a run stands, if the consumer has not gone away, some
    further turns bring the generator to its end: the task never waits
    and the generator waits only for the task. *)
Theorem stream_can_finish msgs r sched :
  count (is_turn Disconnect) sched = 0 ->
  exists more, finished (pc (gen (run msgs r (sched ++ more)))) = true.
Proof.
  intros Hnd.
  set (turns := sched ++ repeat RunTask (length (actions r) + 2)).
  exists (repeat RunTask (length (actions r) + 2)
            ++ repeat PullEvent (gen_measure (run msgs r turns))).
  rewrite app_assoc. fold turns. unfold run at 1. rewrite exec_app.
  fold (run msgs r turns).
  assert (Hdone : is_done (task (run msgs r turns)) = true).
  { apply task_completes. unfold turns. rewrite count_app, count_repeat_same. lia. }
  apply pulls_finish; auto.
  - destruct (run_inv_run msgs r turns) as [[done [_ Ht]] _].
    destruct (task (run msgs r turns)); try discriminate.
    now destruct Ht as (_ & _ & _ & ?).
  - apply exec_not_closed; [|discriminate].
    unfold turns. rewrite count_app, Hnd. now apply count_repeat_other.
Qed.

(** What the generator took from the stream is a beginning of what the
    task ever sends. *)
Lemma received_prefix r s got :
  task_inv r s ->
  got ++ buffer (chan s) = sent_items (sent (chan s)) ->
  exists tail,
    got ++ tail = map Chunk (chunks_of (actions r)) ++ marker (ending r).
Proof.
  intros Ht Hbuf. destruct (sent_prefix r s Ht) as [rest Hrest].
  apply (f_equal sent_items) in Hrest.
  rewrite sent_items_task_log, sent_items_app, <- Hbuf, <- app_assoc in Hrest.
  eauto.
Qed.

Lemma handled_prefix (cs chunks : list chunk) (tail : list item) e :
  map Chunk cs ++ tail = map Chunk chunks ++ marker e ->
  exists rest, chunks = cs ++ rest.
Proof.
  revert chunks. induction cs as [|c cs IH]; intros chunks H; [eauto|].
  destruct chunks as [|c' chunks]; simpl in H.
  - unfold marker in H. destruct e as [|x]; [discriminate|].
    destruct (exc_is_Exception x); discriminate.
  - injection H as -> H. apply IH in H as [rest ->]. eauto.
Qed.

Lemma plain_at (cs : list chunk) c rest :
  forallb plain (cs ++ c :: rest) = true ->
  chunk_exception c = None /\ serializer_error c = None.
Proof.
  rewrite forallb_app. simpl. unfold plain.
  destruct (forallb _ cs); [|discriminate].
  destruct (chunk_exception c); [discriminate|].
  destruct (serializer_error c); [discriminate|]. auto.
Qed.

(** Where the exception that stopped the generator came from: a chunk
    of the agent that is an exception, or the exception the agent
    raised and the task caught. *)
Lemma failed_source r s got e :
  task_inv r s ->
  got ++ buffer (chan s) = sent_items (sent (chan s)) ->
  failed r e (gen s) got ->
  exists cs b,
    forallb plain cs = true /\
    body (callback_first (actions r)) (has_sent_metadata (gen s)) cs b /\
    yielded (gen s) = b ++ [error_event] /\
    awaits (gen s) = 0 /\
    ((exists c rest,
        chunks_of (actions r) = cs ++ c :: rest /\ chunk_exception c = Some e) \/
     (cs = chunks_of (actions r) /\ marker (chunk:=chunk) (ending r) = [Failure e])).
Proof.
  intros Ht Hbuf (cs & it & b & Hgot & Hex & Hpl & Hb & Hout & Haw).
  exists cs, b. do 4 (split; [assumption|]).
  destruct (received_prefix r s got Ht Hbuf) as [tail Hall].
  rewrite Hgot, <- app_assoc in Hall. simpl in Hall.
  destruct it as [c|x]; simpl in Hex.
  - left. destruct (chunk_exception c) as [x|] eqn:Ec; [|discriminate].
    injection Hex as ->.
    change (map Chunk cs ++ Chunk c :: tail)
      with (map Chunk cs ++ map Chunk [c] ++ tail) in Hall.
    rewrite app_assoc, <- map_app in Hall.
    apply handled_prefix in Hall as [rest Hall].
    exists c, rest. rewrite Hall, <- app_assoc. auto.
  - right. injection Hex as ->.
    assert (Hm : exists y, marker (chunk:=chunk) (ending r) = [Failure y]).
    { unfold marker in *. destruct (ending r) as [|y];
        [|destruct (exc_is_Exception y); [eauto|]];
        rewrite app_nil_r in Hall; symmetry in Hall;
        now apply map_Chunk_no_failure in Hall. }
    destruct Hm as [y Hm]. rewrite Hm in Hall |- *.
    apply map_Chunk_failure_inj in Hall as (-> & -> & _). auto.
Qed.

Lemma crashed_source r s got e :
  task_inv r s ->
  got ++ buffer (chan s) = sent_items (sent (chan s)) ->
  crashed r e (gen s) got ->
  exists cs c rest,
    chunks_of (actions r) = cs ++ c :: rest /\
    forallb plain cs = true /\
    chunk_exception c = None /\
    serializer_error c = Some e /\
    awaits (gen s) = 0 /\
    (body (callback_first (actions r)) (has_sent_metadata (gen s)) cs
       (yielded (gen s)) \/
     exists evs,
       evs <> [] /\
       (callback_first (actions r) = true -> cs = []) /\
       yielded (gen s) = map data_event cs ++ [metadata_event evs]).
Proof.
  intros Ht Hbuf (cs & c & Hgot & Hpl & Hnx & Hse & Haw & Hy).
  destruct (received_prefix r s got Ht Hbuf) as [tail Hall].
  rewrite Hgot in Hall. apply handled_prefix in Hall as [rest Hall].
  exists cs, c, rest. rewrite Hall, <- app_assoc. auto 7.
Qed.

(** A run whose agent raises nothing, and whose chunks all go out as
    data events, ends, if it ends, by returning. *)
Lemma completes_returns msgs r sched :
  ending r = Completes ->
  forallb plain (chunks_of (actions r)) = true ->
  finished (pc (gen (run msgs r sched))) = true ->
  pc (gen (run msgs r sched)) = GenReturned.
Proof.
  intros Hend Hplain Hfin.
  destruct (pc (gen (run msgs r sched))) eqn:Epc; try discriminate;
    [reflexivity|exfalso].
  destruct (run_inv_run msgs r sched) as [Ht _].
  destruct (shape_at msgs r sched _ Epc) as (got & Hbuf & Hs); [discriminate|].
  destruct Hs as [Hs|[[_ Hun]|Hs]].
  - apply (failed_source r _ got e Ht Hbuf) in Hs
      as (cs & b & _ & _ & _ & _ & [(c & rest & Hcs & Hc)|[_ Hm]]).
    + rewrite Hcs in Hplain. apply plain_at in Hplain as [Hc' _]. congruence.
    + rewrite Hend in Hm. discriminate.
  - rewrite Hend in Hun. discriminate.
  - apply (crashed_source r _ got e Ht Hbuf) in Hs
      as (cs & c & rest & Hcs & _ & _ & Hc & _).
    rewrite Hcs in Hplain. apply plain_at in Hplain as [_ Hc']. congruence.
Qed.

Lemma completes_can_return msgs r sched :
  ending r = Completes ->
  forallb plain (chunks_of (actions r)) = true ->
  count (is_turn Disconnect) sched = 0 ->
  exists more, pc (gen (run msgs r (sched ++ more))) = GenReturned.
Proof.
  intros Hend Hplain Hnd.
  destruct (stream_can_finish msgs r sched Hnd) as [more Hfin].
  exists more. now apply completes_returns.
Qed.

(** ** Where the metadata event goes *)

Lemma sequenced_sent (h : list (chunk * list callback_event)) :
  sequenced true h = map data_event (map fst h).
Proof.
  induction h as [|[c evs] h IH]; [reflexivity|]. simpl. now rewrite IH.
Qed.

Lemma sequenced_quiet (h : list (chunk * list callback_event)) :
  forallb quiet h = true ->
  sequenced false h = map data_event (map fst h).
Proof.
  induction h as [|[c [|ev evs]] h IH]; simpl; [reflexivity| |discriminate].
  intros H. now rewrite IH.
Qed.

Lemma sequenced_app b (h k : list (chunk * list callback_event)) :
  sequenced b (h ++ k) = sequenced b h ++ sequenced (flag_after b h) k.
Proof.
  revert b. induction h as [|[c evs] h IH]; intros b.
  - unfold flag_after. simpl. now rewrite orb_false_r.
  - destruct b, evs as [|ev evs]; simpl; rewrite IH; reflexivity.
Qed.

Lemma sequenced_first pre c evs (post : list (chunk * list callback_event)) :
  forallb quiet pre = true ->
  evs <> [] ->
  sequenced false (pre ++ (c, evs) :: post) =
    map data_event (map fst pre) ++
    metadata_event evs :: data_event c :: map data_event (map fst post).
Proof.
  intros Hpre Hevs. rewrite sequenced_app, (sequenced_quiet pre Hpre).
  unfold flag_after. rewrite Hpre. simpl.
  destruct evs; [congruence|]. now rewrite sequenced_sent.
Qed.

Lemma flag_after_snoc (h : list (chunk * list callback_event)) o :
  flag_after false (h ++ [o]) = flag_after false h || negb (quiet o).
Proof.
  unfold flag_after. simpl. rewrite forallb_app. simpl.
  destruct (forallb quiet h), (quiet o); reflexivity.
Qed.

Lemma observed_from_app r a b s :
  observed_from r (a ++ b) s =
  observed_from r a s ++ observed_from r b (exec r a s).
Proof.
  revert s. induction a as [|t a IH]; intros s; [reflexivity|].
  simpl. now rewrite IH, <- app_assoc.
Qed.

Lemma taken_not_loop t s :
  pc (gen s) <> GenLoop -> taken t s = [].
Proof.
  unfold taken. destruct t; try reflexivity.
  destruct (pc (gen s)); try reflexivity. congruence.
Qed.

(** One chunk more was taken: what is left of the stream, and what the
    aggregator held. *)
Lemma observed_take r s (h : list (chunk * list callback_event)) c rest got :
  task_inv r s ->
  (map Chunk (map fst h) ++ []) ++ Chunk c :: rest = sent_items (sent (chan s)) ->
  Forall (fun o =>
            (exists rest, callbacks_of (actions r) = snd o ++ rest) /\
            (callback_first (actions r) = true -> quiet o = false)) h ->
  got = h ++ [(c, callback_events s)] ->
  (map Chunk (map fst got) ++ []) ++ rest = sent_items (sent (chan s)) /\
  Forall (fun o =>
            (exists rest, callbacks_of (actions r) = snd o ++ rest) /\
            (callback_first (actions r) = true -> quiet o = false)) got.
Proof.
  intros Ht Hbuf Hall ->. split.
  - rewrite <- Hbuf, !app_nil_r, map_app, map_app, <- app_assoc. reflexivity.
  - apply Forall_app. split; [exact Hall|]. constructor; [|constructor].
    split; [apply (aggregator_prefix r s Ht)|].
    intros Hearly. unfold quiet. simpl.
    assert (Hseen : callback_events s <> []).
    { apply (early_seen r); auto. rewrite <- Hbuf.
      destruct (map Chunk (map fst h) ++ []); discriminate. }
    destruct (callback_events s); congruence.
Qed.

Lemma observed_inv_start msgs r : observed_inv r [] (start (new_handler msgs) r).
Proof.
  exists GenLoop, []. simpl. repeat split; auto.
Qed.

Lemma observed_inv_step r t s h :
  task_inv r s ->
  observed_inv r h s ->
  observed_inv r (h ++ taken t s) (step r t s).
Proof.
  intros Ht (p & fl & Hpc & Hbuf & Hall & Hshape).
  destruct t.
  - (* the task *)
    simpl. rewrite app_nil_r. exists p, fl.
    rewrite consume_astream_gen. split; [exact Hpc|].
    split; [|split; [exact Hall|exact Hshape]].
    unfold consume_astream, chan in *.
    destruct (task s) as [[|[ev|c] todo]|q|q]; simpl; auto.
    + destruct (ending r) as [|e]; [|destruct (exc_is_Exception e)]; simpl; auto.
      rewrite sent_items_app, <- Hbuf, app_assoc. reflexivity.
    + rewrite sent_items_app, <- Hbuf, app_assoc. reflexivity.
    + rewrite sent_items_app, <- Hbuf. simpl. now rewrite app_nil_r.
  - (* the generator *)
    destruct Hpc as [Hpc|Hpc];
      [|rewrite taken_not_loop, app_nil_r by congruence;
        simpl; unfold _stream; rewrite Hpc; exists p, fl; now auto].
    destruct p; unfold observed_shape in Hshape;
      try (rewrite taken_not_loop, app_nil_r by congruence).
    + (* at the head of the loop *)
      destruct Hshape as (-> & Hout & Hflag).
      simpl. unfold taken, _stream, stream_loop. rewrite Hpc.
      destruct (buffer (chan s)) as [|it rest] eqn:Eb.
      { rewrite app_nil_r. destruct (closed (chan s)).
        - exists GenAtEnd, []. simpl. unfold chan in *. simpl. rewrite Eb.
          rewrite Hout. repeat split; auto.
        - exists GenLoop, []. rewrite Hpc, Eb. simpl. repeat split; auto. }
      destruct (exception_of it) as [e|c] eqn:Eex.
      { rewrite app_nil_r. exists (GenAtError e), [it]. simpl.
        split; [now left|]. split; [|split; [exact Hall|now rewrite Hout]].
        unfold chan in *. simpl. rewrite <- Hbuf, !app_nil_r, <- app_assoc.
        reflexivity. }
      apply exception_of_chunk in Eex as [-> Hnx].
      destruct (observed_take r s h c rest _ Ht Hbuf Hall eq_refl)
        as [Hbuf' Hall'].
      assert (Hdata : (has_sent_metadata (gen s) = false -> callback_events s = []) ->
        observed_inv r (h ++ [(c, callback_events s)])
          (receive rest (yield_data c (gen s)) s)).
      { intros Hquiet.
        assert (Hseq : sequenced false (h ++ [(c, callback_events s)]) =
                       yielded (gen s) ++ [data_event c]).
        { rewrite sequenced_app, <- Hout, <- Hflag. simpl.
          destruct (has_sent_metadata (gen s)); [reflexivity|].
          now rewrite Hquiet. }
        unfold yield_data. destruct (serializer_error c) as [e|].
        - exists (GenRaised e), []. simpl. split; [now left|].
          split; [exact Hbuf'|]. split; [exact Hall'|]. right. right. eauto.
        - exists GenLoop, []. simpl. split; [now left|].
          split; [exact Hbuf'|]. split; [exact Hall'|].
          split; [reflexivity|]. split; [now rewrite Hseq|].
          change (has_sent_metadata (gen s) =
                  flag_after false (h ++ [(c, callback_events s)])).
          rewrite flag_after_snoc, <- Hflag. unfold quiet. simpl.
          destruct (has_sent_metadata (gen s)); [reflexivity|].
          now rewrite Hquiet. }
      destruct (has_sent_metadata (gen s)) eqn:Ef; [apply Hdata; discriminate|].
      destruct (callback_events s) as [|ev evs] eqn:Ecb; [now apply Hdata|].
      exists (GenAtMetadata c), []. simpl. split; [now left|].
      split; [exact Hbuf'|]. split; [exact Hall'|]. split; [reflexivity|].
      exists h, (ev :: evs). rewrite Hout.
      split; [reflexivity|]. split; [discriminate|].
      split; [|split; [exact Ef|reflexivity]].
      symmetry in Hflag. unfold flag_after in Hflag. simpl in Hflag.
      now apply negb_false_iff in Hflag.
    + (* suspended at the metadata event *)
      destruct Hshape as (-> & h' & evs & -> & Hevs & Hq & Hf & Hout).
      assert (Hseq : sequenced false (h' ++ [(c, evs)]) =
                     yielded (gen s) ++ [data_event c]).
      { rewrite (sequenced_first h' c evs []), Hout, (sequenced_quiet h' Hq),
          <- app_assoc by assumption. reflexivity. }
      simpl. unfold _stream, yield_data. rewrite Hpc.
      destruct (serializer_error c) as [e|].
      * exists (GenRaised e), []. simpl. split; [now left|].
        split; [exact Hbuf|]. split; [exact Hall|]. right. right. eauto.
      * exists GenLoop, []. simpl. split; [now left|].
        split; [exact Hbuf|]. split; [exact Hall|].
        split; [reflexivity|]. split; [now rewrite Hseq|].
        change (true = flag_after false (h' ++ [(c, evs)])).
        rewrite flag_after_snoc. unfold quiet. simpl.
        destruct evs; [congruence|]. now rewrite orb_true_r.
    + (* suspended at the error event *)
      simpl. unfold _stream. rewrite Hpc.
      exists (GenRaised e), fl. simpl. split; [now left|].
      split; [exact Hbuf|]. split; [exact Hall|]. now left.
    + (* suspended at the end event *)
      destruct Hshape as (-> & Hout).
      simpl. unfold _stream. rewrite Hpc.
      destruct (task s) as [todo|q|[e|]];
        [exists GenAwaitTask, []|exists GenAwaitTask, []
        |exists (GenRaised e), []|exists GenReturned, []];
        simpl; (split; [now left|]); (split; [exact Hbuf|]);
        (split; [exact Hall|]); auto.
    + (* in [await task] *)
      destruct Hshape as (-> & Hout).
      simpl. unfold _stream. rewrite Hpc.
      destruct (task s) as [todo|q|[e|]];
        [exists GenAwaitTask, []|exists GenAwaitTask, []
        |exists (GenRaised e), []|exists GenReturned, []];
        simpl; rewrite ?Hpc; (split; [now left|]); (split; [exact Hbuf|]);
        (split; [exact Hall|]); auto.
    + simpl. unfold _stream. rewrite Hpc. exists GenReturned, fl. auto.
    + simpl. unfold _stream. rewrite Hpc. exists (GenRaised e), fl. auto.
    + destruct Hshape.
  - (* the consumer goes away *)
    simpl. rewrite app_nil_r. unfold aclose.
    destruct (pc (gen s)) eqn:E;
      try (exists p, fl; rewrite E; now auto);
      exists p, fl; (split; [right; reflexivity|]); (split; [exact Hbuf|]);
      (split; [exact Hall|]); destruct p; exact Hshape.
Qed.

Lemma observed_inv_exec r sched s h :
  run_inv r s ->
  observed_inv r h s ->
  observed_inv r (h ++ observed_from r sched s) (exec r sched s).
Proof.
  revert s h. induction sched as [|t sched IH]; intros s h Hinv H.
  - simpl. now rewrite app_nil_r.
  - simpl. rewrite app_assoc. apply IH; [now apply run_inv_step|].
    apply observed_inv_step; [apply Hinv|exact H].
Qed.

Lemma observed_inv_run msgs r sched :
  observed_inv r (observed msgs r sched) (run msgs r sched).
Proof.
  unfold observed, run.
  apply (observed_inv_exec r sched _ []);
    [split; [apply task_inv_start|apply gen_inv_start]|apply observed_inv_start].
Qed.

(** The events of any moment against the placement rule: they are what
    the rule gives for the chunks taken, with at most one closing event
    after them, or they still lack the data event of the last chunk
    taken, where the generator is suspended at the metadata event, was
    closed there, or was stopped by the serializer. *)
Lemma observed_events msgs r sched :
  (exists tail,
     (tail = [] \/ tail = [error_event] \/ tail = [end_event]) /\
     yielded (gen (run msgs r sched)) =
       sequenced false (observed msgs r sched) ++ tail) \/
  (exists c,
     yielded (gen (run msgs r sched)) ++ [data_event c] =
       sequenced false (observed msgs r sched)).
Proof.
  destruct (observed_inv_run msgs r sched) as (p & fl & _ & _ & _ & Hshape).
  destruct p; simpl in Hshape.
  - destruct Hshape as (_ & -> & _). left. exists []. rewrite app_nil_r. auto.
  - destruct Hshape as (_ & h' & evs & -> & Hevs & Hq & _ & ->).
    right. exists c.
    rewrite (sequenced_first h' c evs []), (sequenced_quiet h' Hq), <- app_assoc
      by assumption. reflexivity.
  - left. eauto.
  - destruct Hshape as (_ & ->). left. eauto.
  - destruct Hshape as (_ & ->). left. eauto.
  - destruct Hshape as (_ & ->). left. eauto.
  - destruct Hshape as [->|[(_ & ->)|[c Hc]]]; [left; eauto|left; eauto|right; eauto].
  - destruct Hshape.
Qed.

(** Once the generator has returned, it took every chunk of the agent,
    and the events are what the placement rule gives, and the end
    event. *)
Lemma returned_observed msgs r sched :
  pc (gen (run msgs r sched)) = GenReturned ->
  map fst (observed msgs r sched) = chunks_of (actions r) /\
  yielded (gen (run msgs r sched)) =
    sequenced false (observed msgs r sched) ++ [end_event].
Proof.
  intros Hret.
  destruct (observed_inv_run msgs r sched) as (p & fl & Hpc & Hbuf & _ & Hshape).
  destruct Hpc as [Hpc|Hpc]; [|congruence].
  rewrite Hret in Hpc. subst p. destruct Hshape as (-> & Hout).
  split; [|exact Hout].
  destruct (shape_at msgs r sched _ Hret) as (got & Hbuf' & [Hs _]); [discriminate|].
  destruct Hs as (b & Hgot & _).
  rewrite <- Hbuf', app_nil_r, Hgot in Hbuf.
  apply app_inv_tail in Hbuf. now apply map_Chunk_inj.
Qed.

Lemma sequenced_filter b (h : list (chunk * list callback_event)) :
  List.filter (fun ev => negb (named "metadata" ev)) (sequenced b h) =
  map data_event (map fst h).
Proof.
  revert b. induction h as [|[c evs] h IH]; intros b; [reflexivity|].
  destruct b, evs as [|ev evs]; simpl; now rewrite IH.
Qed.

Lemma sequenced_metadata_sent (h : list (chunk * list callback_event)) :
  count (named "metadata") (sequenced true h) = 0.
Proof.
  rewrite sequenced_sent. now apply named_data_events.
Qed.

Lemma sequenced_metadata (h : list (chunk * list callback_event)) :
  count (named "metadata") (sequenced false h) <= 1 /\
  (forallb quiet h = true ->
   count (named "metadata") (sequenced false h) = 0).
Proof.
  induction h as [|[c [|ev evs]] h [IH1 IH2]].
  - split; [unfold count; simpl; lia|reflexivity].
  - change (sequenced false ((c, []) :: h))
      with (data_event c :: sequenced false h).
    change (forallb quiet ((c, []) :: h)) with (forallb quiet h).
    rewrite count_cons.
    change (named "metadata" (data_event c)) with false.
    split; [exact IH1|exact IH2].
  - change (sequenced false ((c, ev :: evs) :: h))
      with (metadata_event (ev :: evs) :: data_event c :: sequenced true h).
    rewrite !count_cons, sequenced_metadata_sent.
    change (named "metadata" (data_event c)) with false.
    change (named "metadata" (metadata_event (ev :: evs))) with true.
    split; [lia|]. discriminate.
Qed.

(** C1, as the code has it.  Take a streaming run in which the agent
    yields its chunks and raises nothing.  When none of the chunks is an
    exception or is refused by the serializer, then, as long as the
    consumer stays, some further turns make the generator return.  And
    once the generator has returned: it took every chunk of the agent,
    in the order of production, each at a moment when the aggregator
    held a beginning of the callback events of the run; the events other
    than the metadata event are the data events of the chunks, in order,
    and then the end event; if every chunk was taken while the
    aggregator was empty, there is no metadata event; otherwise there is
    exactly one, for what the aggregator held when the first chunk was
    taken at which it was not empty, right before the data event of that
    chunk and after the data events of the chunks taken before; when the
    agent records a callback event before it yields its first chunk the
    aggregator is empty at no chunk, so that the metadata event is then
    there as soon as there is a chunk, and comes first; and the task was
    awaited once and is over. *)
Theorem stream_completes msgs r :
  ending r = Completes ->
  (forallb plain (chunks_of (actions r)) = true ->
   forall sched,
     count (is_turn Disconnect) sched = 0 ->
     exists more, pc (gen (run msgs r (sched ++ more))) = GenReturned) /\
  (forall sched,
     pc (gen (run msgs r sched)) = GenReturned ->
     let h := observed msgs r sched in
     let out := yielded (gen (run msgs r sched)) in
     map fst h = chunks_of (actions r) /\
     Forall (fun o => exists rest, callbacks_of (actions r) = snd o ++ rest) h /\
     List.filter (fun ev => negb (named "metadata" ev)) out =
       map data_event (chunks_of (actions r)) ++ [end_event] /\
     (forallb quiet h = true ->
      out = map data_event (chunks_of (actions r)) ++ [end_event]) /\
     (forall pre c evs post,
        h = pre ++ (c, evs) :: post ->
        forallb quiet pre = true ->
        evs <> [] ->
        out = map data_event (map fst pre) ++
              metadata_event evs :: data_event c ::
              map data_event (map fst post) ++ [end_event]) /\
     (callback_first (actions r) = true ->
      Forall (fun o => quiet o = false) h /\
      (chunks_of (actions r) <> [] ->
       exists evs,
         evs <> [] /\
         out = metadata_event evs ::
               map data_event (chunks_of (actions r)) ++ [end_event])) /\
     awaits (gen (run msgs r sched)) = 1 /\
     task (run msgs r sched) = TaskDone None).
Proof.
  intros Hend. split; [intros Hplain sched; now apply completes_can_return|].
  intros sched Hpc h out.
  destruct (returned_observed msgs r sched Hpc) as [Hh Hout].
  fold h in Hh, Hout. fold out in Hout.
  destruct (observed_inv_run msgs r sched) as (_ & _ & _ & _ & Hall & _).
  fold h in Hall.
  split; [exact Hh|]. split; [|split; [|split; [|split; [|split; [|split]]]]].
  - eapply Forall_impl; [exact Hall|]. now intros o [Ho _].
  - rewrite Hout, List.filter_app, sequenced_filter, Hh. reflexivity.
  - intros Hq. now rewrite Hout, (sequenced_quiet h Hq), Hh.
  - intros pre c evs post Hsplit Hq Hevs.
    rewrite Hout, Hsplit, (sequenced_first pre c evs post Hq Hevs), <- app_assoc.
    reflexivity.
  - intros Hearly.
    assert (Hloud : Forall (fun o => quiet o = false) h).
    { eapply Forall_impl; [exact Hall|]. intros o [_ Ho]. now apply Ho. }
    split; [exact Hloud|]. intros Hne.
    destruct h as [|[c evs] post]; [simpl in Hh; congruence|].
    inversion Hloud as [|o l Hq _]. subst o l.
    assert (Hevs : evs <> []) by (destruct evs; [discriminate|discriminate]).
    exists evs. split; [exact Hevs|].
    pose proof (sequenced_first [] c evs post eq_refl Hevs) as Hseq.
    change ([] ++ (c, evs) :: post) with ((c, evs) :: post) in Hseq.
    rewrite Hout, Hseq, <- Hh. reflexivity.
  - destruct (shape_at msgs r sched _ Hpc) as (got & _ & [Hs _]); [discriminate|].
    now destruct Hs as (b & _ & _ & _ & _ & _ & Haw).
  - now apply returned_task_done.
Qed.

(** C3, as the code has it.  In every streaming run and at every moment
    of it, at most one metadata event has been yielded, however many
    callback events the aggregator holds.  As long as every chunk was
    taken while the aggregator was empty, there is none.  And once a
    chunk was taken while the aggregator held something, the metadata
    event for what it held then is there: right after the data events
    of the chunks taken before, which the aggregator had nothing for,
    and before every other event.  In a run whose agent records a
    callback event before it yields its first chunk, the aggregator is
    empty at no chunk, and nothing at all comes before the metadata
    event, so that it precedes every data event. *)
Theorem metadata_at_most_once msgs r sched :
  let out := yielded (gen (run msgs r sched)) in
  let h := observed msgs r sched in
  count (named "metadata") out <= 1 /\
  (forallb quiet h = true -> count (named "metadata") out = 0) /\
  (forall pre c evs post,
     h = pre ++ (c, evs) :: post ->
     forallb quiet pre = true ->
     evs <> [] ->
     exists rest,
       out = map data_event (map fst pre) ++ metadata_event evs :: rest /\
       count (named "metadata") rest = 0) /\
  (callback_first (actions r) = true ->
   Forall (fun o => quiet o = false) h /\
   forall before e after,
     out = before ++ e :: after -> named "metadata" e = true -> before = []).
Proof.
  intros out h. split; [|split; [|split]].
  - destruct (observed_events msgs r sched) as [(tail & Htail & Hout)|(c & Hout)];
      fold h out in Hout; destruct (sequenced_metadata h) as [Hle _].
    + rewrite Hout, count_app.
      destruct Htail as [->|[->| ->]]; unfold count at 2; simpl; lia.
    + rewrite <- Hout, count_app in Hle. lia.
  - intros Hq.
    destruct (observed_events msgs r sched) as [(tail & Htail & Hout)|(c & Hout)];
      fold h out in Hout; destruct (sequenced_metadata h) as [_ Hz];
      specialize (Hz Hq).
    + rewrite Hout, count_app, Hz.
      destruct Htail as [->|[->| ->]]; reflexivity.
    + rewrite <- Hout, count_app in Hz. lia.
  - intros pre c evs post Hsplit Hq Hevs.
    pose proof (sequenced_first pre c evs post Hq Hevs) as Hseq.
    rewrite <- Hsplit in Hseq.
    assert (Hdata : count (named "metadata")
                      (data_event c :: map data_event (map fst post)) = 0)
      by (apply (named_data_events "metadata" (c :: map fst post)); reflexivity).
    destruct (observed_events msgs r sched) as [(tail & Htail & Hout)|(c' & Hout)];
      fold h out in Hout.
    + exists ((data_event c :: map data_event (map fst post)) ++ tail). split.
      * rewrite Hout, Hseq, <- app_assoc. reflexivity.
      * rewrite count_app, Hdata.
        destruct Htail as [->|[->| ->]]; reflexivity.
    + destruct (exists_last (l := data_event c :: map data_event (map fst post)))
        as (l & x & Hl); [discriminate|].
      rewrite Hseq, Hl, app_comm_cons, app_assoc in Hout.
      apply app_inj_tail in Hout as [Hout _].
      exists l. split; [exact Hout|].
      rewrite Hl, count_app in Hdata. lia.
  - intros Hearly. split.
    + destruct (observed_inv_run msgs r sched) as (_ & _ & _ & _ & Hall & _).
      eapply Forall_impl; [exact Hall|]. intros o [_ Ho]. now apply Ho.
    + destruct (run_inv_run msgs r sched) as [_ Hg].
      apply gen_inv_well_sequenced in Hg
        as (pre & md & post & tail & Hout & Hmd & Htail & Hpre).
      fold out in Hout.
      assert (Hrest : count (named "metadata") (map data_event post ++ tail) = 0).
      { rewrite count_app, named_data_events by reflexivity.
        destruct Htail as [->|[->| ->]]; reflexivity. }
      intros before e after Hsplit Hname.
      rewrite (Hpre Hearly) in Hout. simpl in Hout.
      destruct before as [|x before]; [reflexivity|exfalso].
      assert (Hin : In e (map data_event post ++ tail)).
      { destruct Hmd as [->|(evs & _ & ->)]; rewrite Hout in Hsplit; simpl in Hsplit.
        - rewrite Hsplit. apply in_cons, in_elt.
        - injection Hsplit as _ ->. apply in_elt. }
      apply (count_zero_not_in _ _ _ Hrest) in Hin. congruence.
Qed.

(** C9.  Take a streaming run in which the agent yields no chunk and
    raises nothing, whatever callback events it records.  As long as the
    consumer stays, some further turns make the generator return.  The
    events yielded are at every moment none or the end event alone, and
    the end event alone once the generator has returned: no metadata
    event is ever yielded. *)
Theorem no_chunk_no_metadata msgs r :
  chunks_of (actions r) = [] ->
  ending r = Completes ->
  (forall sched,
     count (is_turn Disconnect) sched = 0 ->
     exists more, pc (gen (run msgs r (sched ++ more))) = GenReturned) /\
  (forall sched,
     (yielded (gen (run msgs r sched)) = [] \/
      yielded (gen (run msgs r sched)) = [end_event]) /\
     (pc (gen (run msgs r sched)) = GenReturned ->
      yielded (gen (run msgs r sched)) = [end_event])).
Proof.
  intros Hcs Hend.
  split; [intros sched; apply completes_can_return; [exact Hend|now rewrite Hcs]|].
  intros sched.
  destruct (run_inv_run msgs r sched) as [Ht (got & p & Hbuf & Hpc & Hshape)].
  destruct (sent_prefix r _ Ht) as [rest Hrest].
  apply (f_equal sent_items) in Hrest.
  rewrite sent_items_task_log, sent_items_app, <- Hbuf, Hcs, Hend in Hrest.
  simpl in Hrest. symmetry in Hrest.
  apply app_eq_nil in Hrest as [Hrest _]. apply app_eq_nil in Hrest as [-> _].
  assert (Hcases :
    (yielded (gen (run msgs r sched)) = [] /\ p = GenLoop) \/
    (yielded (gen (run msgs r sched)) = [end_event] /\ p <> GenLoop)).
  { destruct p; simpl in Hshape.
    - destruct Hshape as (cs & Hgot & _ & Hb & _). destruct cs; [|discriminate].
      apply body_nil in Hb. auto.
    - destruct Hshape as (cs & evs & Hgot & _). now destruct cs.
    - destruct Hshape as (cs & it & b & Hgot & _). now destruct cs.
    - destruct Hshape as (b & _ & _ & _ & Hb & -> & _). rewrite Hcs in Hb.
      apply body_nil in Hb as ->. right. split; [reflexivity|discriminate].
    - destruct Hshape as (b & _ & _ & _ & Hb & -> & _). rewrite Hcs in Hb.
      apply body_nil in Hb as ->. right. split; [reflexivity|discriminate].
    - destruct Hshape as [(b & _ & _ & _ & Hb & -> & _) _]. rewrite Hcs in Hb.
      apply body_nil in Hb as ->. right. split; [reflexivity|discriminate].
    - destruct Hshape as [(cs & it & b & Hgot & _)
                         |[[_ Hun]|(cs & c & Hgot & _)]];
        [now destruct cs|rewrite Hend in Hun; discriminate|now destruct cs].
    - destruct Hshape. }
  split.
  - destruct Hcases as [[-> _]|[-> _]]; auto.
  - intros Hret. destruct Hcases as [[_ ->]|[-> _]]; [|reflexivity].
    destruct Hpc; congruence.
Qed.

(** C4, as the code has it.  In every streaming run and at every moment
    of it, the generator has awaited the task at most once, and only
    after it yielded the end event; it has awaited it exactly once when
    it has returned; and it has not awaited it when it yielded the error
    event of a failure marker. *)
Theorem task_awaited_after_end msgs r sched :
  awaits (gen (run msgs r sched)) <= 1 /\
  (pc (gen (run msgs r sched)) = GenReturned ->
   awaits (gen (run msgs r sched)) = 1 /\
   last (yielded (gen (run msgs r sched))) = Some end_event) /\
  (awaits (gen (run msgs r sched)) = 1 ->
   last (yielded (gen (run msgs r sched))) = Some end_event) /\
  (forall e, In e (yielded (gen (run msgs r sched))) ->
     named "error" e = true -> awaits (gen (run msgs r sched)) = 0).
Proof.
  destruct (run_inv_run msgs r sched) as [_ Hg].
  pose proof (gen_inv_well_sequenced r _ Hg) as Hseq.
  destruct Hg as (got & p & _ & Hpc & Hshape).
  set (g := gen (run msgs r sched)) in *.
  assert (Hcases :
    (awaits g = 0 /\ p <> GenReturned) \/
    (awaits g = 1 /\ exists b, yielded g = b ++ [end_event] /\
       forall e, In e b -> named "error" e = false)).
  { assert (Hb : forall flag cs b e,
        body (callback_first (actions r)) flag cs b -> In e b ->
        named "error" e = false).
    { intros flag cs b e Hb. apply body_flat in Hb as (pre & md & post & _ & -> & Hmd & _).
      apply count_zero_not_in.
      rewrite !count_app, !named_data_events by reflexivity.
      destruct Hmd as [->|(evs & _ & -> & _)]; reflexivity. }
    destruct p; simpl in Hshape.
    - destruct Hshape as (cs & _ & _ & _ & Haw).
      left. split; [exact Haw|discriminate].
    - destruct Hshape as (cs & evs & _ & _ & _ & _ & _ & _ & _ & Haw).
      left. split; [exact Haw|discriminate].
    - destruct Hshape as (cs & it & b & _ & _ & _ & _ & _ & Haw).
      left. split; [exact Haw|discriminate].
    - destruct Hshape as (b & _ & _ & _ & _ & _ & Haw).
      left. split; [exact Haw|discriminate].
    - destruct Hshape as (b & _ & _ & _ & Hbody & Hout & Haw). right. eauto 6.
    - destruct Hshape as [(b & _ & _ & _ & Hbody & Hout & Haw) _]. right. eauto 6.
    - destruct Hshape as [(cs & it & b & _ & _ & _ & _ & _ & Haw)
                         |[[(b & _ & _ & _ & Hbody & Hout & Haw) _]
                          |(cs & c & _ & _ & _ & _ & Haw & _)]].
      + left. split; [exact Haw|discriminate].
      + right. eauto 6.
      + left. split; [exact Haw|discriminate].
    - destruct Hshape. }
  split; [destruct Hcases as [[-> _]|[-> _]]; lia|].
  split; [|split].
  - intros Hret. destruct Hcases as [[_ Hne]|[Haw (b & -> & _)]].
    + destruct Hpc; congruence.
    + split; [exact Haw|apply last_snoc].
  - intros Haw. destruct Hcases as [[Haw0 _]|[_ (b & -> & _)]]; [lia|].
    apply last_snoc.
  - intros e Hin Hname. destruct Hcases as [[Haw _]|[_ (b & Hout & Hb)]];
      [exact Haw|exfalso].
    rewrite Hout in Hin. apply in_app_iff in Hin as [Hin|[<-|[]]].
    + apply Hb in Hin. congruence.
    + discriminate.
Qed.

(** ** The class and the text of an exception do not reach the events *)

Lemma map_strip_item (l : list (item (chunk:=chunk))) :
  map strip_item (map strip_item l) = map strip_item l.
Proof.
  induction l as [|[c|e] l IH]; simpl; now rewrite ?IH.
Qed.

Lemma map_strip_op (l : list (chan_op (chunk:=chunk))) :
  map strip_op (map strip_op l) = map strip_op l.
Proof.
  induction l as [|[[c|e]|] l IH]; simpl; now rewrite ?IH.
Qed.

Lemma strip_pc_idem (p : gen_pc (chunk:=chunk)) :
  strip_pc (strip_pc p) = strip_pc p.
Proof. destruct p; reflexivity. Qed.

Ltac strip_done :=
  simpl; rewrite ?map_app, ?map_strip_item, ?map_strip_op, ?strip_pc_idem;
  reflexivity.

(** A turn does the same, exceptions stripped, on a state whose
    exceptions are stripped already. *)
Lemma strip_step r t s :
  strip_state (step r t s) = strip_state (step (strip_run r) t (strip_state s)).
Proof.
  destruct s as [tk [msgs [snt buf cl]] cbs [p f out aw]].
  destruct r as [acts fin].
  destruct t; unfold step, consume_astream, _stream,
    stream_loop, yield_data, aclose, strip_state, strip_run, chan; simpl.
  - destruct tk as [[|[ev|c] todo]|[q|]|[q|]]; try strip_done.
    destruct fin as [|e]; [strip_done|].
    simpl. destruct (exc_is_Exception e); strip_done.
  - destruct p; simpl.
    + destruct buf as [|[c|e] rest]; simpl.
      * destruct cl; destruct tk as [| [|] | [|]]; strip_done.
      * destruct (chunk_exception c);
          [|destruct f, cbs, (serializer_error c)];
          destruct tk as [| [|] | [|]]; strip_done.
      * destruct tk as [| [|] | [|]]; strip_done.
    + destruct (serializer_error c); destruct tk as [| [|] | [|]]; strip_done.
    + destruct tk as [| [|] | [|]]; strip_done.
    + destruct tk as [| [|] |[e|]]; strip_done.
    + destruct tk as [| [|] |[e|]]; strip_done.
    + destruct tk as [| [|] | [|]]; strip_done.
    + destruct tk as [| [|] | [|]]; strip_done.
    + destruct tk as [| [|] | [|]]; strip_done.
  - destruct p; destruct tk as [| [|] | [|]]; strip_done.
Qed.

Lemma strip_exec r r' sched s s' :
  strip_run r = strip_run r' ->
  strip_state s = strip_state s' ->
  strip_state (exec r sched s) = strip_state (exec r' sched s').
Proof.
  intros Hr. revert s s'. induction sched as [|t sched IH]; intros s s' Hs;
    [exact Hs|].
  simpl. apply IH.
  now rewrite (strip_step r t s), (strip_step r' t s'), Hr, Hs.
Qed.

Lemma yielded_same_whatever_raised msgs acts e1 e2 sched :
  exc_is_Exception e1 = exc_is_Exception e2 ->
  yielded (gen (run msgs {| actions := acts; ending := Raises e1 |} sched)) =
  yielded (gen (run msgs {| actions := acts; ending := Raises e2 |} sched)).
Proof.
  intros H.
  change (yielded (gen (strip_state
            (run msgs {| actions := acts; ending := Raises e1 |} sched))) =
          yielded (gen (strip_state
            (run msgs {| actions := acts; ending := Raises e2 |} sched)))).
  unfold run. f_equal. f_equal. apply strip_exec; [|reflexivity].
  unfold strip_run, strip. simpl. now rewrite H.
Qed.

(** C2, as the code has it.  Take a streaming run whose agent raises
    an exception that is an instance of [Exception], the ones
    [consume_astream] catches, after it yielded its chunks, none of
    which is an exception or is refused by the serializer.  As long as
    the consumer stays, some further turns bring the generator to raise
    that exception.  And once the generator is over: it raised that
    exception; the events yielded, the metadata event left aside, are
    the data events of the chunks in order and then the error event; the
    error event is the last, its data is the serialized dictionary of
    status code 500 and message Internal Server Error; there is one
    error event and no end event; and the events are the same whatever
    the class and the text of the exception. *)
Theorem stream_fails msgs r e :
  ending r = Raises e ->
  exc_is_Exception e = true ->
  forallb plain (chunks_of (actions r)) = true ->
  (forall sched,
     count (is_turn Disconnect) sched = 0 ->
     exists more, pc (gen (run msgs r (sched ++ more))) = GenRaised e) /\
  (forall sched,
     finished (pc (gen (run msgs r sched))) = true ->
     pc (gen (run msgs r sched)) = GenRaised e /\
     List.filter (fun ev => negb (named "metadata" ev))
       (yielded (gen (run msgs r sched))) =
       map data_event (chunks_of (actions r)) ++ [error_event] /\
     last (yielded (gen (run msgs r sched))) = Some error_event /\
     data error_event =
       Some (orjson_dumps (PDict {[ "status_code" := PInt 500;
                                    "message" := PStr "Internal Server Error" ]})) /\
     count (named "data") (yielded (gen (run msgs r sched))) =
       length (chunks_of (actions r)) /\
     count (named "error") (yielded (gen (run msgs r sched))) = 1 /\
     count (named "end") (yielded (gen (run msgs r sched))) = 0 /\
     (forall e', exc_is_Exception e' = true ->
        yielded (gen (run msgs {| actions := actions r; ending := Raises e' |}
                        sched)) =
        yielded (gen (run msgs r sched)))).
Proof.
  intros Hend He Hplain.
  assert (Hm : marker (chunk:=chunk) (ending r) = [Failure e])
    by (rewrite Hend; simpl; now rewrite He).
  assert (Hover : forall sched,
    finished (pc (gen (run msgs r sched))) = true ->
    exists cs b,
      pc (gen (run msgs r sched)) = GenRaised e /\
      cs = chunks_of (actions r) /\
      body (callback_first (actions r))
        (has_sent_metadata (gen (run msgs r sched))) cs b /\
      yielded (gen (run msgs r sched)) = b ++ [error_event]).
  { intros sched Hfin. destruct (run_inv_run msgs r sched) as [Ht _].
    destruct (pc (gen (run msgs r sched))) eqn:Epc; try discriminate.
    - destruct (shape_at msgs r sched _ Epc) as (got & _ & [(b & _ & Hno & _) _]);
        [discriminate|congruence].
    - destruct (shape_at msgs r sched _ Epc) as (got & Hbuf & Hs); [discriminate|].
      destruct Hs as [Hs|[[(b & _ & Hno & _) _]|Hs]]; [| congruence |].
      + apply (failed_source r _ got e0 Ht Hbuf) in Hs
          as (cs & b & _ & Hb & Hout & _ & [(c & rest & Hcs & Hc)|[Hcs Hm']]).
        * rewrite Hcs in Hplain. apply plain_at in Hplain as [Hc' _]. congruence.
        * rewrite Hm in Hm'. injection Hm' as ->. eauto 6.
      + apply (crashed_source r _ got e0 Ht Hbuf) in Hs
          as (cs & c & rest & Hcs & _ & _ & Hc & _).
        rewrite Hcs in Hplain. apply plain_at in Hplain as [_ Hc']. congruence. }
  split.
  - intros sched Hnd. destruct (stream_can_finish msgs r sched Hnd) as [more Hfin].
    exists more. now destruct (Hover _ Hfin) as (cs & b & Hpc & _).
  - intros sched Hfin. destruct (Hover _ Hfin) as (cs & b & Hpc & Hcs & Hb & Hout).
    apply body_flat in Hb as (pre & md & post & Hpp & -> & Hmd & _).
    assert (Hname : forall name,
      String.eqb "data" name = false -> String.eqb "metadata" name = false ->
      count (named name) (map data_event pre ++ md ++ map data_event post) = 0).
    { intros name H1 H2. rewrite !count_app, !named_data_events by exact H1.
      destruct Hmd as [->|(evs & _ & -> & _)]; [reflexivity|].
      rewrite count_cons.
      change (named name (metadata_event evs)) with (String.eqb "metadata" name).
      now rewrite H2. }
    split; [exact Hpc|]. rewrite Hout, <- Hcs, Hpp.
    split; [|split; [apply last_snoc|split; [reflexivity|]]].
    + rewrite !List.filter_app, !filter_data_events, map_app, <- !app_assoc.
      destruct Hmd as [->|(evs & _ & -> & _)]; reflexivity.
    + split; [|split; [|split]].
      * rewrite !count_app, !count_data_events, List.length_app.
        destruct Hmd as [->|(evs & _ & -> & _)]; unfold count; simpl; lia.
      * rewrite count_app, Hname by reflexivity. reflexivity.
      * rewrite count_app, Hname by reflexivity. reflexivity.
      * intros e'' He''. rewrite <- Hout.
        destruct r as [acts fin]. simpl in *. subst fin.
        apply yielded_same_whatever_raised. congruence.
Qed.

(** ** The handler keeps its messages *)

Lemma messages_step r t s :
  messages (streamer (step r t s)) = messages (streamer s).
Proof.
  destruct t; simpl.
  - unfold consume_astream.
    destruct (task s) as [[|[ev|c] todo]|q|q]; try reflexivity.
    destruct (ending r) as [|e]; [|destruct (exc_is_Exception e)]; reflexivity.
  - apply _stream_task_side.
  - apply aclose_task_side.
Qed.

Lemma messages_run msgs r sched :
  messages (streamer (run msgs r sched)) = msgs.
Proof.
  unfold run.
  change msgs with (messages (streamer (start (new_handler msgs) r))) at 2.
  generalize (start (new_handler msgs) r).
  induction sched as [|t sched IH]; intros s; [reflexivity|].
  simpl. now rewrite IH, messages_step.
Qed.

(** ** More on the events and on the stream *)

Lemma filter_data_body early flag cs b :
  body early flag cs b ->
  List.filter (named "data") b = map data_event cs /\
  length b <= length cs + 1.
Proof.
  intros H. apply body_flat in H as (pre & md & post & -> & -> & Hmd & _).
  assert (Hd : forall l : list chunk,
    List.filter (named "data") (map data_event l) = map data_event l).
  { induction l as [|c l IH]; [reflexivity|]. simpl. now rewrite IH. }
  rewrite !List.filter_app, !Hd, !List.length_app, !length_map, map_app.
  destruct Hmd as [->|(evs & _ & -> & _)]; simpl; split; reflexivity || lia.
Qed.

(** The events of any moment, seen from the chunks: those handled so
    far are a beginning [cs] of the agent's chunks; the events are their
    data events with at most one more among them ([b]), and at most one
    closing event ([tail]). *)
Lemma handled_view r s :
  run_inv r s ->
  exists cs rest b tail,
    chunks_of (actions r) = cs ++ rest /\
    yielded (gen s) = b ++ tail /\
    List.filter (named "data") b = map data_event cs /\
    length b <= length cs + 1 /\
    (tail = [] \/ tail = [error_event] \/ tail = [end_event]).
Proof.
  intros [Ht (got & p & Hbuf & _ & Hshape)].
  destruct (received_prefix r s got Ht Hbuf) as [more Hall].
  assert (Hfailed : forall e, failed r e (gen s) got ->
    exists cs rest b tail,
      chunks_of (actions r) = cs ++ rest /\
      yielded (gen s) = b ++ tail /\
      List.filter (named "data") b = map data_event cs /\
      length b <= length cs + 1 /\
      (tail = [] \/ tail = [error_event] \/ tail = [end_event])).
  { intros e (cs & it & b & Hgot & _ & _ & Hb & Hout & _).
    rewrite Hgot, <- app_assoc in Hall. apply handled_prefix in Hall as [rest ->].
    apply filter_data_body in Hb as [Hf Hl].
    exists cs, rest, b, [error_event]. repeat split; auto. }
  assert (Hended : forall n, ended r n (gen s) got ->
    exists cs rest b tail,
      chunks_of (actions r) = cs ++ rest /\
      yielded (gen s) = b ++ tail /\
      List.filter (named "data") b = map data_event cs /\
      length b <= length cs + 1 /\
      (tail = [] \/ tail = [error_event] \/ tail = [end_event])).
  { intros n (b & _ & _ & _ & Hb & Hout & _).
    apply filter_data_body in Hb as [Hf Hl].
    exists (chunks_of (actions r)), [], b, [end_event].
    rewrite app_nil_r. repeat split; auto. }
  assert (Hmeta : forall cs c evs,
    got = map Chunk (cs ++ [c]) ->
    yielded (gen s) = map data_event cs ++ [metadata_event evs] ->
    exists cs rest b tail,
      chunks_of (actions r) = cs ++ rest /\
      yielded (gen s) = b ++ tail /\
      List.filter (named "data") b = map data_event cs /\
      length b <= length cs + 1 /\
      (tail = [] \/ tail = [error_event] \/ tail = [end_event])).
  { intros cs c evs Hgot Hout.
    rewrite Hgot in Hall. apply handled_prefix in Hall as [rest Hall'].
    assert (Hb : body false false cs (map data_event cs))
      by (split; [reflexivity|discriminate]).
    apply filter_data_body in Hb as [Hf Hl].
    exists cs, (c :: rest), (yielded (gen s)), [].
    rewrite app_nil_r, Hout, List.filter_app, List.length_app, Hf.
    rewrite Hall', <- app_assoc. simpl. rewrite app_nil_r.
    rewrite length_map. repeat split; auto. }
  destruct p; simpl in Hshape.
  - destruct Hshape as (cs & Hgot & _ & Hb & _).
    rewrite Hgot in Hall. apply handled_prefix in Hall as [rest ->].
    apply filter_data_body in Hb as [Hf Hl].
    exists cs, rest, (yielded (gen s)), []. rewrite app_nil_r.
    repeat split; auto.
  - destruct Hshape as (cs & evs & Hgot & _ & _ & _ & _ & _ & Hout & _).
    now apply (Hmeta cs c evs).
  - now apply (Hfailed e).
  - now apply (Hended 0).
  - now apply (Hended 1).
  - destruct Hshape as [Hs _]. now apply (Hended 1).
  - destruct Hshape as [Hs|[[Hs _]|Hs]];
      [now apply (Hfailed e)|now apply (Hended 1)|].
    destruct Hs as (cs & c & Hgot & _ & _ & _ & _ & [Hb|(evs & _ & _ & Hout)]);
      [|now apply (Hmeta cs c evs)].
    rewrite Hgot in Hall. apply handled_prefix in Hall as [rest Hall'].
    apply filter_data_body in Hb as [Hf Hl].
    exists cs, (c :: rest), (yielded (gen s)), [].
    rewrite app_nil_r, Hall', <- app_assoc. repeat split; auto.
  - destruct Hshape.
Qed.

(** X1.  At every moment of every streaming run, abandoned or not,
    failing or not, the data events yielded so far are the data events
    of a beginning of the agent's chunks, in the order of production:
    no chunk is skipped, repeated or moved. *)
Theorem data_events_in_order msgs r sched :
  exists handled rest,
    chunks_of (actions r) = handled ++ rest /\
    List.filter (named "data") (yielded (gen (run msgs r sched))) =
      map data_event handled.
Proof.
  destruct (handled_view r _ (run_inv_run msgs r sched))
    as (cs & rest & b & tail & Hcs & Hout & Hf & _ & Htail).
  exists cs, rest. split; [exact Hcs|].
  rewrite Hout, List.filter_app, Hf.
  destruct Htail as [->|[->| ->]]; simpl; now rewrite app_nil_r.
Qed.

(** X2.  At every moment of every streaming run, the number of events
    yielded is at most the number of the agent's chunks plus two: one
    data event for each chunk, one metadata event and one closing
    event. *)
Theorem events_bounded msgs r sched :
  length (yielded (gen (run msgs r sched))) <=
  length (chunks_of (actions r)) + 2.
Proof.
  destruct (handled_view r _ (run_inv_run msgs r sched))
    as (cs & rest & b & tail & Hcs & Hout & _ & Hl & Htail).
  rewrite Hout, Hcs, !List.length_app.
  destruct Htail as [->|[->| ->]]; simpl; lia.
Qed.

(** X3.  At every moment of every streaming run, an error event or an
    end event among the events yielded is the last of them, and neither
    kind occurs before it: the stream carries at most one closing
    event, never an error event and an end event together, and nothing
    after it. *)
Theorem closing_event_is_last msgs r sched before e after :
  yielded (gen (run msgs r sched)) = before ++ e :: after ->
  named "error" e = true \/ named "end" e = true ->
  after = [] /\
  count (named "error") before = 0 /\
  count (named "end") before = 0.
Proof.
  intros Hsplit Hname.
  destruct (run_inv_run msgs r sched) as [_ Hg].
  apply gen_inv_well_sequenced in Hg
    as (pre & md & post & tail & Hout & Hmd & Htail & _).
  set (main := map data_event pre ++ md ++ map data_event post).
  assert (Hmain : count (named "error") main = 0 /\ count (named "end") main = 0).
  { unfold main. rewrite !count_app, !named_data_events by reflexivity.
    destruct Hmd as [->|(evs & _ & ->)]; split; reflexivity. }
  assert (Hnot : ~ In e main).
  { intros Hin. destruct Hmain as [H1 H2].
    apply (count_zero_not_in _ _ _ H1) in Hin as H1'.
    apply (count_zero_not_in _ _ _ H2) in Hin as H2'.
    destruct Hname; congruence. }
  assert (Hout' : before ++ e :: after = main ++ tail).
  { rewrite <- Hsplit, Hout. unfold main. now rewrite <- !app_assoc. }
  destruct Htail as [->|Htail].
  { exfalso. apply Hnot. rewrite app_nil_r in Hout'. rewrite <- Hout'.
    apply in_elt. }
  assert (Hone : exists x, tail = [x]) by (destruct Htail as [->| ->]; eauto).
  destruct Hone as [x ->].
  destruct (exists_last (l := e :: after)) as (l & y & Hl); [discriminate|].
  rewrite Hl, app_assoc in Hout'.
  apply app_inj_tail in Hout' as [Hbefore _].
  destruct after as [|z after].
  - destruct l; [|destruct l; discriminate]. simpl in Hbefore.
    rewrite app_nil_r in Hbefore. subst before. auto.
  - exfalso. apply Hnot. rewrite <- Hbefore.
    destruct l as [|e' l]; [destruct after; discriminate|].
    injection Hl as -> _. apply in_elt.
Qed.

Lemma count_named_body early flag cs b name :
  body early flag cs b ->
  String.eqb "data" name = false ->
  String.eqb "metadata" name = false ->
  count (named name) b = 0.
Proof.
  intros H H1 H2. apply body_flat in H as (pre & md & post & _ & -> & Hmd & _).
  rewrite !count_app, !named_data_events by exact H1.
  destruct Hmd as [->|(evs & _ & -> & _)]; [reflexivity|].
  rewrite count_cons.
  change (named name (metadata_event evs)) with (String.eqb "metadata" name).
  now rewrite H2.
Qed.

(** The generator leaves its loop, and later awaits the task, only with
    the stream closed. *)
Lemma awaited_closed msgs r sched :
  awaits (gen (run msgs r sched)) = 1 ->
  closed (chan (run msgs r sched)) = true.
Proof.
  unfold run.
  assert (H0 : pc (gen (start (new_handler msgs) r)) = GenAtEnd \/
               awaits (gen (start (new_handler msgs) r)) = 1 ->
               closed (chan (start (new_handler msgs) r)) = true)
    by (intros [H|H]; discriminate).
  intros Haw. revert H0 Haw. generalize (start (new_handler msgs) r).
  induction sched as [|t sched IH]; intros s H Haw; [apply H; now right|].
  simpl in Haw |- *. apply IH; [|exact Haw]. clear IH Haw.
  destruct t; simpl.
  - rewrite consume_astream_gen. intros Hs. specialize (H Hs).
    unfold consume_astream, chan in *.
    destruct (task s) as [[|[ev|c] todo]|q|q]; simpl; auto.
    destruct (ending r) as [|x]; [|destruct (exc_is_Exception x)]; simpl; auto.
  - destruct (_stream_task_side s) as (_ & _ & -> & _).
    unfold _stream, stream_loop.
    destruct (pc (gen s)) eqn:Epc; simpl; try (rewrite Epc; exact H).
    + destruct (buffer (chan s)) as [|it rest]; simpl.
      * destruct (closed (chan s)) eqn:Ecl; [reflexivity|].
        rewrite Epc. exact H.
      * destruct (exception_of it) as [x|c];
          [intros [Hs|Hs]; try discriminate; apply H; now right|].
        unfold yield_data.
        destruct (has_sent_metadata (gen s)), (callback_events s),
          (serializer_error c); simpl;
          intros [Hs|Hs]; try discriminate; apply H; now right.
    + unfold yield_data. destruct (serializer_error c); simpl;
        intros [Hs|Hs]; try discriminate; apply H; now right.
    + intros [Hs|Hs]; try discriminate; apply H; now right.
    + intros _. apply H. now left.
    + destruct (task s) as [| |[x|]]; simpl; intros [Hs|Hs];
        try congruence; apply H; now right.
  - destruct (aclose_task_side s) as (_ & _ & -> & _).
    unfold aclose.
    destruct (pc (gen s)) eqn:Epc; simpl; try (rewrite Epc; exact H);
      intros [Hs|Hs]; try discriminate; apply H; now right.
Qed.

Lemma closed_task_done r s :
  task_inv r s -> closed (chan s) = true ->
  task s = TaskDone (uncaught (ending r)).
Proof.
  intros [done [_ Ht]] Hcl.
  destruct (task s); [destruct Ht as (_ & _ & Ho)|destruct Ht as (_ & _ & _ & Ho)|];
    try congruence.
  destruct Ht as (_ & -> & _). reflexivity.
Qed.

(** X4.  Take a streaming run whose agent is cancelled: it raises
    [CancelledError], which is not an instance of [Exception], so that
    [except Exception] does not catch it; and let none of its chunks be
    an exception or be refused by the serializer.  Nothing but chunks
    goes on the stream, which the [finally] still closes.  As long as
    the consumer stays, some further turns bring the generator to raise
    that exception.  And once the generator is over, it has yielded the
    data events of all the chunks and then the end event, no error
    event, and has raised the exception out of [await task]. *)
Theorem uncaught_exception_after_end msgs r e :
  ending r = Raises e ->
  exc_class e = "CancelledError" ->
  exc_is_Exception e = false ->
  forallb plain (chunks_of (actions r)) = true ->
  (forall sched x, ~ In (Send (Failure x)) (sent (chan (run msgs r sched)))) /\
  (forall sched,
     count (is_turn Disconnect) sched = 0 ->
     exists more, pc (gen (run msgs r (sched ++ more))) = GenRaised e) /\
  (forall sched,
     finished (pc (gen (run msgs r sched))) = true ->
     pc (gen (run msgs r sched)) = GenRaised e /\
     task (run msgs r sched) = TaskDone (Some e) /\
     closed (chan (run msgs r sched)) = true /\
     awaits (gen (run msgs r sched)) = 1 /\
     last (yielded (gen (run msgs r sched))) = Some end_event /\
     count (named "error") (yielded (gen (run msgs r sched))) = 0 /\
     List.filter (named "data") (yielded (gen (run msgs r sched))) =
       map data_event (chunks_of (actions r))).
Proof.
  intros Hend _ He Hplain.
  assert (Hm : marker (chunk:=chunk) (ending r) = [])
    by (rewrite Hend; simpl; now rewrite He).
  assert (Hun : uncaught (ending r) = Some e)
    by (rewrite Hend; simpl; now rewrite He).
  assert (Hnone : forall sched x,
    ~ In (Send (Failure x)) (sent (chan (run msgs r sched)))).
  { intros sched x Hin. destruct (run_inv_run msgs r sched) as [Ht _].
    destruct (sent_prefix r _ Ht) as [rest Hrest].
    assert (Hlog : In (Send (Failure x)) (task_log r))
      by (rewrite Hrest; apply in_app_iff; now left).
    apply failure_in_task_log in Hlog as [Hr Hx]. congruence. }
  assert (Hover : forall sched,
    finished (pc (gen (run msgs r sched))) = true ->
    pc (gen (run msgs r sched)) = GenRaised e /\
    exists got, ended r 1 (gen (run msgs r sched)) got).
  { intros sched Hfin. destruct (run_inv_run msgs r sched) as [Ht _].
    destruct (pc (gen (run msgs r sched))) eqn:Epc; try discriminate.
    - destruct (shape_at msgs r sched _ Epc) as (got & _ & [_ Hno]);
        [discriminate|congruence].
    - destruct (shape_at msgs r sched _ Epc) as (got & Hbuf & Hs); [discriminate|].
      destruct Hs as [Hs|[[Hs Hun']|Hs]]; [exfalso|split; [congruence|eauto]|exfalso].
      + apply (failed_source r _ got e0 Ht Hbuf) in Hs
          as (cs & b & _ & _ & _ & _ & [(c & rest & Hcs & Hc)|[_ Hm']]).
        * rewrite Hcs in Hplain. apply plain_at in Hplain as [Hc' _]. congruence.
        * rewrite Hm in Hm'. discriminate.
      + apply (crashed_source r _ got e0 Ht Hbuf) in Hs
          as (cs & c & rest & Hcs & _ & _ & Hc & _).
        rewrite Hcs in Hplain. apply plain_at in Hplain as [_ Hc']. congruence. }
  split; [exact Hnone|]. split.
  - intros sched Hnd. destruct (stream_can_finish msgs r sched Hnd) as [more Hfin].
    exists more. now apply Hover.
  - intros sched Hfin.
    destruct (Hover sched Hfin) as [Hpc (got & b & _ & _ & _ & Hb & Hout & Haw)].
    pose proof (awaited_closed msgs r sched Haw) as Hcl.
    destruct (run_inv_run msgs r sched) as [Ht _].
    pose proof (closed_task_done r _ Ht Hcl) as Hdone. rewrite Hun in Hdone.
    split; [exact Hpc|]. split; [exact Hdone|]. split; [exact Hcl|].
    split; [exact Haw|]. rewrite Hout.
    split; [apply last_snoc|]. split.
    + rewrite count_app, (count_named_body _ _ _ _ _ Hb) by reflexivity.
      reflexivity.
    + apply filter_data_body in Hb as [Hf _].
      rewrite List.filter_app, Hf. simpl. now rewrite app_nil_r.
Qed.

(** The end event is yielded only with the stream closed. *)
Lemma end_yielded_closed msgs r sched :
  In end_event (yielded (gen (run msgs r sched))) ->
  closed (chan (run msgs r sched)) = true.
Proof.
  apply (run_invariant msgs r (fun s =>
    In end_event (yielded (gen s)) -> closed (chan s) = true)).
  - intros [].
  - intros t s _ IH. destruct t; simpl.
    + rewrite consume_astream_gen. intros Hin. specialize (IH Hin).
      unfold consume_astream, chan in *.
      destruct (task s) as [[|[ev|c] todo]|q|q]; simpl; auto.
      destruct (ending r) as [|x]; [|destruct (exc_is_Exception x)]; simpl; auto.
    + destruct (_stream_task_side s) as (_ & _ & -> & _).
      unfold _stream, stream_loop, yield_data.
      destruct (pc (gen s)) eqn:Epc; simpl; try (rewrite ?Epc; exact IH).
      * destruct (buffer (chan s)) as [|it rest]; simpl.
        -- destruct (closed (chan s)) eqn:Ecl; [reflexivity|exact IH].
        -- destruct (exception_of it) as [x|c]; simpl.
           ++ intros Hin. apply in_app_iff in Hin as [Hin|[Hin|[]]];
                [now apply IH|discriminate].
           ++ destruct (has_sent_metadata (gen s)), (callback_events s),
                (serializer_error c); simpl; try exact IH;
                intros Hin; apply in_app_iff in Hin as [Hin|[Hin|[]]];
                try (now apply IH); discriminate.
      * destruct (serializer_error c); simpl; [exact IH|].
        intros Hin. apply in_app_iff in Hin as [Hin|[Hin|[]]];
          [now apply IH|discriminate].
      * destruct (task s) as [| |[x|]]; exact IH.
      * destruct (task s) as [| |[x|]]; simpl; rewrite ?Epc; exact IH.
    + destruct (aclose_task_side s) as (_ & _ & -> & _).
      unfold aclose. destruct (pc (gen s)); exact IH.
Qed.

Lemma no_end_event (l : list sse_event) :
  count (named "end") l = 0 -> ~ In end_event l.
Proof.
  intros H Hin. apply (count_zero_not_in _ _ _ H) in Hin. discriminate.
Qed.

(** X5.  In every streaming run, once the end event has been yielded,
    nothing is left in the stream, which is closed: the task had sent
    all the chunks of the agent, nothing else, and closed the stream,
    and the generator had received every one of them. *)
Theorem nothing_left_when_over msgs r sched :
  In end_event (yielded (gen (run msgs r sched))) ->
  buffer (chan (run msgs r sched)) = [] /\
  closed (chan (run msgs r sched)) = true /\
  sent (chan (run msgs r sched)) =
    map (fun c => Send (Chunk c)) (chunks_of (actions r)) ++ [Close].
Proof.
  intros Hin. pose proof (end_yielded_closed msgs r sched Hin) as Hcl.
  destruct (run_inv_run msgs r sched) as [Ht (got & p & Hbuf & _ & Hshape)].
  pose proof (closed_task_log r _ Ht Hcl) as Hlog.
  assert (Hbody : forall flag cs b tail,
    body (callback_first (actions r)) flag cs b ->
    tail = [] \/ tail = [error_event] ->
    ~ In end_event (b ++ tail)).
  { intros flag cs b tail Hb Htail. apply no_end_event.
    rewrite count_app, (count_named_body _ _ _ _ _ Hb) by reflexivity.
    destruct Htail as [-> | ->]; reflexivity. }
  assert (Hmeta : forall cs evs,
    ~ In end_event (map data_event cs ++ [metadata_event evs])).
  { intros cs evs. apply no_end_event.
    rewrite count_app, named_data_events by reflexivity. reflexivity. }
  assert (Hended : forall n, ended r n (gen (run msgs r sched)) got ->
    buffer (chan (run msgs r sched)) = [] /\
    closed (chan (run msgs r sched)) = true /\
    sent (chan (run msgs r sched)) =
      map (fun c => Send (Chunk c)) (chunks_of (actions r)) ++ [Close]).
  { intros n (b & Hgot & Hm & _).
    rewrite Hlog, sent_items_task_log, Hgot, Hm in Hbuf.
    apply app_inv_head in Hbuf.
    split; [exact Hbuf|]. split; [exact Hcl|].
    rewrite Hlog. unfold task_log. now rewrite Hm. }
  destruct p; simpl in Hshape.
  - destruct Hshape as (cs & _ & _ & Hb & _).
    rewrite <- (app_nil_r (yielded _)) in Hin.
    now destruct (Hbody _ _ _ [] Hb (or_introl eq_refl)).
  - destruct Hshape as (cs & evs & _ & _ & _ & _ & _ & _ & Hout & _).
    rewrite Hout in Hin. now destruct (Hmeta cs evs).
  - destruct Hshape as (cs & it & b & _ & _ & _ & Hb & Hout & _).
    rewrite Hout in Hin.
    now destruct (Hbody _ _ _ [error_event] Hb (or_intror eq_refl)).
  - now apply (Hended 0).
  - now apply (Hended 1).
  - destruct Hshape as [Hs _]. now apply (Hended 1).
  - destruct Hshape as [Hs|[[Hs _]|Hs]]; [|now apply (Hended 1)|].
    + destruct Hs as (cs & it & b & _ & _ & _ & Hb & Hout & _).
      rewrite Hout in Hin.
      now destruct (Hbody _ _ _ [error_event] Hb (or_intror eq_refl)).
    + destruct Hs as (cs & c & _ & _ & _ & _ & _ & [Hb|(evs & _ & _ & Hout)]).
      * rewrite <- (app_nil_r (yielded _)) in Hin.
        now destruct (Hbody _ _ _ [] Hb (or_introl eq_refl)).
      * rewrite Hout in Hin. now destruct (Hmeta cs evs).
  - destruct Hshape.
Qed.

(** What one [__anext__] does to the events.  Suspended at the metadata
    event, the generator raises the flag and yields the data event of
    the chunk it holds, unless the serializer refuses the chunk, which
    ends it.  At the head of the loop, with the flag down and the
    aggregator not empty, it may yield the metadata event and stop at
    it.  Otherwise it yields nothing or one event that is no metadata
    event, and leaves the flag alone. *)
Lemma _stream_adds s :
  (exists c,
     pc (gen s) = GenAtMetadata c /\
     ((yielded (gen (_stream s)) = yielded (gen s) ++ [data_event c] /\
       pc (gen (_stream s)) = GenLoop) \/
      (yielded (gen (_stream s)) = yielded (gen s) /\
       exists e, serializer_error c = Some e /\
                 pc (gen (_stream s)) = GenRaised e))) \/
  (exists c,
     pc (gen s) = GenLoop /\
     callback_events s <> [] /\
     has_sent_metadata (gen s) = false /\
     yielded (gen (_stream s)) =
       yielded (gen s) ++ [metadata_event (callback_events s)] /\
     has_sent_metadata (gen (_stream s)) = false /\
     pc (gen (_stream s)) = GenAtMetadata c) \/
  ((forall c, pc (gen s) <> GenAtMetadata c) /\
   (forall c, pc (gen (_stream s)) <> GenAtMetadata c) /\
   (pc (gen (_stream s)) = GenClosed <-> pc (gen s) = GenClosed) /\
   has_sent_metadata (gen (_stream s)) = has_sent_metadata (gen s) /\
   (yielded (gen (_stream s)) = yielded (gen s) \/
    exists x, yielded (gen (_stream s)) = yielded (gen s) ++ [x] /\
              named "metadata" x = false /\
              pc (gen s) <> GenClosed)).
Proof.
  unfold _stream, stream_loop, yield_data.
  destruct (pc (gen s)) eqn:Epc;
    [destruct (buffer (chan s)) as [|it rest];
       [destruct (closed (chan s))
       |destruct (exception_of it) as [x|c];
          [|destruct (has_sent_metadata (gen s)) eqn:Ef;
              [destruct (serializer_error c)
              |destruct (callback_events s) as [|ev evs] eqn:Ecb;
                 [destruct (serializer_error c)|]]]]
    |destruct (serializer_error c) as [x|] eqn:Ese
    |
    |destruct (task s) as [| |[x|]]
    |destruct (task s) as [| |[x|]]
    | | | ];
    try (right; right; simpl; rewrite ?Epc, ?Ef;
         (split; [discriminate|]); (split; [discriminate|]);
         (split; [split; intros; (discriminate || reflexivity)|]);
         (split; [reflexivity|]);
         (now left) ||
         (right; eexists; (split; [reflexivity|]); split;
          [reflexivity|discriminate])).
  - right. left. exists c. simpl. rewrite Ef. repeat split; auto; discriminate.
  - left. exists c. split; [reflexivity|]. right. simpl. eauto.
  - left. exists c. split; [reflexivity|]. left. simpl. auto.
Qed.

Lemma aclose_gen s :
  yielded (gen (aclose s)) = yielded (gen s) /\
  has_sent_metadata (gen (aclose s)) = has_sent_metadata (gen s) /\
  (pc (gen (aclose s)) = pc (gen s) \/ pc (gen (aclose s)) = GenClosed) /\
  (forall c, pc (gen s) = GenAtMetadata c -> pc (gen (aclose s)) = GenClosed).
Proof.
  unfold aclose. destruct (pc (gen s)) eqn:Epc; simpl; rewrite ?Epc;
    repeat split; auto; discriminate.
Qed.

(** X6.  In every streaming run whose agent records no callback event,
    no metadata event is ever yielded; and once the generator has
    returned, the events are exactly the data events of the chunks, in
    order, and then the end event. *)
Theorem no_callback_no_metadata msgs r sched :
  callbacks_of (actions r) = [] ->
  count (named "metadata") (yielded (gen (run msgs r sched))) = 0 /\
  (pc (gen (run msgs r sched)) = GenReturned ->
   yielded (gen (run msgs r sched)) =
     map data_event (chunks_of (actions r)) ++ [end_event]).
Proof.
  intros Hcb.
  assert (H : has_sent_metadata (gen (run msgs r sched)) = false /\
              (forall c, pc (gen (run msgs r sched)) <> GenAtMetadata c) /\
              count (named "metadata") (yielded (gen (run msgs r sched))) = 0).
  { apply (run_invariant msgs r (fun s =>
      has_sent_metadata (gen s) = false /\
      (forall c, pc (gen s) <> GenAtMetadata c) /\
      count (named "metadata") (yielded (gen s)) = 0)).
    - simpl. repeat split. discriminate.
    - intros t s [Ht _] (Hf & Hpc & Hc). destruct t; simpl.
      + rewrite consume_astream_gen. auto.
      + destruct (aggregator_prefix r s Ht) as [rest Hagg].
        rewrite Hcb in Hagg. symmetry in Hagg.
        apply app_eq_nil in Hagg as [Hagg _].
        destruct (_stream_adds s)
          as [(c & Hc' & _)|[(c & _ & Hne & _)|(_ & Hpc' & _ & Hf' & Hy)]].
        * now destruct (Hpc c).
        * congruence.
        * split; [congruence|]. split; [exact Hpc'|].
          destruct Hy as [->|(x & -> & Hx & _)]; [exact Hc|].
          rewrite count_app, Hc, count_cons, Hx. reflexivity.
      + destruct (aclose_gen s) as (-> & -> & Hpc' & _).
        split; [exact Hf|]. split; [|exact Hc].
        intros c. destruct Hpc' as [-> | ->]; [apply Hpc|discriminate]. }
  destruct H as (Hf & _ & Hc). split; [exact Hc|].
  intros Hret.
  destruct (shape_at msgs r sched _ Hret) as (got & _ & Hs); [discriminate|].
  destruct Hs as [(b & _ & _ & _ & Hb & -> & _) _].
  rewrite Hf in Hb. destruct Hb as [-> _]. reflexivity.
Qed.

(** X7.  In every streaming run, a metadata event that was yielded
    carries the run identifier computed from callback events of this
    very run: from a beginning of the events the agent records, in
    their order, that is not empty. *)
Theorem metadata_from_callbacks msgs r sched e :
  In e (yielded (gen (run msgs r sched))) ->
  named "metadata" e = true ->
  exists evs rest,
    evs <> [] /\
    callbacks_of (actions r) = evs ++ rest /\
    e = metadata_event evs.
Proof.
  revert e. apply (run_invariant msgs r (fun s =>
    forall e, In e (yielded (gen s)) -> named "metadata" e = true ->
    exists evs rest,
      evs <> [] /\ callbacks_of (actions r) = evs ++ rest /\
      e = metadata_event evs)).
  - intros e [].
  - intros t s [Ht _] IH e. destruct t; simpl.
    + rewrite consume_astream_gen. apply IH.
    + destruct (_stream_adds s)
        as [(c & _ & [[-> _]|[-> _]])
           |[(c & _ & Hne & _ & -> & _)|(_ & _ & _ & _ & Hy)]].
      * intros Hin Hname. apply in_app_iff in Hin as [Hin|[<-|[]]];
          [now apply IH|discriminate].
      * apply IH.
      * intros Hin Hname. apply in_app_iff in Hin as [Hin|[<-|[]]];
          [now apply IH|].
        destruct (aggregator_prefix r s Ht) as [rest Hagg]. eauto.
      * destruct Hy as [->|(x & -> & Hx & _)]; [apply IH|].
        intros Hin Hname. apply in_app_iff in Hin as [Hin|[<-|[]]];
          [now apply IH|congruence].
    + destruct (aclose_gen s) as (-> & _). apply IH.
Qed.

Lemma snoc_two {A : Type} (l before after : list A) (x e y : A) :
  l ++ [x] = before ++ e :: y :: after ->
  (after = [] /\ l = before ++ [e] /\ x = y) \/
  (exists after', after = after' ++ [x] /\ l = before ++ e :: y :: after').
Proof.
  destruct after as [|z after _] using rev_ind; intros H.
  - left. change (before ++ [e; y]) with (before ++ [e] ++ [y]) in H.
    rewrite app_assoc in H. apply app_inj_tail in H as [-> ->]. auto.
  - right. change (before ++ e :: y :: after ++ [z])
      with (before ++ (e :: y :: after) ++ [z]) in H.
    rewrite app_assoc in H. apply app_inj_tail in H as [-> ->]. eauto.
Qed.

(** X8.  In every streaming run and at every moment of it, the event
    that comes right after a metadata event is a data event, the one of
    the chunk that made the generator yield the metadata: an error event
    or an end event never follows a metadata event directly.  And a
    metadata event is the last event only while the generator is
    suspended at it, when it was closed there, or when the serializer
    refused the chunk and so ended the generator. *)
Theorem metadata_followed_by_data msgs r sched :
  (forall before e x after,
     yielded (gen (run msgs r sched)) = before ++ e :: x :: after ->
     named "metadata" e = true -> named "data" x = true) /\
  (forall before e,
     yielded (gen (run msgs r sched)) = before ++ [e] ->
     named "metadata" e = true ->
     (exists c, pc (gen (run msgs r sched)) = GenAtMetadata c) \/
     pc (gen (run msgs r sched)) = GenClosed \/
     (exists c x, serializer_error c = Some x /\
                  pc (gen (run msgs r sched)) = GenRaised x)).
Proof.
  apply (run_invariant msgs r (fun s =>
    (forall before e x after,
       yielded (gen s) = before ++ e :: x :: after ->
       named "metadata" e = true -> named "data" x = true) /\
    (forall before e,
       yielded (gen s) = before ++ [e] -> named "metadata" e = true ->
       (exists c, pc (gen s) = GenAtMetadata c) \/ pc (gen s) = GenClosed \/
       (exists c x, serializer_error c = Some x /\ pc (gen s) = GenRaised x)))).
  - split; intros before; intros; destruct before; discriminate.
  - intros t s _ [IH1 IH2]. destruct t; simpl.
    + rewrite consume_astream_gen. now split.
    + assert (Hstays : forall c x,
        serializer_error c = Some x -> pc (gen s) = GenRaised x ->
        yielded (gen (_stream s)) = yielded (gen s) /\
        pc (gen (_stream s)) = GenRaised x).
      { intros c x _ Hpc. unfold _stream. now rewrite Hpc. }
      destruct (_stream_adds s)
        as [(c & Hpc & [[Hy Hpc']|[Hy (x & Hx & Hpc')]])
           |[(c & Hpc & _ & _ & Hy & _ & Hpc')
            |(Hpc & _ & Hcl & _ & Hy)]].
      * rewrite Hy, Hpc'. split.
        -- intros before e x after H He.
           apply snoc_two in H as [(_ & _ & <-)|(after' & _ & Hl)];
             [reflexivity|now apply (IH1 before e x after')].
        -- intros before e H He. apply app_inj_tail in H as [_ <-].
           discriminate.
      * rewrite Hy, Hpc'. split; [exact IH1|]. intros before e H He.
        right. right. exists c, x. auto.
      * rewrite Hy, Hpc'. split; [|eauto].
        intros before e x after H He.
        apply snoc_two in H as [(_ & Hl & _)|(after' & _ & Hl)];
          [|now apply (IH1 before e x after')].
        destruct (IH2 _ _ Hl He) as [[c' Hc]|[Hc|(c' & y & _ & Hc)]]; congruence.
      * destruct Hy as [Hy|(y & Hy & Hx & Hnc)]; rewrite Hy.
        -- split; [exact IH1|]. intros before e H He.
           destruct (IH2 _ _ H He) as [[c Hc]|[Hc|(c & x & Hx & Hc)]];
             [now destruct (Hpc c)|right; left; now apply Hcl|].
           right. right. exists c, x. split; [exact Hx|].
           now apply (Hstays c x).
        -- split.
           ++ intros before e x after H He.
              apply snoc_two in H as [(_ & Hl & _)|(after' & _ & Hl)];
                [|now apply (IH1 before e x after')].
              destruct (IH2 _ _ Hl He) as [[c Hc]|[Hc|(c & z & Hz & Hc)]];
                [now destruct (Hpc c)|contradiction|].
              destruct (Hstays c z Hz Hc) as [Hsame _].
              rewrite Hsame in Hy. apply (f_equal (@length _)) in Hy.
              rewrite List.length_app in Hy. simpl in Hy. lia.
           ++ intros before e H He. apply app_inj_tail in H as [_ <-].
              congruence.
    + destruct (aclose_gen s) as (Hy & _ & Hpc' & Hmeta). rewrite Hy.
      split; [exact IH1|]. intros before e H He.
      destruct (IH2 _ _ H He) as [[c Hc]|[Hc|(c & x & Hx & Hc)]].
      * right. left. now apply (Hmeta c).
      * right. left. destruct Hpc' as [Hpc'|Hpc']; congruence.
      * right. right. exists c, x. split; [exact Hx|].
        unfold aclose. now rewrite Hc.
Qed.

(** ** The events do not depend on the interleaving *)

Lemma outcome_app (cs k : list chunk) closing :
  forallb plain cs = true ->
  outcome (cs ++ k) closing = map data_event cs ++ outcome k closing.
Proof.
  induction cs as [|c cs IH]; [reflexivity|]. simpl. unfold plain at 1.
  destruct (chunk_exception c); [discriminate|].
  destruct (serializer_error c); [discriminate|].
  intros H. now rewrite IH.
Qed.

Lemma outcome_plain (cs : list chunk) closing :
  forallb plain cs = true ->
  outcome cs closing = map data_event cs ++ closing.
Proof.
  intros H. rewrite <- (app_nil_r cs) at 1. now rewrite outcome_app.
Qed.

Lemma filter_body early flag cs b :
  body early flag cs b ->
  List.filter (fun ev => negb (named "metadata" ev)) b = map data_event cs.
Proof.
  intros H. apply body_flat in H as (pre & md & post & -> & -> & Hmd & _).
  rewrite !List.filter_app, !filter_data_events, map_app.
  destruct Hmd as [->|(evs & _ & -> & _)]; reflexivity.
Qed.

(** The events of a run that is over, the metadata event left aside,
    are those of the chunks up to the first that stops the generator,
    and the closing event of the run if none does: the error event when
    the task puts the exception on the stream, the end event
    otherwise. *)
Lemma finished_events msgs r sched :
  finished (pc (gen (run msgs r sched))) = true ->
  List.filter (fun ev => negb (named "metadata" ev))
    (yielded (gen (run msgs r sched))) =
  outcome (chunks_of (actions r))
    [match marker (chunk:=chunk) (ending r) with
     | [] => end_event
     | _ :: _ => error_event
     end].
Proof.
  intros Hfin. destruct (run_inv_run msgs r sched) as [Ht _].
  assert (Hended : forall n got,
    ended r n (gen (run msgs r sched)) got ->
    List.filter (fun ev => negb (named "metadata" ev))
      (yielded (gen (run msgs r sched))) =
    outcome (chunks_of (actions r))
      [match marker (chunk:=chunk) (ending r) with
       | [] => end_event
       | _ :: _ => error_event
       end]).
  { intros n got (b & _ & -> & Hpl & Hb & -> & _).
    rewrite (outcome_plain _ _ Hpl), List.filter_app, (filter_body _ _ _ _ Hb).
    reflexivity. }
  destruct (pc (gen (run msgs r sched))) eqn:Epc; try discriminate;
    destruct (shape_at msgs r sched _ Epc) as (got & Hbuf & Hs);
    try discriminate.
  - destruct Hs as [Hs _]. now apply (Hended 1 got).
  - destruct Hs as [Hs|[[Hs _]|Hs]]; [|now apply (Hended 1 got)|].
    + apply (failed_source r _ got e Ht Hbuf) in Hs
        as (cs & b & Hpl & Hb & -> & _ & [(c & rest & -> & Hc)|[-> ->]]).
      * rewrite (outcome_app _ _ _ Hpl), List.filter_app, (filter_body _ _ _ _ Hb).
        simpl. now rewrite Hc.
      * rewrite (outcome_plain _ _ Hpl), List.filter_app,
          (filter_body _ _ _ _ Hb).
        reflexivity.
    + apply (crashed_source r _ got e Ht Hbuf) in Hs
        as (cs & c & rest & -> & Hpl & Hnx & Hse & _ & Hy).
      rewrite (outcome_app _ _ _ Hpl). simpl. rewrite Hnx, Hse, app_nil_r.
      destruct Hy as [Hb|(evs & _ & _ & ->)];
        [now apply (filter_body _ _ _ _ Hb)|].
      rewrite List.filter_app, filter_data_events. simpl. now rewrite app_nil_r.
Qed.

(** X16.  Two executions of the same streaming run, each driven until
    the generator is over, whatever their interleavings of task and
    generator, yield the same events, the metadata event left aside:
    only the presence, the place and the run identifier of the metadata
    event depend on the interleaving. *)
Theorem events_independent_of_interleaving msgs r sched1 sched2 :
  finished (pc (gen (run msgs r sched1))) = true ->
  finished (pc (gen (run msgs r sched2))) = true ->
  List.filter (fun ev => negb (named "metadata" ev))
    (yielded (gen (run msgs r sched1))) =
  List.filter (fun ev => negb (named "metadata" ev))
    (yielded (gen (run msgs r sched2))).
Proof.
  intros H1 H2.
  now rewrite (finished_events msgs r sched1 H1), (finished_events msgs r sched2 H2).
Qed.

End StreamingFacts.

(** * Facts about the endpoint *)

Section EndpointFacts.

Context {chunk callback_event schema : Type}.
Variable serializer_dumps : chunk -> string.
Variable _get_base_run_id_as_str : list callback_event -> string.
Variable orjson_dumps : pyval -> string.
Variable serializer_error : chunk -> option py_exception.
Variable chunk_exception : chunk -> option py_exception.
Variable json_loads : string -> py_error + pyval.
Variable get_assistant : string -> pyval -> py_error + pyval.
Variable get_thread_messages : string -> pyval -> py_error + pyval.
Variable get_input_schema : pyval -> py_error + schema.
Variable validate : schema -> pyval -> py_error + pyval.
Variable _unpack_input : pyval -> pyval.
Variable agent_astream : pyval -> pyval -> agent_run chunk callback_event.
Variable agent_ainvoke : pyval -> pyval -> option py_exception.
Variable assistant_fails_first : bool.

Local Abbreviation create_run_endpoint :=
  (create_run_endpoint json_loads get_assistant get_thread_messages
     get_input_schema validate _unpack_input agent_astream
     assistant_fails_first).
Local Abbreviation serve :=
  (serve json_loads get_assistant get_thread_messages get_input_schema
     validate _unpack_input agent_astream agent_ainvoke
     assistant_fails_first).
Local Abbreviation run :=
  (run serializer_dumps _get_base_run_id_as_str orjson_dumps
     serializer_error chunk_exception).

Implicit Types (request : Request) (uid : string).

Local Abbreviation resolved :=
  (resolved json_loads get_assistant get_thread_messages).
Local Abbreviation validated :=
  (validated get_input_schema validate _unpack_input).

Ltac unfold_endpoint :=
  unfold create_run_endpoint, bind, try_except, lift, perform, ret,
    raise, gather.

(** The configuration that comes out of [attach_user_id_to_config] is a
    dictionary. *)
Lemma attach_user_id_to_config_dict display request config :
  attach_user_id_to_config display request = inr config ->
  exists d, config = PDict d.
Proof.
  unfold attach_user_id_to_config, setitem, subscript.
  repeat (case_match; simplify_eq); intros; simplify_eq; eauto.
Qed.

Lemma subscript_dict d k v :
  subscript (PDict d) k = inr v -> d !! k = Some v.
Proof.
  unfold subscript. destruct (d !! k); intros; simplify_eq. reflexivity.
Qed.

(** C6, as the code has it.  A request whose body [json.loads] rejects
    with [JSONDecodeError] is answered with the request validation error
    for an invalid JSON body, and nothing at all was started.  A request
    whose input the schema's [validate] rejects with [ValidationError],
    the endpoint having got as far as the validation (the body has both
    identifiers, the two lookups and the assembly of the configuration
    succeeded, and [get_input_schema] returned), is answered with a
    request validation error carrying the errors of the schema and the
    body; only the two storage lookups were started.  And whatever the
    exception the endpoint raises, neither [asyncio.create_task] nor
    [add_task] was reached before it. *)
Theorem invalid_request_starts_no_task request uid :
  (json_loads (raw_body request) = inl JSONDecodeError ->
   create_run_endpoint request uid [] =
     (inl (RequestValidationError [PStr "Invalid JSON body"] None), [])) /\
  (forall body aid tid state config sch raw errors,
     resolved request uid body aid tid state config ->
     get_input_schema config = inr sch ->
     subscript body "input" = inr raw ->
     validate sch raw = inl (ValidationError errors) ->
     create_run_endpoint request uid [] =
       (inl (RequestValidationError errors (Some body)),
        [RunInExecutor "get_assistant" [PStr uid; aid];
         RunInExecutor "get_thread_messages" [PStr uid; tid]])) /\
  (forall e log,
     create_run_endpoint request uid [] = (inl e, log) ->
     count starts_task log = 0).
Proof.
  split; [|split].
  - intros Hj. unfold_endpoint. now rewrite Hj.
  - intros body aid tid state config sch raw errors
      (Hj & Ha & Ht & assistant & display & Hga & Hgt & Hd & Hc) Hs Hi Hv.
    unfold_endpoint. rewrite Hj. simpl. rewrite Ha. simpl. rewrite Ht. simpl.
    rewrite Hga, Hgt. simpl. rewrite Hd, Hc, Hs, Hi, Hv. reflexivity.
  - intros e log. unfold_endpoint.
    repeat (case_match; simpl in *; simplify_eq); intros; simplify_eq;
      reflexivity.
Qed.

(** C7.  For every request that went through the validation and whose
    [stream] is false, the endpoint queues one [agent.ainvoke] with
    [add_task], creates no task, and returns the dictionary with the one
    key [status] and the value [ok], which has no run identifier.  The
    response goes out before the invocation runs, and is the same
    whatever the invocation does. *)
Theorem non_streaming_run_acknowledged request uid body aid tid state config
    input_ flag :
  resolved request uid body aid tid state config ->
  validated config body input_ ->
  subscript body "stream" = inr flag ->
  truthy flag = false ->
  create_run_endpoint request uid [] =
    (inr (JsonResponse (PDict {[ "status" := PStr "ok" ]})),
     [RunInExecutor "get_assistant" [PStr uid; aid];
      RunInExecutor "get_thread_messages" [PStr uid; tid];
      AddTask input_ config]) /\
  subscript (PDict {[ "status" := PStr "ok" ]}) "run_id" = inl (KeyError "run_id") /\
  serve request uid =
    [Responded (JsonResponse (PDict {[ "status" := PStr "ok" ]}));
     Invoked (agent_ainvoke input_ config)].
Proof.
  intros (Hj & Ha & Ht & assistant & display & Hga & Hgt & Hd & Hc)
    (sch & raw & valid & Hs & Hi & Hv & ->) Hf Htr.
  assert (H : create_run_endpoint request uid [] =
    (inr (JsonResponse (PDict {[ "status" := PStr "ok" ]})),
     [RunInExecutor "get_assistant" [PStr uid; aid];
      RunInExecutor "get_thread_messages" [PStr uid; tid];
      AddTask (_unpack_input valid) config])).
  { unfold_endpoint. rewrite Hj. simpl. rewrite Ha. simpl. rewrite Ht. simpl.
    rewrite Hga, Hgt. simpl. rewrite Hd, Hc, Hs, Hi, Hv, Hf, Htr. reflexivity. }
  split; [exact H|]. split; [reflexivity|].
  unfold serve. now rewrite H.
Qed.

(** C8.  For every request that went through the validation and whose
    [stream] is true, with the messages [prior] in the thread and the
    messages [new] in the input, the endpoint builds the handler from
    [prior] followed by [new], in this order, and returns the stream of
    a run around this handler; and whatever the turns of this run, the
    handler still holds these messages. *)
Theorem streamer_gets_full_history request uid body aid tid state config
    input_ flag prior new :
  resolved request uid body aid tid state config ->
  validated config body input_ ->
  subscript body "stream" = inr flag ->
  truthy flag = true ->
  subscript state "messages" = inr (PList prior) ->
  subscript input_ "messages" = inr (PList new) ->
  exists config',
    setitem config "callbacks"
      (PList [PObject "streamer"; PObject "event_aggregator"]) = inr config' /\
    create_run_endpoint request uid [] =
      (inr (EventSourceResponse (new_handler (PList (prior ++ new)))
              (agent_astream input_ config')),
       [RunInExecutor "get_assistant" [PStr uid; aid];
        RunInExecutor "get_thread_messages" [PStr uid; tid];
        CreateTask input_ config']) /\
    forall sched,
      messages (streamer (run (PList (prior ++ new))
                            (agent_astream input_ config') sched)) =
      PList (prior ++ new).
Proof.
  intros (Hj & Ha & Ht & assistant & display & Hga & Hgt & Hd & Hc)
    (sch & raw & valid & Hs & Hi & Hv & ->) Hf Htr Hp Hn.
  destruct (attach_user_id_to_config_dict _ _ _ Hc) as [d ->].
  eexists. split; [reflexivity|]. split.
  - unfold_endpoint. rewrite Hj. simpl. rewrite Ha. simpl. rewrite Ht. simpl.
    rewrite Hga, Hgt. simpl. rewrite Hd, Hc, Hs, Hi, Hv, Hf, Htr. simpl.
    rewrite Hp, Hn. reflexivity.
  - intros sched. apply messages_run.
Qed.

(** C10, as the code has it.  For every request whose body is a JSON
    object: without the key [assistant_id] the endpoint raises the key
    error of [assistant_id], before anything was started; with it and
    without [thread_id], the key error of [thread_id], the first lookup
    being started; when the lookups returned and the configuration was
    put together, without [input] the key error of [input]; and when
    the input also went through the validation, without [stream] the
    key error of [stream]. *)
Theorem missing_key_raises_KeyError request uid body :
  json_loads (raw_body request) = inr (PDict body) ->
  (body !! "assistant_id" = None ->
   create_run_endpoint request uid [] = (inl (KeyError "assistant_id"), [])) /\
  (forall aid,
     body !! "assistant_id" = Some aid ->
     body !! "thread_id" = None ->
     create_run_endpoint request uid [] =
       (inl (KeyError "thread_id"),
        [RunInExecutor "get_assistant" [PStr uid; aid]])) /\
  (forall aid tid state config sch,
     resolved request uid (PDict body) aid tid state config ->
     get_input_schema config = inr sch ->
     body !! "input" = None ->
     create_run_endpoint request uid [] =
       (inl (KeyError "input"),
        [RunInExecutor "get_assistant" [PStr uid; aid];
         RunInExecutor "get_thread_messages" [PStr uid; tid]])) /\
  (forall aid tid state config input_,
     resolved request uid (PDict body) aid tid state config ->
     validated config (PDict body) input_ ->
     body !! "stream" = None ->
     create_run_endpoint request uid [] =
       (inl (KeyError "stream"),
        [RunInExecutor "get_assistant" [PStr uid; aid];
         RunInExecutor "get_thread_messages" [PStr uid; tid]])).
Proof.
  intros Hj. split; [|split; [|split]].
  - intros Hk. unfold_endpoint. rewrite Hj. simpl. now rewrite Hk.
  - intros aid Ha Hk. unfold_endpoint. rewrite Hj. simpl. rewrite Ha. simpl.
    now rewrite Hk.
  - intros aid tid state config sch
      (_ & Ha & Ht & assistant & display & Hga & Hgt & Hd & Hc) Hs Hk.
    apply subscript_dict in Ha, Ht.
    unfold_endpoint. rewrite Hj. simpl. rewrite Ha. simpl. rewrite Ht. simpl.
    rewrite Hga, Hgt. simpl. rewrite Hd, Hc, Hs. simpl. now rewrite Hk.
  - intros aid tid state config input_
      (_ & Ha & Ht & assistant & display & Hga & Hgt & Hd & Hc)
      (sch & raw & valid & Hs & Hi & Hv & ->) Hk.
    apply subscript_dict in Ha, Ht, Hi.
    unfold_endpoint. rewrite Hj. simpl. rewrite Ha. simpl. rewrite Ht. simpl.
    rewrite Hga, Hgt. simpl. rewrite Hd, Hc, Hs. simpl. rewrite Hi. simpl.
    rewrite Hv. simpl. now rewrite Hk.
Qed.

(** ** More on the endpoint *)

(** X9.  [attach_user_id_to_config] raises the key error of the cookie
    when the request has no [opengpts_user_id] cookie, whatever the
    configuration.  It returns exactly when the cookie is there and the
    configuration is a dictionary whose [configurable] is a dictionary,
    and then with the cookie put under [user_id] there and nothing else
    changed.  Applied to its own result it changes nothing. *)
Theorem attach_user_id_to_config_sets_user_id config request :
  (cookies request !! "opengpts_user_id" = None ->
   attach_user_id_to_config config request =
     inl (KeyError "opengpts_user_id")) /\
  (forall config',
     attach_user_id_to_config config request = inr config' <->
     exists user_id d c,
       cookies request !! "opengpts_user_id" = Some user_id /\
       config = PDict d /\
       d !! "configurable" = Some (PDict c) /\
       config' =
         PDict (<[ "configurable" :=
                   PDict (<[ "user_id" := PStr user_id ]> c) ]> d)) /\
  (forall config',
     attach_user_id_to_config config request = inr config' ->
     attach_user_id_to_config config' request = inr config').
Proof.
  assert (Hiff : forall config',
    attach_user_id_to_config config request = inr config' <->
    exists user_id d c,
      cookies request !! "opengpts_user_id" = Some user_id /\
      config = PDict d /\
      d !! "configurable" = Some (PDict c) /\
      config' =
        PDict (<[ "configurable" :=
                  PDict (<[ "user_id" := PStr user_id ]> c) ]> d)).
  { intros config'. unfold attach_user_id_to_config, subscript, setitem. split.
    - repeat (case_match; simplify_eq); intros; simplify_eq. eauto 8.
    - intros (user_id & d & c & -> & -> & -> & ->). reflexivity. }
  split; [|split; [exact Hiff|]].
  - intros H. unfold attach_user_id_to_config. now rewrite H.
  - intros config' H. apply Hiff in H as (user_id & d & c & Hu & -> & Hc & ->).
    unfold attach_user_id_to_config, subscript, setitem.
    rewrite Hu, lookup_insert_eq, !insert_insert_eq. reflexivity.
Qed.

(** X10.  When the endpoint has put the configuration together, its
    [configurable] holds the thread and assistant identifiers of the
    body and the user identifier of the cookie, whatever the stored
    assistant had under these three keys; every other key of the stored
    [configurable], and every other key of the stored configuration, is
    as it was stored. *)
Theorem request_ids_override_stored assistant body request display config :
  config_display assistant body = inr display ->
  attach_user_id_to_config display request = inr config ->
  exists stored stored_c d c thread_id assistant_id user_id,
    subscript assistant "config" = inr (PDict stored) /\
    stored !! "configurable" = Some (PDict stored_c) /\
    subscript body "thread_id" = inr thread_id /\
    subscript body "assistant_id" = inr assistant_id /\
    cookies request !! "opengpts_user_id" = Some user_id /\
    config = PDict d /\
    d !! "configurable" = Some (PDict c) /\
    c !! "thread_id" = Some thread_id /\
    c !! "assistant_id" = Some assistant_id /\
    c !! "user_id" = Some (PStr user_id) /\
    (forall k, k <> "thread_id" -> k <> "assistant_id" -> k <> "user_id" ->
       c !! k = stored_c !! k) /\
    (forall k, k <> "configurable" -> d !! k = stored !! k).
Proof.
  unfold config_display, attach_user_id_to_config, unpack.
  destruct (subscript assistant "config") as [e|c1] eqn:Ec1; [discriminate|].
  destruct c1 as [| | | | |stored|]; try discriminate.
  simpl. destruct (stored !! "configurable") as [cc|] eqn:Ecc; [|discriminate].
  destruct cc as [| | | | |stored_c|]; try discriminate.
  destruct (subscript body "thread_id") as [e|thread_id] eqn:Et; [discriminate|].
  destruct (subscript body "assistant_id") as [e|assistant_id] eqn:Ea;
    [discriminate|].
  intros Hd. injection Hd as <-.
  destruct (cookies request !! "opengpts_user_id") as [user_id|] eqn:Eu;
    [|discriminate].
  simpl. rewrite lookup_insert_eq. simpl. intros Hc. injection Hc as <-.
  eexists stored, stored_c, _, _, thread_id, assistant_id, user_id.
  split; [reflexivity|]. split; [exact Ecc|]. split; [reflexivity|].
  split; [reflexivity|]. split; [reflexivity|]. split; [reflexivity|].
  split; [apply lookup_insert_eq|].
  split; [now rewrite lookup_insert_ne, lookup_insert_ne, lookup_insert_eq|].
  split; [now rewrite lookup_insert_ne, lookup_insert_eq|].
  split; [apply lookup_insert_eq|]. split.
  - intros k H1 H2 H3. now rewrite !lookup_insert_ne.
  - intros k H. now rewrite !lookup_insert_ne.
Qed.

(** X11.  Whenever the endpoint returns, it has started the two storage
    lookups and then exactly one task, and nothing else: a task created
    around the agent's [astream] when it returns an event stream, whose
    handler is new and whose stream is empty and open; an invocation
    queued with [add_task] when it returns a JSON body, which is then
    the dictionary of [status] and [ok]. *)
Theorem one_task_per_response request uid resp log :
  create_run_endpoint request uid [] = (inr resp, log) ->
  exists aid tid input_ config,
    match resp with
    | EventSourceResponse h a =>
        log = [RunInExecutor "get_assistant" [PStr uid; aid];
               RunInExecutor "get_thread_messages" [PStr uid; tid];
               CreateTask input_ config] /\
        a = agent_astream input_ config /\
        stream h = {| sent := []; buffer := []; closed := false |}
    | JsonResponse v =>
        log = [RunInExecutor "get_assistant" [PStr uid; aid];
               RunInExecutor "get_thread_messages" [PStr uid; tid];
               AddTask input_ config] /\
        v = PDict {[ "status" := PStr "ok" ]}
    end.
Proof.
  unfold_endpoint.
  repeat (case_match; simpl in *; simplify_eq); intros; simplify_eq;
    eexists _, _, _, _; repeat split.
Qed.

(** X12.  When the body has both identifiers and a storage lookup
    raises, the endpoint raises the exception of that lookup, and of
    the one that raised first when both do; both lookups were started,
    the second also when the first is the one that raises, and nothing
    else. *)
Theorem failed_lookup_rejects request uid body aid tid :
  json_loads (raw_body request) = inr body ->
  subscript body "assistant_id" = inr aid ->
  subscript body "thread_id" = inr tid ->
  (forall e state,
     get_assistant uid aid = inl e ->
     get_thread_messages uid tid = inr state ->
     create_run_endpoint request uid [] =
       (inl e, [RunInExecutor "get_assistant" [PStr uid; aid];
                RunInExecutor "get_thread_messages" [PStr uid; tid]])) /\
  (forall assistant e,
     get_assistant uid aid = inr assistant ->
     get_thread_messages uid tid = inl e ->
     create_run_endpoint request uid [] =
       (inl e, [RunInExecutor "get_assistant" [PStr uid; aid];
                RunInExecutor "get_thread_messages" [PStr uid; tid]])) /\
  (forall e1 e2,
     get_assistant uid aid = inl e1 ->
     get_thread_messages uid tid = inl e2 ->
     create_run_endpoint request uid [] =
       (inl (if assistant_fails_first then e1 else e2),
        [RunInExecutor "get_assistant" [PStr uid; aid];
         RunInExecutor "get_thread_messages" [PStr uid; tid]])).
Proof.
  intros Hj Ha Ht.
  split; [|split]; intros ? ? H1 H2; unfold_endpoint;
    rewrite Hj; simpl; rewrite Ha; simpl; rewrite Ht; simpl;
    rewrite H1, H2; reflexivity.
Qed.

(** X13.  The two [except] clauses of the endpoint take exactly their
    own exception.  What [json.loads] raises, unless it is the JSON
    decoding error, is raised as it is, and nothing was started.  What
    is raised between the [try] and the [except] of the validation (by
    [get_input_schema], by the subscript of the body, by [validate]) is
    turned into the request validation error with the body when it is a
    validation error, and is raised as it is otherwise. *)
Theorem except_clauses_take_their_own request uid :
  (forall e,
     json_loads (raw_body request) = inl e ->
     e <> JSONDecodeError ->
     create_run_endpoint request uid [] = (inl e, [])) /\
  (forall body aid tid state config e,
     resolved request uid body aid tid state config ->
     get_input_schema config = inl e \/
     (exists sch,
        get_input_schema config = inr sch /\
        (subscript body "input" = inl e \/
         exists raw, subscript body "input" = inr raw /\
                     validate sch raw = inl e)) ->
     create_run_endpoint request uid [] =
       (inl match e with
            | ValidationError errors => RequestValidationError errors (Some body)
            | _ => e
            end,
        [RunInExecutor "get_assistant" [PStr uid; aid];
         RunInExecutor "get_thread_messages" [PStr uid; tid]])).
Proof.
  split.
  - intros e Hj He. unfold_endpoint. rewrite Hj. now destruct e.
  - intros body aid tid state config e
      (Hj & Ha & Ht & assistant & display & Hga & Hgt & Hd & Hc) Hraise.
    unfold_endpoint. rewrite Hj. simpl. rewrite Ha. simpl. rewrite Ht. simpl.
    rewrite Hga, Hgt. simpl. rewrite Hd, Hc.
    destruct Hraise as [Hs|(sch & Hs & [Hi|(raw & Hi & Hv)])];
      rewrite Hs, ?Hi, ?Hv; now destruct e.
Qed.

(** X14.  A streaming request that went through the validation gets no
    handler and no task when the stored thread has no [messages], when
    the unpacked input has none, or when the two cannot be added: the
    endpoint raises what the subscript or the addition raises, with
    only the two lookups started. *)
Theorem stream_needs_both_messages request uid body aid tid state config
    input_ flag :
  resolved request uid body aid tid state config ->
  validated config body input_ ->
  subscript body "stream" = inr flag ->
  truthy flag = true ->
  (forall e,
     subscript state "messages" = inl e ->
     create_run_endpoint request uid [] =
       (inl e, [RunInExecutor "get_assistant" [PStr uid; aid];
                RunInExecutor "get_thread_messages" [PStr uid; tid]])) /\
  (forall prior e,
     subscript state "messages" = inr prior ->
     subscript input_ "messages" = inl e ->
     create_run_endpoint request uid [] =
       (inl e, [RunInExecutor "get_assistant" [PStr uid; aid];
                RunInExecutor "get_thread_messages" [PStr uid; tid]])) /\
  (forall prior new e,
     subscript state "messages" = inr prior ->
     subscript input_ "messages" = inr new ->
     py_add prior new = inl e ->
     create_run_endpoint request uid [] =
       (inl e, [RunInExecutor "get_assistant" [PStr uid; aid];
                RunInExecutor "get_thread_messages" [PStr uid; tid]])).
Proof.
  intros (Hj & Ha & Ht & assistant & display & Hga & Hgt & Hd & Hc)
    (sch & raw & valid & Hs & Hi & Hv & ->) Hf Htr.
  split; [|split]; intros; unfold_endpoint;
    rewrite Hj; simpl; rewrite Ha; simpl; rewrite Ht; simpl;
    rewrite Hga, Hgt; simpl; rewrite Hd, Hc, Hs, Hi, Hv, Hf, Htr; simpl;
    repeat match goal with H : _ = _ |- _ => rewrite H; simpl end;
    reflexivity.
Qed.

End EndpointFacts.

(** * Facts about the public assistants *)

Section PublicAssistantsFacts.

Context {assistants : Type}.
Variable list_public_assistants : list string -> assistants.

(** X15.  Whatever [shared_id] is, the endpoint asks for the two
    featured assistants first, in their order, and for at most one more:
    the shared identifier, when there is one and it is not the empty
    string.  With an empty [shared_id] the endpoint returns what it
    returns with none. *)
Theorem featured_assistants_always_listed shared_id :
  firstn 2 (public_assistant_ids shared_id) = FEATURED_PUBLIC_ASSISTANTS /\
  length (public_assistant_ids shared_id) <= 3 /\
  (forall id,
     In id (public_assistant_ids shared_id) <->
     In id FEATURED_PUBLIC_ASSISTANTS \/ (shared_id = Some id /\ id <> "")) /\
  list_public_assistants_endpoint list_public_assistants (Some "") =
    list_public_assistants_endpoint list_public_assistants None.
Proof.
  unfold list_public_assistants_endpoint, public_assistant_ids.
  destruct shared_id as [id|]; [destruct (String.eqb_spec id "") as [->|Hne]|];
    (split; [reflexivity|]); (split; [simpl; lia|]);
    (split; [|reflexivity]); intros x; rewrite in_app_iff; simpl.
  - split; [intros [H|[]]; now left|intros [H|[H1 H2]]; [now left|]].
    injection H1 as <-. contradiction.
  - split; [intros [H|[<-|[]]]; auto|intros [H|[H1 H2]]; [now left|]].
    injection H1 as ->. right. now left.
  - split; [intros [H|[]]; now left|intros [H|[H1 _]]; [now left|discriminate]].
Qed.

End PublicAssistantsFacts.

(** * The facts at concrete runs and requests *)

Module Checks.

Import Example.

(** ** Streaming runs *)

(** The scenario of the specification: the agent yields A and B and
    succeeds; the aggregator saw nothing. *)
Example two_chunks_events :
  yielded (gen (stream_run two_chunks (task_then_pulls 4 4))) =
  [data_event dumps "A"; data_event dumps "B"; end_event].
Proof. reflexivity. Qed.

Lemma stream_completes_witness :
  ending late_callback = Completes /\
  forallb (plain accepted no_exception) (chunks_of (actions late_callback)) = true /\
  count (is_turn Disconnect) [RunTask; PullEvent] = 0 /\
  (exists more,
     pc (gen (stream_run late_callback ([RunTask; PullEvent] ++ more))) =
     GenReturned) /\
  pc (gen (stream_run late_callback (alternating 5))) = GenReturned /\
  observed_run late_callback (alternating 5) =
    [("A", [])] ++ ("B", ["run-1"]) :: [] /\
  forallb quiet [("A", @nil string)] = true /\
  ["run-1"] <> [] /\
  yielded (gen (stream_run late_callback (alternating 5))) =
    [data_event dumps "A"; metadata_event run_id orjson ["run-1"];
     data_event dumps "B"; end_event] /\
  awaits (gen (stream_run late_callback (alternating 5))) = 1 /\
  task (stream_run late_callback (alternating 5)) = TaskDone None.
Proof.
  destruct (stream_completes dumps run_id orjson accepted no_exception PNone
              late_callback eq_refl) as [Hcan Hevents].
  destruct (Hevents (alternating 5) eq_refl)
    as (_ & _ & _ & _ & Hplace & _ & Haw & Htask).
  split; [reflexivity|]. split; [reflexivity|]. split; [reflexivity|].
  split; [apply Hcan; reflexivity|]. split; [reflexivity|].
  split; [reflexivity|]. split; [reflexivity|]. split; [discriminate|].
  split; [|split; [exact Haw|exact Htask]].
  apply (Hplace [("A", [])] "B" ["run-1"] []); [reflexivity|reflexivity|discriminate].
Defined.

(** The first callback event comes after the first chunk: the run is
    graceful and complete, and its metadata event is the second event. *)
Lemma stream_completes_counterexample :
  ending late_callback = Completes /\
  pc (gen (stream_run late_callback (alternating 5))) = GenReturned /\
  ~ metadata_then_data_then_end dumps run_id orjson
      (chunks_of (actions late_callback))
      (yielded (gen (stream_run late_callback (alternating 5)))).
Proof.
  split; [reflexivity|]. split; [reflexivity|].
  intros (md & [->|[evs ->]] & H); vm_compute in H; discriminate.
Qed.

Lemma stream_fails_witness :
  ending timeout_after_A = Raises timeout_error /\
  exc_is_Exception timeout_error = true /\
  forallb (plain accepted no_exception) (chunks_of (actions timeout_after_A)) =
    true /\
  count (is_turn Disconnect) [RunTask; PullEvent] = 0 /\
  (exists more,
     pc (gen (stream_run timeout_after_A ([RunTask; PullEvent] ++ more))) =
     GenRaised timeout_error) /\
  finished (pc (gen (stream_run timeout_after_A (task_then_pulls 3 3)))) = true /\
  pc (gen (stream_run timeout_after_A (task_then_pulls 3 3))) =
    GenRaised timeout_error /\
  List.filter (fun ev => negb (named "metadata" ev))
    (yielded (gen (stream_run timeout_after_A (task_then_pulls 3 3)))) =
    map (data_event dumps) (chunks_of (actions timeout_after_A))
      ++ [error_event orjson] /\
  last (yielded (gen (stream_run timeout_after_A (task_then_pulls 3 3)))) =
    Some (error_event orjson) /\
  data (error_event orjson) =
    Some (orjson (PDict {[ "status_code" := PInt 500;
                           "message" := PStr "Internal Server Error" ]})) /\
  count (named "data")
    (yielded (gen (stream_run timeout_after_A (task_then_pulls 3 3)))) =
    length (chunks_of (actions timeout_after_A)) /\
  count (named "error")
    (yielded (gen (stream_run timeout_after_A (task_then_pulls 3 3)))) = 1 /\
  count (named "end")
    (yielded (gen (stream_run timeout_after_A (task_then_pulls 3 3)))) = 0 /\
  (forall e', exc_is_Exception e' = true ->
     yielded (gen (run dumps run_id orjson accepted no_exception PNone
                     {| actions := actions timeout_after_A; ending := Raises e' |}
                     (task_then_pulls 3 3))) =
     yielded (gen (stream_run timeout_after_A (task_then_pulls 3 3)))).
Proof.
  destruct (stream_fails dumps run_id orjson accepted no_exception PNone
              timeout_after_A timeout_error eq_refl eq_refl eq_refl)
    as [Hcan Hevents].
  split; [reflexivity|]. split; [reflexivity|]. split; [reflexivity|].
  split; [reflexivity|].
  split; [apply Hcan; reflexivity|]. split; [reflexivity|].
  apply Hevents. reflexivity.
Defined.

(** The agent is cancelled after the chunk A: what is raised in it is no
    instance of [Exception], the task sends no marker, and the events
    are the data event and the end event, with no error event.  And
    where the serializer refuses the chunk B, the generator is over
    after the data event of A, with no error event either. *)
Lemma stream_fails_counterexample :
  (ending Sample.cancelled_after_A = Raises Sample.cancelled /\
   finished (pc (gen (stream_run Sample.cancelled_after_A (task_then_pulls 3 3)))) =
     true /\
   yielded (gen (stream_run Sample.cancelled_after_A (task_then_pulls 3 3))) =
     [data_event dumps "A"; end_event] /\
   count (named "error")
     (yielded (gen (stream_run Sample.cancelled_after_A (task_then_pulls 3 3)))) = 0 /\
   count (named "end")
     (yielded (gen (stream_run Sample.cancelled_after_A (task_then_pulls 3 3)))) = 1) /\
  (ending Sample.timeout_after_A_B = Raises timeout_error /\
   length (chunks_of (actions Sample.timeout_after_A_B)) = 2 /\
   finished (pc (gen (run dumps run_id orjson Sample.refuses_B no_exception PNone
                        Sample.timeout_after_A_B (task_then_pulls 4 4)))) = true /\
   yielded (gen (run dumps run_id orjson Sample.refuses_B no_exception PNone
                   Sample.timeout_after_A_B (task_then_pulls 4 4))) =
     [data_event dumps "A"]).
Proof.
  repeat split; reflexivity.
Qed.

(** A chunk, then the first callback event, then a chunk: a data event
    comes before the metadata event. *)
Lemma metadata_at_most_once_counterexample :
  ~ metadata_precedes_data
      (yielded (gen (stream_run late_callback (alternating 5)))).
Proof.
  intros H.
  specialize (H [data_event dumps "A"] (metadata_event run_id orjson ["run-1"])
                [data_event dumps "B"; end_event] eq_refl eq_refl).
  inversion H as [|x l Hx _]. discriminate.
Qed.

Lemma metadata_at_most_once_witness :
  count (named "metadata")
    (yielded (gen (stream_run late_callback (alternating 5)))) <= 1 /\
  observed_run late_callback (alternating 5) =
    [("A", [])] ++ ("B", ["run-1"]) :: [] /\
  forallb quiet [("A", @nil string)] = true /\
  ["run-1"] <> [] /\
  (exists rest,
     yielded (gen (stream_run late_callback (alternating 5))) =
       map (data_event dumps) (map fst [("A", @nil string)]) ++
       metadata_event run_id orjson ["run-1"] :: rest /\
     count (named "metadata") rest = 0) /\
  callback_first (actions callback_then_chunks) = true /\
  Forall (fun o => quiet o = false)
    (observed_run callback_then_chunks (task_then_pulls 5 6)) /\
  (forall before e after,
     yielded (gen (stream_run callback_then_chunks (task_then_pulls 5 6))) =
       before ++ e :: after ->
     named "metadata" e = true -> before = []).
Proof.
  destruct (metadata_at_most_once dumps run_id orjson accepted no_exception PNone
              late_callback (alternating 5)) as (Hone & _ & Hplace & _).
  destruct (metadata_at_most_once dumps run_id orjson accepted no_exception PNone
              callback_then_chunks (task_then_pulls 5 6)) as (_ & _ & _ & Hfirst).
  split; [exact Hone|]. split; [reflexivity|]. split; [reflexivity|].
  split; [discriminate|].
  split; [apply (Hplace [("A", [])] "B" ["run-1"] []);
            [reflexivity|reflexivity|discriminate]|].
  split; [reflexivity|]. apply Hfirst. reflexivity.
Defined.

(** The run that fails is over with the task never awaited; so is a run
    that the consumer leaves after the first event. *)
Lemma task_awaited_counterexample :
  (pc (gen (stream_run timeout_after_A (task_then_pulls 3 3))) =
     GenRaised timeout_error /\
   awaits (gen (stream_run timeout_after_A (task_then_pulls 3 3))) <> 1) /\
  (pc (gen (stream_run two_chunks
              (task_then_pulls 4 1 ++ [Disconnect] ++ task_then_pulls 4 4))) =
     GenClosed /\
   awaits (gen (stream_run two_chunks
                  (task_then_pulls 4 1 ++ [Disconnect] ++ task_then_pulls 4 4)))
     <> 1).
Proof.
  split; (split; [reflexivity|discriminate]).
Qed.

Lemma task_awaited_after_end_witness :
  pc (gen (stream_run two_chunks (task_then_pulls 4 4))) = GenReturned /\
  awaits (gen (stream_run two_chunks (task_then_pulls 4 4))) = 1 /\
  last (yielded (gen (stream_run two_chunks (task_then_pulls 4 4)))) =
    Some end_event.
Proof.
  split; [reflexivity|].
  apply (task_awaited_after_end dumps run_id orjson accepted no_exception PNone two_chunks
           (task_then_pulls 4 4)). reflexivity.
Defined.

Lemma consume_astream_marker_and_close_witness :
  length (actions timeout_after_A) + 2 <=
    count (is_turn RunTask) (task_then_pulls 3 3) /\
  is_done (task (stream_run timeout_after_A (task_then_pulls 3 3))) = true /\
  closed (chan (stream_run timeout_after_A (task_then_pulls 3 3))) = true /\
  sent (chan (stream_run timeout_after_A (task_then_pulls 3 3))) =
    [Send (Chunk "A"); Send (Failure timeout_error); Close].
Proof.
  assert (H : length (actions timeout_after_A) + 2 <=
              count (is_turn RunTask) (task_then_pulls 3 3))
    by (vm_compute; lia).
  split; [exact H|].
  destruct (consume_astream_marker_and_close dumps run_id orjson accepted no_exception PNone
              timeout_after_A (task_then_pulls 3 3))
    as (_ & _ & _ & _ & _ & Hdone).
  destruct (Hdone H) as (Hd & Hc & Hlog & _). auto.
Defined.

Lemma no_chunk_no_metadata_witness :
  chunks_of (actions callbacks_only) = [] /\
  ending callbacks_only = Completes /\
  (exists more,
     pc (gen (stream_run callbacks_only ([PullEvent; RunTask] ++ more))) =
     GenReturned) /\
  (yielded (gen (stream_run callbacks_only (task_then_pulls 4 2))) = [] \/
   yielded (gen (stream_run callbacks_only (task_then_pulls 4 2))) = [end_event]) /\
  (pc (gen (stream_run callbacks_only (task_then_pulls 4 2))) = GenReturned ->
   yielded (gen (stream_run callbacks_only (task_then_pulls 4 2))) = [end_event]).
Proof.
  destruct (no_chunk_no_metadata dumps run_id orjson accepted no_exception PNone callbacks_only
              eq_refl eq_refl) as [Hcan Hevents].
  split; [reflexivity|]. split; [reflexivity|].
  split; [apply Hcan; reflexivity|]. apply Hevents.
Defined.

(** ** Requests *)

Lemma resolved_plain :
  resolved json_loads get_assistant get_thread_messages (request "plain") "u1"
    (PDict (full_body false (messages_of ["new"]))) (PStr "a1") (PStr "t1")
    (messages_of ["one"; "two"; "three"]) the_config.
Proof.
  split; [reflexivity|]. split; [reflexivity|]. split; [reflexivity|].
  eexists _, _. split; [reflexivity|]. split; [reflexivity|].
  split; [reflexivity|]. vm_compute. reflexivity.
Defined.

Lemma resolved_streaming :
  resolved json_loads get_assistant get_thread_messages (request "streaming") "u1"
    (PDict (full_body true (messages_of ["new"]))) (PStr "a1") (PStr "t1")
    (messages_of ["one"; "two"; "three"]) the_config.
Proof.
  split; [reflexivity|]. split; [reflexivity|]. split; [reflexivity|].
  eexists _, _. split; [reflexivity|]. split; [reflexivity|].
  split; [reflexivity|]. vm_compute. reflexivity.
Defined.

Lemma resolved_bad_input :
  resolved json_loads get_assistant get_thread_messages (request "bad input") "u1"
    (PDict (full_body true (PDict ∅))) (PStr "a1") (PStr "t1")
    (messages_of ["one"; "two"; "three"]) the_config.
Proof.
  split; [reflexivity|]. split; [reflexivity|]. split; [reflexivity|].
  eexists _, _. split; [reflexivity|]. split; [reflexivity|].
  split; [reflexivity|]. vm_compute. reflexivity.
Defined.

Lemma resolved_no_stream :
  resolved json_loads get_assistant get_thread_messages (request "no stream") "u1"
    (PDict (delete "stream" (full_body true (messages_of ["new"]))))
    (PStr "a1") (PStr "t1") (messages_of ["one"; "two"; "three"]) the_config.
Proof.
  split; [reflexivity|]. split; [reflexivity|]. split; [reflexivity|].
  eexists _, _. split; [reflexivity|]. split; [reflexivity|].
  split; [reflexivity|]. vm_compute. reflexivity.
Defined.

Lemma validated_new body :
  subscript body "input" = inr (messages_of ["new"]) ->
  validated get_input_schema validate _unpack_input the_config body
    (messages_of ["new"]).
Proof.
  intros H. exists tt, (messages_of ["new"]), (messages_of ["new"]).
  split; [reflexivity|]. split; [exact H|]. split; reflexivity.
Defined.

Lemma invalid_request_starts_no_task_witness :
  json_loads (raw_body (request "{")) = inl JSONDecodeError /\
  endpoint "{" =
    (inl (RequestValidationError [PStr "Invalid JSON body"] None), []) /\
  validate tt (PDict ∅) = inl (ValidationError [PStr "messages: field required"]) /\
  endpoint "bad input" =
    (inl (RequestValidationError [PStr "messages: field required"]
            (Some (PDict (full_body true (PDict ∅))))),
     lookups).
Proof.
  destruct (invalid_request_starts_no_task json_loads get_assistant
              get_thread_messages get_input_schema validate _unpack_input
              astream true (request "{") "u1") as (Hjson & _ & _).
  destruct (invalid_request_starts_no_task json_loads get_assistant
              get_thread_messages get_input_schema validate _unpack_input
              astream true (request "bad input") "u1") as (_ & Hinput & _).
  split; [reflexivity|]. split; [apply Hjson; reflexivity|].
  split; [reflexivity|].
  apply (Hinput _ _ _ _ _ tt (PDict ∅) _ resolved_bad_input); reflexivity.
Defined.

(** A body without [assistant_id] whose input the schema rejects: the
    endpoint raises the key error of [body["assistant_id"]], which it
    evaluates before it gets to the validation, and no validation
    error. *)
Lemma invalid_request_starts_no_task_counterexample :
  subscript Sample.anonymous_body "input" = inr (PDict ∅) /\
  validate tt (PDict ∅) =
    inl (ValidationError [PStr "messages: field required"]) /\
  create_run_endpoint (chunk:=string) (callback_event:=string)
    Sample.loads_anonymous get_assistant get_thread_messages get_input_schema
    validate _unpack_input astream true (request "anonymous") "u1" [] =
    (inl (KeyError "assistant_id"), []) /\
  forall errors body,
    fst (create_run_endpoint (chunk:=string) (callback_event:=string)
           Sample.loads_anonymous get_assistant get_thread_messages
           get_input_schema validate _unpack_input astream true
           (request "anonymous") "u1" []) <>
    inl (RequestValidationError errors body).
Proof.
  split; [reflexivity|]. split; [reflexivity|].
  split; [vm_compute; reflexivity|].
  intros errors body. vm_compute. discriminate.
Qed.

(** The invocation that was queued fails; the response is the same. *)
Lemma non_streaming_run_acknowledged_witness :
  subscript (PDict (full_body false (messages_of ["new"]))) "stream" =
    inr (PBool false) /\
  truthy (PBool false) = false /\
  endpoint "plain" =
    (inr (JsonResponse (PDict {[ "status" := PStr "ok" ]})),
     lookups ++ [AddTask (messages_of ["new"]) the_config]) /\
  subscript (PDict {[ "status" := PStr "ok" ]}) "run_id" =
    inl (KeyError "run_id") /\
  serve json_loads get_assistant get_thread_messages get_input_schema
    validate _unpack_input astream ainvoke true (request "plain") "u1" =
    [Responded (JsonResponse (PDict {[ "status" := PStr "ok" ]}));
     Invoked (Some timeout_error)].
Proof.
  split; [reflexivity|]. split; [reflexivity|].
  apply (non_streaming_run_acknowledged json_loads get_assistant
           get_thread_messages get_input_schema validate _unpack_input
           astream ainvoke true (request "plain") "u1" _ _ _ _ _ _ (PBool false)
           resolved_plain
           (validated_new (PDict (full_body false (messages_of ["new"])))
              eq_refl)); reflexivity.
Defined.

Lemma streamer_gets_full_history_witness :
  subscript (PDict (full_body true (messages_of ["new"]))) "stream" =
    inr (PBool true) /\
  truthy (PBool true) = true /\
  exists config',
    setitem the_config "callbacks"
      (PList [PObject "streamer"; PObject "event_aggregator"]) = inr config' /\
    endpoint "streaming" =
      (inr (EventSourceResponse
              (new_handler
                 (PList (map PStr ["one"; "two"; "three"] ++ map PStr ["new"])))
              (astream (messages_of ["new"]) config')),
       lookups ++ [CreateTask (messages_of ["new"]) config']) /\
    forall sched,
      messages (streamer
        (run dumps run_id orjson accepted no_exception
           (PList (map PStr ["one"; "two"; "three"] ++ map PStr ["new"]))
           (astream (messages_of ["new"]) config') sched)) =
      PList (map PStr ["one"; "two"; "three"] ++ map PStr ["new"]).
Proof.
  split; [reflexivity|]. split; [reflexivity|].
  apply (streamer_gets_full_history dumps run_id orjson accepted no_exception
           json_loads
           get_assistant get_thread_messages get_input_schema validate
           _unpack_input astream true (request "streaming") "u1" _ _ _ _ _ _
           (PBool true) _ _ resolved_streaming
           (validated_new (PDict (full_body true (messages_of ["new"])))
              eq_refl));
    reflexivity.
Defined.

Lemma missing_key_raises_KeyError_witness :
  json_loads (raw_body (request "no stream")) =
    inr (PDict (delete "stream" (full_body true (messages_of ["new"])))) /\
  delete "stream" (full_body true (messages_of ["new"])) !! "stream" = None /\
  endpoint "no stream" = (inl (KeyError "stream"), lookups).
Proof.
  split; [reflexivity|]. split; [reflexivity|].
  destruct (missing_key_raises_KeyError json_loads get_assistant
              get_thread_messages get_input_schema validate _unpack_input
              astream true (request "no stream") "u1" _ eq_refl)
    as (_ & _ & _ & Hstream).
  apply (Hstream _ _ _ _ (messages_of ["new"]) resolved_no_stream);
    [apply validated_new|]; reflexivity.
Defined.

(** A body without [stream] whose input the schema rejects: the endpoint
    raises no key error, it raises the request validation error. *)
Lemma missing_key_counterexample :
  json_loads (raw_body (request "bad input, no stream")) =
    inr (PDict (delete "stream" (full_body true (PDict ∅)))) /\
  delete "stream" (full_body true (PDict ∅)) !! "stream" = None /\
  fst (endpoint "bad input, no stream") =
    inl (RequestValidationError [PStr "messages: field required"]
           (Some (PDict (delete "stream" (full_body true (PDict ∅)))))) /\
  forall key, fst (endpoint "bad input, no stream") <> inl (KeyError key).
Proof.
  split; [reflexivity|]. split; [reflexivity|].
  split; [vm_compute; reflexivity|]. intros key. vm_compute. discriminate.
Qed.

End Checks.

(** * More facts at concrete runs and requests *)

Module MoreChecks.

Import Example Sample.

Lemma closing_event_is_last_witness :
  yielded (gen (stream_run timeout_after_A (task_then_pulls 3 3))) =
    [data_event dumps "A"] ++ error_event orjson :: [] /\
  (named "error" (error_event orjson) = true \/
   named "end" (error_event orjson) = true) /\
  @nil sse_event = [] /\
  count (named "error") [data_event dumps "A"] = 0 /\
  count (named "end") [data_event dumps "A"] = 0.
Proof.
  split; [reflexivity|]. split; [left; reflexivity|].
  apply (closing_event_is_last dumps run_id orjson accepted no_exception PNone timeout_after_A
           (task_then_pulls 3 3) [data_event dumps "A"] (error_event orjson) []);
    [reflexivity|left; reflexivity].
Defined.

Lemma uncaught_exception_after_end_witness :
  ending cancelled_after_A = Raises cancelled /\
  exc_class cancelled = "CancelledError" /\
  exc_is_Exception cancelled = false /\
  forallb (plain accepted no_exception) (chunks_of (actions cancelled_after_A)) =
    true /\
  finished (pc (gen (stream_run cancelled_after_A (task_then_pulls 3 3)))) = true /\
  pc (gen (stream_run cancelled_after_A (task_then_pulls 3 3))) =
    GenRaised cancelled /\
  task (stream_run cancelled_after_A (task_then_pulls 3 3)) =
    TaskDone (Some cancelled) /\
  closed (chan (stream_run cancelled_after_A (task_then_pulls 3 3))) = true /\
  awaits (gen (stream_run cancelled_after_A (task_then_pulls 3 3))) = 1 /\
  last (yielded (gen (stream_run cancelled_after_A (task_then_pulls 3 3)))) =
    Some end_event /\
  count (named "error")
    (yielded (gen (stream_run cancelled_after_A (task_then_pulls 3 3)))) = 0 /\
  List.filter (named "data")
    (yielded (gen (stream_run cancelled_after_A (task_then_pulls 3 3)))) =
    map (data_event dumps) (chunks_of (actions cancelled_after_A)).
Proof.
  destruct (uncaught_exception_after_end dumps run_id orjson accepted
              no_exception PNone cancelled_after_A cancelled
              eq_refl eq_refl eq_refl eq_refl) as (_ & _ & Hover).
  split; [reflexivity|]. split; [reflexivity|]. split; [reflexivity|].
  split; [reflexivity|]. split; [reflexivity|].
  apply Hover. reflexivity.
Defined.

(** The consumer leaves once it has the end event, before the
    generator awaits the task. *)
Lemma nothing_left_when_over_witness :
  In end_event
    (yielded (gen (stream_run two_chunks (task_then_pulls 4 3 ++ [Disconnect])))) /\
  pc (gen (stream_run two_chunks (task_then_pulls 4 3 ++ [Disconnect]))) =
    GenClosed /\
  buffer (chan (stream_run two_chunks (task_then_pulls 4 3 ++ [Disconnect]))) = [] /\
  closed (chan (stream_run two_chunks (task_then_pulls 4 3 ++ [Disconnect]))) =
    true /\
  sent (chan (stream_run two_chunks (task_then_pulls 4 3 ++ [Disconnect]))) =
    map (fun c => Send (Chunk c)) (chunks_of (actions two_chunks)) ++ [Close].
Proof.
  assert (Hin : In end_event
    (yielded (gen (stream_run two_chunks (task_then_pulls 4 3 ++ [Disconnect])))))
    by (right; right; left; reflexivity).
  split; [exact Hin|]. split; [reflexivity|].
  exact (nothing_left_when_over dumps run_id orjson accepted no_exception PNone
           two_chunks (task_then_pulls 4 3 ++ [Disconnect]) Hin).
Defined.

Lemma no_callback_no_metadata_witness :
  callbacks_of (actions two_chunks) = [] /\
  count (named "metadata")
    (yielded (gen (stream_run two_chunks (alternating 4)))) = 0 /\
  (pc (gen (stream_run two_chunks (alternating 4))) = GenReturned ->
   yielded (gen (stream_run two_chunks (alternating 4))) =
     map (data_event dumps) (chunks_of (actions two_chunks)) ++ [end_event]).
Proof.
  split; [reflexivity|].
  apply (no_callback_no_metadata dumps run_id orjson accepted no_exception PNone two_chunks
           (alternating 4)). reflexivity.
Defined.

Lemma metadata_from_callbacks_witness :
  In (metadata_event run_id orjson ["run-1"])
    (yielded (gen (stream_run late_callback (alternating 5)))) /\
  named "metadata" (metadata_event run_id orjson ["run-1"]) = true /\
  exists evs rest,
    evs <> [] /\
    callbacks_of (actions late_callback) = evs ++ rest /\
    metadata_event run_id orjson ["run-1"] = metadata_event run_id orjson evs.
Proof.
  assert (Hin : In (metadata_event run_id orjson ["run-1"])
                  (yielded (gen (stream_run late_callback (alternating 5)))))
    by (vm_compute; right; left; reflexivity).
  split; [exact Hin|]. split; [reflexivity|].
  apply (metadata_from_callbacks dumps run_id orjson accepted no_exception PNone late_callback
           (alternating 5) _ Hin). reflexivity.
Defined.

(** The agent yields A, an exception object and B, and ends well: the
    generator takes the exception object for a failure, yields the
    error event and raises it; B stays in the stream and the task is
    not awaited. *)
Example exception_chunk_events :
  yielded (gen (run dumps run_id orjson accepted is_boom PNone
                  yields_exception (task_then_pulls 5 5))) =
    [data_event dumps "A"; error_event orjson] /\
  pc (gen (run dumps run_id orjson accepted is_boom PNone
             yields_exception (task_then_pulls 5 5))) = GenRaised boom /\
  buffer (chan (run dumps run_id orjson accepted is_boom PNone
                  yields_exception (task_then_pulls 5 5))) = [Chunk "B"] /\
  awaits (gen (run dumps run_id orjson accepted is_boom PNone
                 yields_exception (task_then_pulls 5 5))) = 0.
Proof. repeat split; reflexivity. Qed.

Lemma metadata_followed_by_data_witness :
  yielded (gen (stream_run late_callback (alternating 5))) =
    [data_event dumps "A"] ++ metadata_event run_id orjson ["run-1"]
      :: data_event dumps "B" :: [end_event] /\
  named "metadata" (metadata_event run_id orjson ["run-1"]) = true /\
  named "data" (data_event dumps "B") = true /\
  yielded (gen (run dumps run_id orjson refuses_B no_exception PNone
                  callback_then_B (task_then_pulls 4 3))) =
    [] ++ [metadata_event run_id orjson ["run-1"]] /\
  ((exists c, pc (gen (run dumps run_id orjson refuses_B no_exception PNone
                         callback_then_B (task_then_pulls 4 3))) =
              GenAtMetadata c) \/
   pc (gen (run dumps run_id orjson refuses_B no_exception PNone
              callback_then_B (task_then_pulls 4 3))) = GenClosed \/
   (exists c x, refuses_B c = Some x /\
      pc (gen (run dumps run_id orjson refuses_B no_exception PNone
                 callback_then_B (task_then_pulls 4 3))) = GenRaised x)) /\
  pc (gen (run dumps run_id orjson refuses_B no_exception PNone
             callback_then_B (task_then_pulls 4 3))) = GenRaised not_serializable.
Proof.
  split; [reflexivity|]. split; [reflexivity|].
  destruct (metadata_followed_by_data dumps run_id orjson accepted no_exception
              PNone late_callback (alternating 5)) as [Hnext _].
  destruct (metadata_followed_by_data dumps run_id orjson refuses_B no_exception
              PNone callback_then_B (task_then_pulls 4 3)) as [_ Hlast].
  split; [apply (Hnext [data_event dumps "A"]
                   (metadata_event run_id orjson ["run-1"])
                   (data_event dumps "B") [end_event]); reflexivity|].
  split; [reflexivity|].
  split; [apply (Hlast [] (metadata_event run_id orjson ["run-1"]));
            reflexivity|reflexivity].
Defined.

Lemma events_independent_of_interleaving_witness :
  finished (pc (gen (stream_run late_callback (alternating 5)))) = true /\
  finished (pc (gen (stream_run late_callback (task_then_pulls 5 6)))) = true /\
  yielded (gen (stream_run late_callback (alternating 5))) <>
    yielded (gen (stream_run late_callback (task_then_pulls 5 6))) /\
  List.filter (fun ev => negb (named "metadata" ev))
    (yielded (gen (stream_run late_callback (alternating 5)))) =
  List.filter (fun ev => negb (named "metadata" ev))
    (yielded (gen (stream_run late_callback (task_then_pulls 5 6)))).
Proof.
  split; [reflexivity|]. split; [reflexivity|].
  split; [vm_compute; discriminate|].
  apply (events_independent_of_interleaving dumps run_id orjson accepted no_exception PNone
           late_callback (alternating 5) (task_then_pulls 5 6)); reflexivity.
Defined.

Lemma attach_user_id_to_config_sets_user_id_witness :
  cookies no_cookie !! "opengpts_user_id" = None /\
  attach_user_id_to_config the_config no_cookie =
    inl (KeyError "opengpts_user_id") /\
  attach_user_id_to_config the_config (request "plain") = inr the_config.
Proof.
  destruct (attach_user_id_to_config_sets_user_id the_config no_cookie)
    as (Hmissing & _ & _).
  destruct (attach_user_id_to_config_sets_user_id the_config (request "plain"))
    as (_ & _ & Hagain).
  split; [reflexivity|]. split; [apply Hmissing; reflexivity|].
  apply Hagain. vm_compute. reflexivity.
Defined.

Lemma request_ids_override_stored_witness :
  exists display config,
    config_display stored_assistant
      (PDict (full_body false (messages_of ["new"]))) = inr display /\
    attach_user_id_to_config display (request "plain") = inr config /\
    exists stored stored_c d c thread_id assistant_id user_id,
      subscript stored_assistant "config" = inr (PDict stored) /\
      stored !! "configurable" = Some (PDict stored_c) /\
      subscript (PDict (full_body false (messages_of ["new"]))) "thread_id" =
        inr thread_id /\
      subscript (PDict (full_body false (messages_of ["new"]))) "assistant_id" =
        inr assistant_id /\
      cookies (request "plain") !! "opengpts_user_id" = Some user_id /\
      config = PDict d /\
      d !! "configurable" = Some (PDict c) /\
      c !! "thread_id" = Some thread_id /\
      c !! "assistant_id" = Some assistant_id /\
      c !! "user_id" = Some (PStr user_id) /\
      (forall k, k <> "thread_id" -> k <> "assistant_id" -> k <> "user_id" ->
         c !! k = stored_c !! k) /\
      (forall k, k <> "configurable" -> d !! k = stored !! k).
Proof.
  eexists _, _. split; [vm_compute; reflexivity|].
  split; [vm_compute; reflexivity|].
  eapply request_ids_override_stored; vm_compute; reflexivity.
Defined.

Lemma one_task_per_response_witness :
  endpoint "plain" =
    (inr (JsonResponse (PDict {[ "status" := PStr "ok" ]})),
     lookups ++ [AddTask (messages_of ["new"]) the_config]) /\
  exists aid tid input_ config,
    lookups ++ [AddTask (messages_of ["new"]) the_config] =
      [RunInExecutor "get_assistant" [PStr "u1"; aid];
       RunInExecutor "get_thread_messages" [PStr "u1"; tid];
       AddTask input_ config] /\
    PDict {[ "status" := PStr "ok" ]} = PDict {[ "status" := PStr "ok" ]}.
Proof.
  split; [reflexivity|].
  exact (one_task_per_response json_loads get_assistant get_thread_messages
           get_input_schema validate _unpack_input astream true
           (request "plain") "u1"
           (JsonResponse (PDict {[ "status" := PStr "ok" ]}))
           (lookups ++ [AddTask (messages_of ["new"]) the_config]) eq_refl).
Defined.

Lemma failed_lookup_rejects_witness :
  json_loads (raw_body (request "plain")) =
    inr (PDict (full_body false (messages_of ["new"]))) /\
  subscript (PDict (full_body false (messages_of ["new"]))) "assistant_id" =
    inr (PStr "a1") /\
  subscript (PDict (full_body false (messages_of ["new"]))) "thread_id" =
    inr (PStr "t1") /\
  no_assistant "u1" (PStr "a1") = inl (OtherError "NotFound") /\
  create_run_endpoint (chunk:=string) (callback_event:=string)
    json_loads no_assistant get_thread_messages get_input_schema validate
    _unpack_input astream true (request "plain") "u1" [] =
    (inl (OtherError "NotFound"), lookups).
Proof.
  destruct (failed_lookup_rejects (chunk:=string) (callback_event:=string)
              json_loads no_assistant get_thread_messages get_input_schema
              validate _unpack_input astream true (request "plain") "u1"
              (PDict (full_body false (messages_of ["new"])))
              (PStr "a1") (PStr "t1"))
    as (Hfirst & _ & _); try reflexivity.
  split; [reflexivity|]. split; [reflexivity|]. split; [reflexivity|].
  split; [reflexivity|].
  apply (Hfirst _ (messages_of ["one"; "two"; "three"])); reflexivity.
Defined.

Lemma except_clauses_take_their_own_witness :
  undecodable (raw_body (request "plain")) =
    inl (OtherError "UnicodeDecodeError") /\
  OtherError "UnicodeDecodeError" <> JSONDecodeError /\
  create_run_endpoint (chunk:=string) (callback_event:=string)
    undecodable get_assistant get_thread_messages get_input_schema validate
    _unpack_input astream true (request "plain") "u1" [] =
    (inl (OtherError "UnicodeDecodeError"), []).
Proof.
  destruct (except_clauses_take_their_own (chunk:=string)
              (callback_event:=string) undecodable get_assistant
              get_thread_messages get_input_schema validate _unpack_input
              astream true (request "plain") "u1") as [Hjson _].
  split; [reflexivity|]. split; [discriminate|].
  apply Hjson; [reflexivity|discriminate].
Defined.

Lemma stream_needs_both_messages_witness :
  subscript (PDict (full_body true (messages_of ["new"]))) "stream" =
    inr (PBool true) /\
  truthy (PBool true) = true /\
  subscript (PDict ∅) "messages" = inl (KeyError "messages") /\
  create_run_endpoint (chunk:=string) (callback_event:=string)
    json_loads get_assistant empty_thread get_input_schema validate
    _unpack_input astream true (request "streaming") "u1" [] =
    (inl (KeyError "messages"), lookups).
Proof.
  assert (Hr : resolved json_loads get_assistant empty_thread
                 (request "streaming") "u1"
                 (PDict (full_body true (messages_of ["new"])))
                 (PStr "a1") (PStr "t1") (PDict ∅) the_config).
  { split; [reflexivity|]. split; [reflexivity|]. split; [reflexivity|].
    eexists _, _. split; [reflexivity|]. split; [reflexivity|].
    split; [reflexivity|]. vm_compute. reflexivity. }
  assert (Hv : validated get_input_schema validate _unpack_input the_config
                 (PDict (full_body true (messages_of ["new"])))
                 (messages_of ["new"]))
    by (apply Checks.validated_new; reflexivity).
  destruct (stream_needs_both_messages (chunk:=string) (callback_event:=string)
              json_loads get_assistant empty_thread get_input_schema validate
              _unpack_input astream true (request "streaming") "u1"
              _ _ _ _ _ _ (PBool true) Hr Hv eq_refl eq_refl)
    as (Hstate & _ & _).
  split; [reflexivity|]. split; [reflexivity|]. split; [reflexivity|].
  apply Hstate. reflexivity.
Defined.

End MoreChecks.
